(** * Image conveyor/packer and in-container bootstrap: a shallow embedding

    The Go sources of the OCI conveyor/packer ([extractArchive],
    [insertRunScript], [insertEnv]), of the base-environment scaffold
    ([makeDirs], [makeSymlinks], [makeFile], [makeFiles], [makeBaseEnv]) and
    the shell text of the action script ([clear_env], [restore_env]) and
    of [99-runtimevars.sh] are translated into Rocq functions.  Go strings
    are byte strings ([string]); file systems and shell variable stores are
    finite maps. *)

From Stdlib Require Import ZArith Ascii String List Bool Lia.
From stdpp Require Import base option list strings gmap fin_maps.

Local Open Scope string_scope.
Local Open Scope Z_scope.

#[local] Arguments String.append !_ _ : simpl nomatch.

(** ** Go byte strings *)

Module GoStr.

(** The numeric value of a byte. *)
Definition code (c : ascii) : Z := Z.of_N (N_of_ascii c).

Definition chr (z : Z) : ascii := ascii_of_N (Z.to_N z).

Definition str1 (c : ascii) : string := String c EmptyString.

(** Characters that cannot be written inside a literal. *)
Definition dq : string := str1 (chr 34).
Definition nl : string := str1 (chr 10).
Definition bsl : string := str1 (chr 92).

(** [strings.SplitN(s, sep, 2)] for a one-byte separator: the text before the
    first separator and, when there is one, the text after it. *)
Fixpoint SplitN2 (sep : ascii) (s : string) : string * option string :=
  match s with
  | EmptyString => (EmptyString, None)
  | String c r =>
      if Ascii.eqb c sep then (EmptyString, Some r)
      else let '(k, v) := SplitN2 sep r in (String c k, v)
  end.

(** [strings.Replace(s, old, new, -1)] for a one-byte [old]. *)
Fixpoint ReplaceAll (old : ascii) (new : string) (s : string) : string :=
  match s with
  | EmptyString => EmptyString
  | String c r =>
      (if Ascii.eqb c old then new else str1 c) +:+ ReplaceAll old new r
  end.

(** [strings.HasPrefix]. *)
Definition HasPrefix (s p : string) : bool := String.prefix p s.

(** *** [strconv.Quote], the [%q] verb of [fmt.Sprintf] *)

Definition lowerhex (n : Z) : ascii :=
  nth (Z.to_nat n) (list_ascii_of_string "0123456789abcdef") (chr 48).

(** [k] hexadecimal digits of [r], most significant first. *)
Fixpoint hexdigits (k : nat) (r : Z) : string :=
  match k with
  | O => EmptyString
  | S k' =>
      String (lowerhex (Z.land (Z.shiftr r (4 * Z.of_nat k')) 15)) (hexdigits k' r)
  end.

(** The table [first] of unicode/utf8 for a lead byte above 0x7F: the length
    of the sequence and the range accepted for the second byte. *)
Definition first (b0 : Z) : option (nat * Z * Z) :=
  if b0 <? 0xC2 then None
  else if b0 <=? 0xDF then Some (2%nat, 0x80, 0xBF)
  else if b0 =? 0xE0 then Some (3%nat, 0xA0, 0xBF)
  else if b0 =? 0xED then Some (3%nat, 0x80, 0x9F)
  else if b0 <=? 0xEF then Some (3%nat, 0x80, 0xBF)
  else if b0 =? 0xF0 then Some (4%nat, 0x90, 0xBF)
  else if b0 <=? 0xF3 then Some (4%nat, 0x80, 0xBF)
  else if b0 =? 0xF4 then Some (4%nat, 0x80, 0x8F)
  else None.

Definition between (lo hi b : Z) : bool := (lo <=? b) && (b <=? hi).

Section Quote.

(** [unicode.IsPrint] on the runes above the ASCII range is a table of the Go
    runtime; it is a parameter of the model. *)
Variable isPrintHigh : Z -> bool.

Definition IsPrint (r : Z) : bool :=
  if r <? 0x80 then between 0x20 0x7E r else isPrintHigh r.

(** [appendEscapedRune] for the double-quote delimiter, with
    [ASCIIonly = graphicOnly = false];
    [raw] is the UTF-8 text of the rune. *)
Definition appendEscapedRune (r : Z) (raw : string) : string :=
  if (r =? 34) || (r =? 92) then bsl +:+ raw
  else if IsPrint r then raw
  else if r =? 7 then bsl +:+ "a"
  else if r =? 8 then bsl +:+ "b"
  else if r =? 12 then bsl +:+ "f"
  else if r =? 10 then bsl +:+ "n"
  else if r =? 13 then bsl +:+ "r"
  else if r =? 9 then bsl +:+ "t"
  else if r =? 11 then bsl +:+ "v"
  else if (r <? 32) || (r =? 0x7F) then bsl +:+ "x" +:+ hexdigits 2 r
  else if r <? 0x10000 then bsl +:+ "u" +:+ hexdigits 4 r
  else bsl +:+ "U" +:+ hexdigits 8 r.

(** The loop of [appendQuotedWith]: decode one rune, escape it, go on after
    it; a byte that starts no valid sequence is written as [\xhh]. *)
Fixpoint quoteBody (s : string) : string :=
  match s with
  | EmptyString => EmptyString
  | String c0 r0 =>
      let b0 := code c0 in
      let bad := bsl +:+ "x" +:+ hexdigits 2 b0 +:+ quoteBody r0 in
      if b0 <? 0x80 then appendEscapedRune b0 (str1 c0) +:+ quoteBody r0
      else
        match first b0, r0 with
        | Some (sz, lo, hi), String c1 r1 =>
            let b1 := code c1 in
            if negb (between lo hi b1) then bad
            else if (sz =? 2)%nat then
              appendEscapedRune
                (Z.lor (Z.shiftl (Z.land b0 0x1F) 6) (Z.land b1 0x3F))
                (String c0 (str1 c1)) +:+ quoteBody r1
            else
              match r1 with
              | String c2 r2 =>
                  let b2 := code c2 in
                  if negb (between 0x80 0xBF b2) then bad
                  else if (sz =? 3)%nat then
                    appendEscapedRune
                      (Z.lor (Z.shiftl (Z.land b0 0x0F) 12)
                         (Z.lor (Z.shiftl (Z.land b1 0x3F) 6) (Z.land b2 0x3F)))
                      (String c0 (String c1 (str1 c2))) +:+ quoteBody r2
                  else
                    match r2 with
                    | String c3 r3 =>
                        let b3 := code c3 in
                        if negb (between 0x80 0xBF b3) then bad
                        else
                          appendEscapedRune
                            (Z.lor (Z.shiftl (Z.land b0 0x07) 18)
                               (Z.lor (Z.shiftl (Z.land b1 0x3F) 12)
                                  (Z.lor (Z.shiftl (Z.land b2 0x3F) 6)
                                     (Z.land b3 0x3F))))
                            (String c0 (String c1 (String c2 (str1 c3))))
                            +:+ quoteBody r3
                    | EmptyString => bad
                    end
              | EmptyString => bad
              end
        | _, _ => bad
        end
  end.

Definition Quote (s : string) : string := dq +:+ quoteBody s +:+ dq.

End Quote.

End GoStr.

(** ** The shell-quoting helpers of [internal/pkg/util/shell] *)

Module Shell.
Import GoStr.

(** The characters that keep a meaning between shell double quotes:
    backslash, double quote, backquote and dollar. *)
Definition special (c : ascii) : bool :=
  let b := code c in (b =? 92) || (b =? 34) || (b =? 96) || (b =? 36).

(** Modelled from the spec: [shell.Escape] is not among the sources; the spec
    calls its result the escaped value, embedded between double quotes.  It
    puts a backslash before every character that is special there. *)
Fixpoint Escape (s : string) : string :=
  match s with
  | EmptyString => EmptyString
  | String c r => (if special c then bsl +:+ str1 c else str1 c) +:+ Escape r
  end.

(** Modelled from the spec: [shell.ArgsQuoted] is not among the sources; list
    values are embedded as shell-escaped literals: every item escaped,
    between double quotes, the items separated by one space. *)
Fixpoint ArgsQuoted (a : list string) : string :=
  match a with
  | [] => EmptyString
  | [x] => dq +:+ Escape x +:+ dq
  | x :: r => dq +:+ Escape x +:+ dq +:+ " " +:+ ArgsQuoted r
  end.

(** Modelled from the spec: [shell.EscapeSingleQuotes] is not among the
    sources; it makes a text fit between single quotes: each single quote
    closes the literal, is written between double quotes, and reopens it. *)
Definition EscapeSingleQuotes (s : string) : string :=
  ReplaceAll (chr 39) ("'" +:+ dq +:+ "'" +:+ dq +:+ "'") s.

End Shell.

(** ** The image configuration *)

Record ImageConfig := {
  Entrypoint : list string;
  Cmd : list string;
  Env : list string
}.

(** ** [insertEnv]: the environment file [10-docker2apptainer.sh] *)

Module EnvFile.
Import GoStr Shell.

Section WithRuntime.
Variable isPrintHigh : Z -> bool.

(** The body of the loop over [Env]: the text of the variable [export]. *)
Definition exportLine (element : string) : string :=
  let envParts := SplitN2 "=" element in
  match envParts with
  | (k, None) =>
      "export " +:+ k +:+ "=" +:+ dq +:+ "${" +:+ k +:+ ":-}" +:+ dq +:+ nl
  | (k, Some v) =>
      if String.eqb k "PATH" then
        "export " +:+ k +:+ "=" +:+ Quote isPrintHigh (Escape v) +:+ nl
      else
        "export " +:+ k +:+ "=" +:+ dq +:+ "${" +:+ k +:+ ":-"
          +:+ Quote isPrintHigh (Escape v) +:+ "}" +:+ dq +:+ nl
  end.

(** The bytes written to the file: the interpreter line, then one
    [WriteString] per element of [Env]. *)
Definition insertEnv (cfg : ImageConfig) : string :=
  fold_left (fun f element => f +:+ exportLine element) (Env cfg)
    ("#!/bin/sh" +:+ nl).

End WithRuntime.

End EnvFile.

(** ** Shell variables

    The state of the shell that runs the bootstrap scripts: the variables
    that are set, with their values, and the names that carry the export and
    the read-only attribute. *)

Module Sh.

Record state := {
  vars : gmap string string;
  exported : gset string;
  readonly : gset string
}.


(** The expansion of [${k}], which is that of [${k:-}] and of [${!key}]:
    empty for a variable that is not set. *)
Definition expand (st : state) (k : string) : string := default EmptyString (vars st !! k).

(** [test -n s] and [test -z s]. *)
Definition nonempty (s : string) : bool := negb (String.eqb s EmptyString).

(** [k=v].  An assignment to a read-only name fails and leaves the state as
    it is. *)
Definition assign (k v : string) (st : state) : state :=
  if decide (k ∈ readonly st) then st
  else {| vars := <[k := v]> (vars st); exported := exported st; readonly := readonly st |}.

(** [unset k].  A read-only name cannot be unset: the builtin fails and the
    script goes on.  Unsetting drops the export attribute with the variable. *)
Definition unset (k : string) (st : state) : state :=
  if decide (k ∈ readonly st) then st
  else {| vars := delete k (vars st); exported := exported st ∖ {[k]}; readonly := readonly st |}.

(** [export k]. *)
Definition export (k : string) (st : state) : state :=
  {| vars := vars st; exported := {[k]} ∪ exported st; readonly := readonly st |}.

(** [export k=v]. *)
Definition export_assign (k v : string) (st : state) : state :=
  if decide (k ∈ readonly st) then st else export k (assign k v st).


End Sh.

(** ** The runtime-variables scripts

    [RuntimeVars] is the text injected by the runtime, and
    [base99runtimevarsShFileContent] the text the scaffold writes to
    [.apptainer.d/env/99-runtimevars.sh]; each is embedded as the state
    transformer its statements denote. *)

Module RuntimeVarsScript.
Import Sh.

Definition PREPEND : string := "SING_USER_DEFINED_PREPEND_PATH".
Definition APPEND : string := "SING_USER_DEFINED_APPEND_PATH".
Definition OVERRIDE : string := "SING_USER_DEFINED_PATH".

(** [files.RuntimeVars]: each variable is unset inside its own branch. *)
Definition RuntimeVars (st : state) : state :=
  let st :=
    if nonempty (expand st PREPEND) then
      unset PREPEND (assign "PATH" (expand st PREPEND +:+ ":" +:+ expand st "PATH") st)
    else st in
  let st :=
    if nonempty (expand st APPEND) then
      unset APPEND (assign "PATH" (expand st "PATH" +:+ ":" +:+ expand st APPEND) st)
    else st in
  let st :=
    if nonempty (expand st OVERRIDE) then
      unset OVERRIDE (assign "PATH" (expand st OVERRIDE) st)
    else st in
  export "PATH" st.

(** [base99runtimevarsShFileContent]: the three variables are unset together
    after the three branches. *)
Definition base99runtimevarsSh (st : state) : state :=
  let st :=
    if nonempty (expand st PREPEND) then
      assign "PATH" (expand st PREPEND +:+ ":" +:+ expand st "PATH") st
    else st in
  let st :=
    if nonempty (expand st APPEND) then
      assign "PATH" (expand st "PATH" +:+ ":" +:+ expand st APPEND) st
    else st in
  let st :=
    if nonempty (expand st OVERRIDE) then
      assign "PATH" (expand st OVERRIDE) st
    else st in
  let st := unset OVERRIDE (unset APPEND (unset PREPEND st)) in
  export "PATH" st.

End RuntimeVarsScript.

(** ** The action script: [clear_env] and [restore_env] *)

Module ActionScript.
Import Sh.











Section WithBuiltins.

(** The builtin [fixpath] is not among the sources: the text it prints, from
    the variables of the shell, is a parameter. *)
Variable fixpath : state -> string.





End WithBuiltins.

End ActionScript.

(** ** A fragment of the shell's word grammar

    The words of a command line made of blanks, plain characters and quoted
    segments, as [eval] and an assignment read them.  Parameter and command
    expansion, globbing and operators are outside the fragment: on such a
    text the functions below give [None], as they do on an unclosed quote. *)

Module ShWords.
Import GoStr.

Inductive mode := Unquoted | SingleQuoted | DoubleQuoted.

Definition is_blank (c : ascii) : bool := (code c =? 32) || (code c =? 9).

(** Characters a backslash escapes between double quotes. *)
Definition dq_escapable (c : ascii) : bool :=
  let b := code c in (b =? 36) || (b =? 96) || (b =? 34) || (b =? 92).

(** Characters that stand for themselves outside quotes: letters, digits
    and a few punctuation marks without a meaning to the shell. *)
Definition plain_unquoted (c : ascii) : bool :=
  let b := code c in
  between 48 57 b || between 65 90 b || between 97 122 b
  || (b =? 95) || (b =? 45) || (b =? 46) || (b =? 47) || (b =? 58)
  || (b =? 44) || (b =? 43) || (b =? 64) || (b =? 37) || (b =? 61).

(** The word being read: [None] between words. *)
Definition push (cur : option string) (c : ascii) : option string :=
  Some (default EmptyString cur +:+ str1 c).

Definition start (cur : option string) : option string :=
  Some (default EmptyString cur).

Fixpoint words (s : string) (m : mode) (cur : option string) : option (list string) :=
  match s with
  | EmptyString =>
      match m with
      | Unquoted => Some (match cur with Some w => [w] | None => [] end)
      | _ => None
      end
  | String c r =>
      match m with
      | SingleQuoted =>
          if code c =? 39 then words r Unquoted cur
          else if code c =? 0 then None
          else words r SingleQuoted (push cur c)
      | DoubleQuoted =>
          if code c =? 34 then words r Unquoted cur
          else if code c =? 92 then
            match r with
            | String d r' =>
                if dq_escapable d then words r' DoubleQuoted (push cur d)
                else if code d =? 10 then words r' DoubleQuoted cur
                else words r DoubleQuoted (push cur c)
            | EmptyString => None
            end
          else if (code c =? 36) || (code c =? 96) || (code c =? 0) then None
          else words r DoubleQuoted (push cur c)
      | Unquoted =>
          if is_blank c then
            match cur with
            | Some w => cons w <$> words r Unquoted None
            | None => words r Unquoted None
            end
          else if code c =? 39 then words r SingleQuoted (start cur)
          else if code c =? 34 then words r DoubleQuoted (start cur)
          else if code c =? 92 then
            match r with
            | String d r' =>
                if code d =? 10 then words r' Unquoted cur
                else if code d =? 0 then None
                else words r' Unquoted (push cur d)
            | EmptyString => None
            end
          else if plain_unquoted c then words r Unquoted (push cur c)
          else None
      end
  end.

(** The words of a command line. *)
Definition command_words (s : string) : option (list string) := words s Unquoted None.

(** The value a variable gets from [name=text]: [text] is one word. *)
Definition assigned_value (text : string) : option string :=
  match command_words text with
  | Some [] => Some EmptyString
  | Some [w] => Some w
  | _ => None
  end.

(** A first operand of [set] that starts with a dash or a plus is read as
    options, not as a positional parameter. *)
Definition is_option (w : string) : bool :=
  match w with
  | String c _ => (code c =? 45) || (code c =? 43)
  | EmptyString => false
  end.

(** [eval "set <text>"] followed by [exec "$@"]: the command that is
    executed.  Without operands [set] leaves the positional parameters
    [args] as they are. *)
Definition eval_set_exec (text : string) (args : list string) : option (list string) :=
  match command_words ("set " +:+ text) with
  | Some [_] => Some args
  | Some (_ :: w :: ws) => if is_option w then None else Some (w :: ws)
  | _ => None
  end.

End ShWords.

(** ** [insertRunScript]: the generated runscript *)

Module RunScript.
Import GoStr Shell ShWords.

(** The fixed text written after the two assignments. *)
Definition runscriptTail : string :=
  "CMDLINE_ARGS=" +:+ dq +:+ dq +:+ "
# prepare command line arguments for evaluation
for arg in " +:+ dq +:+ "$@" +:+ dq +:+ "; do
    CMDLINE_ARGS=" +:+ dq +:+ "${CMDLINE_ARGS} \" +:+ dq +:+ "$arg\" +:+ dq +:+ dq +:+ "
done

# ENTRYPOINT only - run entrypoint plus args
if [ -z " +:+ dq +:+ "$OCI_CMD" +:+ dq +:+ " ] && [ -n " +:+ dq +:+ "$OCI_ENTRYPOINT" +:+ dq +:+ " ]; then
    if [ $# -gt 0 ]; then
        APPTAINER_OCI_RUN=" +:+ dq +:+ "${OCI_ENTRYPOINT} ${CMDLINE_ARGS}" +:+ dq +:+ "
    else
        APPTAINER_OCI_RUN=" +:+ dq +:+ "${OCI_ENTRYPOINT}" +:+ dq +:+ "
    fi
fi

# CMD only - run CMD or override with args
if [ -n " +:+ dq +:+ "$OCI_CMD" +:+ dq +:+ " ] && [ -z " +:+ dq +:+ "$OCI_ENTRYPOINT" +:+ dq +:+ " ]; then
    if [ $# -gt 0 ]; then
        APPTAINER_OCI_RUN=" +:+ dq +:+ "${CMDLINE_ARGS}" +:+ dq +:+ "
    else
        APPTAINER_OCI_RUN=" +:+ dq +:+ "${OCI_CMD}" +:+ dq +:+ "
    fi
fi

# ENTRYPOINT and CMD - run ENTRYPOINT with CMD as default args
# override with user provided args
if [ $# -gt 0 ]; then
    APPTAINER_OCI_RUN=" +:+ dq +:+ "${OCI_ENTRYPOINT} ${CMDLINE_ARGS}" +:+ dq +:+ "
else
    APPTAINER_OCI_RUN=" +:+ dq +:+ "${OCI_ENTRYPOINT} ${OCI_CMD}" +:+ dq +:+ "
fi

# Evaluate shell expressions first and set arguments accordingly,
# then execute final command as first container process
eval " +:+ dq +:+ "set ${APPTAINER_OCI_RUN}" +:+ dq +:+ "
exec " +:+ dq +:+ "$@" +:+ dq +:+ "

".

(** The text assigned to [OCI_ENTRYPOINT] or [OCI_CMD]. *)
Definition list_literal (l : list string) : string :=
  if (0 <? Z.of_nat (length l)) then "'" +:+ EscapeSingleQuotes (ArgsQuoted l) +:+ "'"
  else "''".

(** The bytes written to [.apptainer.d/runscript]. *)
Definition insertRunScript (cfg : ImageConfig) : string :=
  "#!/bin/sh" +:+ nl
  +:+ "OCI_ENTRYPOINT=" +:+ list_literal (Entrypoint cfg) +:+ nl
  +:+ "OCI_CMD=" +:+ list_literal (Cmd cfg) +:+ nl
  +:+ runscriptTail.

(** What [runscriptTail] does, given the values of the two variables and
    the positional parameters: the command that [exec] runs. *)
Definition run_tail (OCI_ENTRYPOINT OCI_CMD : string) (args : list string)
    : option (list string) :=
  let CMDLINE_ARGS :=
    fold_left (fun acc arg => acc +:+ " " +:+ dq +:+ arg +:+ dq) args EmptyString in
  let some_args := (0 <? Z.of_nat (length args)) in
  let APPTAINER_OCI_RUN := EmptyString in
  let APPTAINER_OCI_RUN :=
    if negb (Sh.nonempty OCI_CMD) && Sh.nonempty OCI_ENTRYPOINT then
      if some_args then OCI_ENTRYPOINT +:+ " " +:+ CMDLINE_ARGS
      else OCI_ENTRYPOINT
    else APPTAINER_OCI_RUN in
  let APPTAINER_OCI_RUN :=
    if Sh.nonempty OCI_CMD && negb (Sh.nonempty OCI_ENTRYPOINT) then
      if some_args then CMDLINE_ARGS else OCI_CMD
    else APPTAINER_OCI_RUN in
  let APPTAINER_OCI_RUN :=
    if some_args then OCI_ENTRYPOINT +:+ " " +:+ CMDLINE_ARGS
    else OCI_ENTRYPOINT +:+ " " +:+ OCI_CMD in
  eval_set_exec APPTAINER_OCI_RUN args.

(** The generated runscript evaluated with the positional parameters [args]:
    the two assignments, then the fixed text. *)
Definition run_script (cfg : ImageConfig) (args : list string) : option (list string) :=
  match assigned_value (list_literal (Entrypoint cfg)),
        assigned_value (list_literal (Cmd cfg)) with
  | Some e, Some c => run_tail e c args
  | _, _ => None
  end.

End RunScript.

(** ** Paths: [path/filepath] *)

Module Path.
Import GoStr.

(** [strings.Split(s, sep)] for a one-byte separator. *)
Fixpoint splitc (sep : ascii) (s : string) : list string :=
  match s with
  | EmptyString => [EmptyString]
  | String c r =>
      if Ascii.eqb c sep then EmptyString :: splitc sep r
      else
        match splitc sep r with
        | h :: t => String c h :: t
        | [] => [str1 c]
        end
  end.

Definition rooted (s : string) : bool :=
  match s with
  | String c _ => Ascii.eqb c "/"
  | EmptyString => false
  end.

(** A Go octal literal, such as [0o755], from its digits. *)
Definition octal (digits : string) : Z :=
  fold_left (fun acc c => 8 * acc + (code c - 48)) (list_ascii_of_string digits) 0.

(** One element of a path read by [Clean]; the elements kept so far are a
    stack, the last one first. *)
Definition clean_step (is_rooted : bool) (st : list string) (c : string) : list string :=
  if String.eqb c EmptyString || String.eqb c "." then st
  else if String.eqb c ".." then
    match st with
    | top :: below => if String.eqb top ".." then c :: st else below
    | [] => if is_rooted then [] else [c]
    end
  else c :: st.

(** [filepath.Clean]: the shortest equivalent path by purely lexical
    processing. *)
Definition Clean (path : string) : string :=
  let st := fold_left (clean_step (rooted path)) (splitc "/" path) [] in
  let out := String.concat "/" (rev st) in
  if rooted path then "/" +:+ out
  else if String.eqb out EmptyString then "." else out.

(** [filepath.Join]: empty elements are ignored, the rest is joined by
    slashes and cleaned; no element at all gives the empty string. *)
Fixpoint Join (elem : list string) : string :=
  match elem with
  | [] => EmptyString
  | e :: r =>
      if String.eqb e EmptyString then Join r
      else Clean (String.concat "/" elem)
  end.

(** The parent directory [MkdirAll] recurses on: with [i] past the last
    character that is no separator and [j] at the start of the last
    element, [path[:j-1]] when [j > 1]. *)
Fixpoint drop_seps (r : list ascii) : list ascii :=
  match r with
  | c :: r' => if Ascii.eqb c "/" then drop_seps r' else r
  | [] => []
  end.

Fixpoint drop_element (r : list ascii) : list ascii :=
  match r with
  | c :: r' => if Ascii.eqb c "/" then r else drop_element r'
  | [] => []
  end.

Definition parent_of (path : string) : option string :=
  match drop_element (drop_seps (rev (list_ascii_of_string path))) with
  | _ :: (_ :: _) as before => Some (string_of_list_ascii (rev before))
  | _ => None
  end.

End Path.

(** ** The file system

    A tree of directories, regular files and symbolic links, keyed by the
    canonical absolute path of each node (the list of its components; the
    empty list is the root).  Every node has permission bits and an owner;
    the calling process has an effective user, a file-creation mask and a
    working directory.  Access is decided as the kernel does for a process
    without supplementary groups: the owner class for the owner, the others
    class for everybody else, and everything for the super-user. *)

Module FS.
Import GoStr Path.

Inductive errno := ENOENT | ENOTDIR | EEXIST | EACCES | EPERM | ELOOP | EISDIR.

Inductive node :=
  | Dir (mode : Z) (uid : nat)
  | Reg (mode : Z) (uid : nat) (data : string)
  | Lnk (target : string).

Record proc := {
  euid : nat;
  umask : Z;
  cwd : list string
}.

#[global] Instance node_eq_dec : EqDecision node.
Proof. solve_decision. Defined.

(** The result of walking a path: the node it names, or the place where its
    last component is missing in an existing directory, or an error. *)
Inductive walked :=
  | Found (q : list string) (n : node)
  | Absent (q : list string) (parent : node)
  | Fail (e : errno).

(** The number of symbolic links one path walk may follow. *)
Definition MAXSYMLINKS : nat := 40.

Definition is_dir (n : node) : bool :=
  match n with Dir _ _ => true | _ => false end.

Definition is_regular (n : node) : bool :=
  match n with Reg _ _ _ => true | _ => false end.

(** The permission bits of a node. *)
Definition perm_of (n : node) : Z :=
  match n with
  | Dir mode _ | Reg mode _ _ => mode
  | Lnk _ => (octal "777")
  end.

Section Kernel.
Variable P : proc.

Definition class_bits (mode : Z) (uid : nat) : Z :=
  if (uid =? euid P)%nat then Z.land (Z.shiftr mode 6) 7 else Z.land mode 7.

(** [bit] is 4 to read, 2 to write, 1 to search or execute. *)
Definition permitted (mode : Z) (uid : nat) (bit : Z) : bool :=
  (euid P =? 0)%nat || negb (Z.land (class_bits mode uid) bit =? 0).

Definition may (bit : Z) (n : node) : bool :=
  match n with
  | Dir mode uid | Reg mode uid _ => permitted mode uid bit
  | Lnk _ => true
  end.

(** The owner of a node, and the super-user, may change its mode. *)
Definition owns (n : node) : bool :=
  match n with
  | Dir _ uid | Reg _ uid _ => (euid P =? 0)%nat || (uid =? euid P)%nat
  | Lnk _ => false
  end.

(** The path walk.  [cur] is the directory reached so far, [comps] the
    components still to look up; a symbolic link is replaced by the
    components of its target, at most [links] times.  The last component is
    followed when it is a link only if [follow] is set. *)
Fixpoint walk (links : nat) (m : gmap (list string) node) (follow : bool)
    : list string -> list string -> walked :=
  fix go (cur : list string) (comps : list string) {struct comps} : walked :=
    match comps with
    | [] =>
        match m !! cur with
        | Some n => Found cur n
        | None => Fail ENOENT
        end
    | c :: rest =>
        match m !! cur with
        | None => Fail ENOENT
        | Some (Dir mode uid) =>
            if negb (permitted mode uid 1) then Fail EACCES
            else if String.eqb c EmptyString || String.eqb c "." then go cur rest
            else if String.eqb c ".." then go (removelast cur) rest
            else
              let q := (cur ++ [c])%list in
              match m !! q with
              | None =>
                  match rest with
                  | [] => Absent q (Dir mode uid)
                  | _ => Fail ENOENT
                  end
              | Some (Lnk t) =>
                  if match rest with [] => negb follow | _ => false end
                  then Found q (Lnk t)
                  else if String.eqb t EmptyString then Fail ENOENT
                  else
                    match links with
                    | O => Fail ELOOP
                    | S links' =>
                        walk links' m follow (if rooted t then [] else cur)
                          (splitc "/" t ++ rest)%list
                    end
              | Some _ => go q rest
              end
        | Some _ => Fail ENOTDIR
        end
    end.

Definition resolve (m : gmap (list string) node) (follow : bool) (path : string) : walked :=
  if String.eqb path EmptyString then Fail ENOENT
  else walk MAXSYMLINKS m follow (if rooted path then [] else cwd P) (splitc "/" path).

(** The outcome of a call that changes the file system: the new state, and
    the error when the call failed. *)
Inductive outcome :=
  | Done (m : gmap (list string) node)
  | Failed (m : gmap (list string) node) (e : errno).

Definition state_of (o : outcome) : gmap (list string) node :=
  match o with Done m | Failed m _ => m end.

(** [stat(2)] and [lstat(2)]: the node, with its canonical path. *)
Definition stat (m : gmap (list string) node) (path : string) : errno + list string * node :=
  match resolve m true path with
  | Found q n => inr (q, n)
  | Absent _ _ => inl ENOENT
  | Fail e => inl e
  end.

Definition lstat (m : gmap (list string) node) (path : string) : errno + list string * node :=
  match resolve m false path with
  | Found q n => inr (q, n)
  | Absent _ _ => inl ENOENT
  | Fail e => inl e
  end.

Definition with_mode (n : node) (mode : Z) : node :=
  match n with
  | Dir _ uid => Dir mode uid
  | Reg _ uid data => Reg mode uid data
  | Lnk t => Lnk t
  end.

(** [chmod(2)]. *)
Definition chmod (m : gmap (list string) node) (path : string) (mode : Z) : outcome :=
  match resolve m true path with
  | Found q n =>
      if owns n then Done (<[q := with_mode n (Z.land mode (octal "7777"))]> m)
      else Failed m EPERM
  | Absent _ _ => Failed m ENOENT
  | Fail e => Failed m e
  end.

(** The node a call creates at a missing last component. *)
Definition create (m : gmap (list string) node) (path : string) (n : node) : outcome :=
  match resolve m false path with
  | Found _ _ => Failed m EEXIST
  | Absent q parent =>
      if may 2 parent then Done (<[q := n]> m) else Failed m EACCES
  | Fail e => Failed m e
  end.

(** [mkdir(2)] and [symlink(2)]. *)
Definition mkdir (m : gmap (list string) node) (path : string) (perm : Z) : outcome :=
  create m path (Dir (Z.ldiff (Z.land perm (octal "7777")) (umask P)) (euid P)).

Definition symlink (m : gmap (list string) node) (target path : string) : outcome :=
  create m path (Lnk target).

(** [open(2)] for writing, with or without reading: the new state and the
    file that is open, named by its canonical path. *)
Definition open_write (m : gmap (list string) node) (path : string)
    (o_creat o_trunc o_rdwr : bool) (perm : Z)
    : errno + gmap (list string) node * list string :=
  match resolve m true path with
  | Found q (Reg mode uid data) =>
      if permitted mode uid 2 && (negb o_rdwr || permitted mode uid 4) then
        inr (if o_trunc then <[q := Reg mode uid EmptyString]> m else m, q)
      else inl EACCES
  | Found _ (Dir _ _) => inl EISDIR
  | Found _ (Lnk _) => inl ELOOP
  | Absent q parent =>
      if o_creat then
        if may 2 parent then
          inr (<[q := Reg (Z.ldiff (Z.land perm (octal "7777")) (umask P)) (euid P) EmptyString]> m, q)
        else inl EACCES
      else inl ENOENT
  | Fail e => inl e
  end.

(** [write(2)] of [data] on a file just opened, at its start: the bytes
    replace the first ones of the file and the rest of the file stays. *)
Definition write_start (m : gmap (list string) node) (fd : list string) (data : string)
    : gmap (list string) node :=
  match m !! fd with
  | Some (Reg mode uid old) =>
      <[fd := Reg mode uid
                (data +:+ string_of_list_ascii
                            (drop (String.length data) (list_ascii_of_string old)))]> m
  | _ => m
  end.

(** The bytes of the regular file a path names. *)
Definition read_file (m : gmap (list string) node) (path : string) : option string :=
  match stat m path with
  | inr (_, Reg _ _ data) => Some data
  | _ => None
  end.

End Kernel.

End FS.

(** ** The fixed texts of the scaffold *)

Module ScaffoldText.
Import GoStr.

Definition execFileContent : string :=
  "#!/bin/sh

for script in /.apptainer.d/env/*.sh; do
    if [ -f " +:+ dq +:+ "$script" +:+ dq +:+ " ]; then
        . " +:+ dq +:+ "$script" +:+ dq +:+ "
    fi
done

exec " +:+ dq +:+ "$@" +:+ dq +:+ "
".

Definition runFileContent : string :=
  "#!/bin/sh

for script in /.apptainer.d/env/*.sh; do
    if [ -f " +:+ dq +:+ "$script" +:+ dq +:+ " ]; then
        . " +:+ dq +:+ "$script" +:+ dq +:+ "
    fi
done

if test -n " +:+ dq +:+ "${APPTAINER_APPNAME:-}" +:+ dq +:+ "; then

    if test -x " +:+ dq +:+ "/scif/apps/${APPTAINER_APPNAME:-}/scif/runscript" +:+ dq +:+ "; then
        exec " +:+ dq +:+ "/scif/apps/${APPTAINER_APPNAME:-}/scif/runscript" +:+ dq +:+ " " +:+ dq +:+ "$@" +:+ dq +:+ "
    else
        echo " +:+ dq +:+ "No Apptainer runscript for contained app: ${APPTAINER_APPNAME:-}" +:+ dq +:+ "
        exit 1
    fi

elif test -x " +:+ dq +:+ "/.apptainer.d/runscript" +:+ dq +:+ "; then
    exec " +:+ dq +:+ "/.apptainer.d/runscript" +:+ dq +:+ " " +:+ dq +:+ "$@" +:+ dq +:+ "
else
    echo " +:+ dq +:+ "No Apptainer runscript found, executing /bin/sh" +:+ dq +:+ "
    exec /bin/sh " +:+ dq +:+ "$@" +:+ dq +:+ "
fi
".

Definition shellFileContent : string :=
  "#!/bin/sh

for script in /.apptainer.d/env/*.sh; do
    if [ -f " +:+ dq +:+ "$script" +:+ dq +:+ " ]; then
        . " +:+ dq +:+ "$script" +:+ dq +:+ "
    fi
done

if test -n " +:+ dq +:+ "$APPTAINER_SHELL" +:+ dq +:+ " -a -x " +:+ dq +:+ "$APPTAINER_SHELL" +:+ dq +:+ "; then
    exec $APPTAINER_SHELL " +:+ dq +:+ "$@" +:+ dq +:+ "

    echo " +:+ dq +:+ "ERROR: Failed running shell as defined by '\$APPTAINER_SHELL'" +:+ dq +:+ " 1>&2
    exit 1

elif test -x /bin/bash; then
    SHELL=/bin/bash
    PS1=" +:+ dq +:+ "Apptainer $APPTAINER_NAME:\\w> " +:+ dq +:+ "
    export SHELL PS1
    exec /bin/bash --norc " +:+ dq +:+ "$@" +:+ dq +:+ "
elif test -x /bin/sh; then
    SHELL=/bin/sh
    export SHELL
    exec /bin/sh " +:+ dq +:+ "$@" +:+ dq +:+ "
else
    echo " +:+ dq +:+ "ERROR: /bin/sh does not exist in container" +:+ dq +:+ " 1>&2
fi
exit 1
".

Definition startFileContent : string :=
  "#!/bin/sh

# if we are here start notify PID 1 to continue
# DON'T REMOVE
kill -CONT 1

for script in /.apptainer.d/env/*.sh; do
    if [ -f " +:+ dq +:+ "$script" +:+ dq +:+ " ]; then
        . " +:+ dq +:+ "$script" +:+ dq +:+ "
    fi
done

if test -x " +:+ dq +:+ "/.apptainer.d/startscript" +:+ dq +:+ "; then
    exec " +:+ dq +:+ "/.apptainer.d/startscript" +:+ dq +:+ "
fi
".

Definition testFileContent : string :=
  "#!/bin/sh

for script in /.apptainer.d/env/*.sh; do
    if [ -f " +:+ dq +:+ "$script" +:+ dq +:+ " ]; then
        . " +:+ dq +:+ "$script" +:+ dq +:+ "
    fi
done


if test -n " +:+ dq +:+ "${APPTAINER_APPNAME:-}" +:+ dq +:+ "; then

    if test -x " +:+ dq +:+ "/scif/apps/${APPTAINER_APPNAME:-}/scif/test" +:+ dq +:+ "; then
        exec " +:+ dq +:+ "/scif/apps/${APPTAINER_APPNAME:-}/scif/test" +:+ dq +:+ " " +:+ dq +:+ "$@" +:+ dq +:+ "
    else
        echo " +:+ dq +:+ "No tests for contained app: ${APPTAINER_APPNAME:-}" +:+ dq +:+ "
        exit 1
    fi
elif test -x " +:+ dq +:+ "/.apptainer.d/test" +:+ dq +:+ "; then
    exec " +:+ dq +:+ "/.apptainer.d/test" +:+ dq +:+ " " +:+ dq +:+ "$@" +:+ dq +:+ "
else
    echo " +:+ dq +:+ "No test found in container, executing /bin/sh -c true" +:+ dq +:+ "
    exec /bin/sh -c true
fi
".

Definition baseShFileContent : string :=
  "#!/bin/sh
# 
# Copyright (c) 2017, ApptainerWare, LLC. All rights reserved.
# Copyright (c) 2015-2017, Gregory M. Kurtzer. All rights reserved.
# 
# Copyright (c) 2016-2017, The Regents of the University of California,
# through Lawrence Berkeley National Laboratory (subject to receipt of any
# required approvals from the U.S. Dept. of Energy).  All rights reserved.
# 
# This software is licensed under a customized 3-clause BSD license.  Please
# consult LICENSE.md file distributed with the sources of this project regarding
# your rights to use or distribute this software.
# 
# NOTICE.  This Software was developed under funding from the U.S. Department of
# Energy and the U.S. Government consequently retains certain rights. As such,
# the U.S. Government has been granted for itself and others acting on its
# behalf a paid-up, nonexclusive, irrevocable, worldwide license in the Software
# to reproduce, distribute copies to the public, prepare derivative works, and
# perform publicly and display publicly, and to permit other to do so.
# 
# 


".

Definition environmentShFileContent : string :=
  "#!/bin/sh
# Custom environment shell code should follow

".

Definition appsShFileContent : string :=
  "#!/bin/sh
#
# Copyright (c) 2017, ApptainerWare, LLC. All rights reserved.
#
# See the COPYRIGHT.md file at the top-level directory of this distribution and at
# https://github.com/apptainer/apptainer/blob/master/COPYRIGHT.md.
#
# This file is part of the Apptainer Linux container project. It is subject to the license
# terms in the LICENSE.md file found in the top-level directory of this distribution and
# at https://github.com/apptainer/apptainer/blob/master/LICENSE.md. No part
# of Apptainer, including this file, may be copied, modified, propagated, or distributed
# except according to the terms contained in the LICENSE.md file.


if test -n " +:+ dq +:+ "${APPTAINER_APPNAME:-}" +:+ dq +:+ "; then

    # The active app should be exported
    export APPTAINER_APPNAME

    if test -d " +:+ dq +:+ "/scif/apps/${APPTAINER_APPNAME:-}/" +:+ dq +:+ "; then
        SCIF_APPS=" +:+ dq +:+ "/scif/apps" +:+ dq +:+ "
        SCIF_APPROOT=" +:+ dq +:+ "/scif/apps/${APPTAINER_APPNAME:-}" +:+ dq +:+ "
        export SCIF_APPROOT SCIF_APPS
        PATH=" +:+ dq +:+ "/scif/apps/${APPTAINER_APPNAME:-}:$PATH" +:+ dq +:+ "

        # Automatically add application bin to path
        if test -d " +:+ dq +:+ "/scif/apps/${APPTAINER_APPNAME:-}/bin" +:+ dq +:+ "; then
            PATH=" +:+ dq +:+ "/scif/apps/${APPTAINER_APPNAME:-}/bin:$PATH" +:+ dq +:+ "
        fi

        # Automatically add application lib to LD_LIBRARY_PATH
        if test -d " +:+ dq +:+ "/scif/apps/${APPTAINER_APPNAME:-}/lib" +:+ dq +:+ "; then
            LD_LIBRARY_PATH=" +:+ dq +:+ "/scif/apps/${APPTAINER_APPNAME:-}/lib:$LD_LIBRARY_PATH" +:+ dq +:+ "
            export LD_LIBRARY_PATH
        fi

        # Automatically source environment
        if [ -f " +:+ dq +:+ "/scif/apps/${APPTAINER_APPNAME:-}/scif/env/01-base.sh" +:+ dq +:+ " ]; then
            . " +:+ dq +:+ "/scif/apps/${APPTAINER_APPNAME:-}/scif/env/01-base.sh" +:+ dq +:+ "
        fi
        if [ -f " +:+ dq +:+ "/scif/apps/${APPTAINER_APPNAME:-}/scif/env/90-environment.sh" +:+ dq +:+ " ]; then
            . " +:+ dq +:+ "/scif/apps/${APPTAINER_APPNAME:-}/scif/env/90-environment.sh" +:+ dq +:+ "
        fi

        export PATH
    else
        echo " +:+ dq +:+ "Could not locate the container application: ${APPTAINER_APPNAME}" +:+ dq +:+ "
        exit 1
    fi
fi

".

Definition base99ShFileContent : string :=
  "#!/bin/sh
# 
# Copyright (c) 2017, ApptainerWare, LLC. All rights reserved.
# Copyright (c) 2015-2017, Gregory M. Kurtzer. All rights reserved.
# 
# Copyright (c) 2016-2017, The Regents of the University of California,
# through Lawrence Berkeley National Laboratory (subject to receipt of any
# required approvals from the U.S. Dept. of Energy).  All rights reserved.
# 
# This software is licensed under a customized 3-clause BSD license.  Please
# consult LICENSE.md file distributed with the sources of this project regarding
# your rights to use or distribute this software.
# 
# NOTICE.  This Software was developed under funding from the U.S. Department of
# Energy and the U.S. Government consequently retains certain rights. As such,
# the U.S. Government has been granted for itself and others acting on its
# behalf a paid-up, nonexclusive, irrevocable, worldwide license in the Software
# to reproduce, distribute copies to the public, prepare derivative works, and
# perform publicly and display publicly, and to permit other to do so.
# 
# 


if [ -z " +:+ dq +:+ "$LD_LIBRARY_PATH" +:+ dq +:+ " ]; then
    LD_LIBRARY_PATH=" +:+ dq +:+ "/.apptainer.d/libs" +:+ dq +:+ "
else
    LD_LIBRARY_PATH=" +:+ dq +:+ "$LD_LIBRARY_PATH:/.apptainer.d/libs" +:+ dq +:+ "
fi

PS1=" +:+ dq +:+ "Apptainer> " +:+ dq +:+ "
export LD_LIBRARY_PATH PS1
".

Definition base99runtimevarsShFileContent : string :=
  "#!/bin/sh
# Copyright (c) 2017-2019, Sylabs, Inc. All rights reserved.
#
# This software is licensed under a customized 3-clause BSD license.  Please
# consult LICENSE.md file distributed with the sources of this project regarding
# your rights to use or distribute this software.
#
#

if [ -n " +:+ dq +:+ "${SING_USER_DEFINED_PREPEND_PATH:-}" +:+ dq +:+ " ]; then
	PATH=" +:+ dq +:+ "${SING_USER_DEFINED_PREPEND_PATH}:${PATH}" +:+ dq +:+ "
fi

if [ -n " +:+ dq +:+ "${SING_USER_DEFINED_APPEND_PATH:-}" +:+ dq +:+ " ]; then
	PATH=" +:+ dq +:+ "${PATH}:${SING_USER_DEFINED_APPEND_PATH}" +:+ dq +:+ "
fi

if [ -n " +:+ dq +:+ "${SING_USER_DEFINED_PATH:-}" +:+ dq +:+ " ]; then
	PATH=" +:+ dq +:+ "${SING_USER_DEFINED_PATH}" +:+ dq +:+ "
fi

unset SING_USER_DEFINED_PREPEND_PATH \
	  SING_USER_DEFINED_APPEND_PATH \
	  SING_USER_DEFINED_PATH

export PATH
".

Definition runscriptFileContent : string :=
  "#!/bin/sh

echo " +:+ dq +:+ "There is no runscript defined for this container\n" +:+ dq +:+ ";
".

Definition startscriptFileContent : string :=
  "#!/bin/sh
".

End ScaffoldText.

(** ** The Go [os] functions used by the sources *)

Module Os.
Import GoStr Path FS.

(** What a function of the sources returns besides the state of the file
    system: success, or an error with the message that wraps it. *)
Inductive result :=
  | Ok (m : gmap (list string) node)
  | Error (m : gmap (list string) node) (msg : string) (e : errno).

Definition final (r : result) : gmap (list string) node :=
  match r with Ok m | Error m _ _ => m end.

Definition succeeded (r : result) : bool :=
  match r with Ok _ => true | Error _ _ _ => false end.

(** [os.syscallMode]: the mode that [os.OpenFile] hands to [open(2)] for an
    [os.FileMode]: the nine permission bits, and the set-user-ID,
    set-group-ID and sticky bits for [ModeSetuid] (bit 23), [ModeSetgid]
    (bit 22) and [ModeSticky] (bit 20). *)
Definition syscallMode (i : Z) : Z :=
  Z.lor (Z.land i (octal "777"))
    (Z.lor (if Z.testbit i 23 then octal "4000" else 0)
       (Z.lor (if Z.testbit i 22 then octal "2000" else 0)
          (if Z.testbit i 20 then octal "1000" else 0))).

Section WithProc.
Variable P : proc.

(** Modelled from the spec: [fs.IsFile] is not among the sources; it tells
    whether the target file already exists (a regular file, links followed). *)
Definition IsFile (m : gmap (list string) node) (name : string) : bool :=
  match stat P m name with
  | inr (_, n) => is_regular n
  | inl _ => false
  end.

(** [os.MkdirAll]: nothing to do for a directory that exists; otherwise the
    parent first, then [Mkdir], whose error is ignored when the path is a
    directory after all.  [n] bounds the recursion on the parents. *)
Fixpoint MkdirAllN (n : nat) (path : string) (perm : Z)
    (m : gmap (list string) node) : outcome :=
  match stat P m path with
  | inr (_, dir) => if is_dir dir then Done m else Failed m ENOTDIR
  | inl _ =>
      match n with
      | O => Failed m ELOOP
      | S n' =>
          let up :=
            match parent_of path with
            | Some parent => MkdirAllN n' parent perm m
            | None => Done m
            end in
          match up with
          | Failed m1 e => Failed m1 e
          | Done m1 =>
              match mkdir P m1 path perm with
              | Done m2 => Done m2
              | Failed m2 e =>
                  match lstat P m2 path with
                  | inr (_, dir) => if is_dir dir then Done m2 else Failed m2 e
                  | inl _ => Failed m2 e
                  end
              end
          end
      end
  end.

(** A path has fewer parents than characters. *)
Definition MkdirAll (path : string) (perm : Z) (m : gmap (list string) node) : outcome :=
  MkdirAllN (S (String.length path)) path perm m.

End WithProc.

End Os.

(** ** The base environment of a bundle: [makeBaseEnv] *)

Module Scaffold.
Import GoStr Path FS Os ScaffoldText.

Section WithProc.
Variable P : proc.

(** Run [f] on the elements of a list, in order, up to the first error. *)
Fixpoint each {A} (f : A -> gmap (list string) node -> outcome) (l : list A)
    (m : gmap (list string) node) : outcome :=
  match l with
  | [] => Done m
  | a :: r =>
      match f a m with
      | Done m' => each f r m'
      | Failed m' e => Failed m' e
      end
  end.

(** The directories of [makeDirs], as the elements joined to [rootPath]. *)
Definition scaffold_dirs : list (list string) :=
  [ [".apptainer.d"; "libs"]; [".apptainer.d"; "actions"]; [".apptainer.d"; "env"];
    ["dev"]; ["proc"]; ["root"]; ["var"; "tmp"]; ["tmp"]; ["etc"]; ["sys"]; ["home"] ].

Definition makeDirs (rootPath : string) (m : gmap (list string) node) : outcome :=
  each (fun elems m => MkdirAll P (Join (rootPath :: elems)) (octal "755") m)
    scaffold_dirs m.

(** The links of [makeSymlinks]: the target and the name under [rootPath]. *)
Definition scaffold_links : list (string * string) :=
  [ (".apptainer.d/runscript", "apptainer");
    (".apptainer.d/actions/run", ".run");
    (".apptainer.d/actions/exec", ".exec");
    (".apptainer.d/actions/test", ".test");
    (".apptainer.d/actions/shell", ".shell");
    (".apptainer.d/env/90-environment.sh", "environment") ].

(** One link: created when [os.Stat] of its path fails. *)
Definition makeSymlink (rootPath : string) (l : string * string)
    (m : gmap (list string) node) : outcome :=
  match stat P m (Join [rootPath; snd l]) with
  | inl _ => symlink P m (fst l) (Join [rootPath; snd l])
  | inr _ => Done m
  end.

Definition makeSymlinks (rootPath : string) (m : gmap (list string) node) : outcome :=
  each (makeSymlink rootPath) scaffold_links m.

(** [makeFile]: the mode of a file that exists is set first; then the file
    is created or truncated, and [s] is written. *)
Definition makeFile (name : string) (perm : Z) (s : string)
    (m : gmap (list string) node) : outcome :=
  let fixed := if IsFile P m name then chmod P m name perm else Done m in
  match fixed with
  | Failed m1 e => Failed m1 e
  | Done m1 =>
      match open_write P m1 name true true false perm with
      | inl e => Failed m1 e
      | inr (m2, f) => Done (write_start m2 f s)
      end
  end.

(** The files of [makeFiles]: elements joined to [rootPath], mode, text. *)
Definition scaffold_files : list (list string * Z * string) :=
  [ (["etc"; "hosts"], octal "644", EmptyString);
    (["etc"; "resolv.conf"], octal "644", EmptyString);
    ([".apptainer.d"; "actions"; "exec"], octal "755", execFileContent);
    ([".apptainer.d"; "actions"; "run"], octal "755", runFileContent);
    ([".apptainer.d"; "actions"; "shell"], octal "755", shellFileContent);
    ([".apptainer.d"; "actions"; "start"], octal "755", startFileContent);
    ([".apptainer.d"; "actions"; "test"], octal "755", testFileContent);
    ([".apptainer.d"; "env"; "01-base.sh"], octal "755", baseShFileContent);
    ([".apptainer.d"; "env"; "90-environment.sh"], octal "755", environmentShFileContent);
    ([".apptainer.d"; "env"; "95-apps.sh"], octal "755", appsShFileContent);
    ([".apptainer.d"; "env"; "99-base.sh"], octal "755", base99ShFileContent);
    ([".apptainer.d"; "env"; "99-runtimevars.sh"], octal "755", base99runtimevarsShFileContent);
    ([".apptainer.d"; "runscript"], octal "755", runscriptFileContent);
    ([".apptainer.d"; "startscript"], octal "755", startscriptFileContent) ].

Definition makeFiles (rootPath : string) (m : gmap (list string) node) : outcome :=
  each (fun f m => makeFile (Join (rootPath :: fst (fst f))) (snd (fst f)) (snd f) m)
    scaffold_files m.

(** The step of [makeBaseEnv] that makes [rootPath] writable by its owner. *)
Definition ensure_writable (rootPath : string) (info : node)
    (m : gmap (list string) node) : outcome :=
  if Z.land (perm_of info) (octal "200") =? 0 then
    chmod P m rootPath (Z.lor (perm_of info) (octal "200"))
  else Done m.

Definition makeBaseEnv (rootPath : string) (m : gmap (list string) node) : result :=
  match stat P m rootPath with
  | inl e => Error m "build: failed to stat rootPath" e
  | inr (_, info) =>
      match ensure_writable rootPath info m with
      | Failed m1 e => Error m1 "build: failed to make rootPath writable" e
      | Done m1 =>
          match makeDirs rootPath m1 with
          | Failed m2 e => Error m2 "build: failed to make environment dirs" e
          | Done m2 =>
              match makeSymlinks rootPath m2 with
              | Failed m3 e => Error m3 "build: failed to make environment symlinks" e
              | Done m3 =>
                  match makeFiles rootPath m3 with
                  | Failed m4 e => Error m4 "build: failed to make environment files" e
                  | Done m4 => Ok m4
                  end
              end
          end
      end
  end.

End WithProc.

End Scaffold.

(** ** The archive extractor: [extractArchive] *)

Module Extract.
Import GoStr Path FS Os.

(** [tar.TypeReg] and [tar.TypeDir]. *)
Definition TypeReg : Z := 48.
Definition TypeDir : Z := 53.

(** The fields of [tar.Header] that the extractor reads. *)
Record Header := {
  Name : string;
  Typeflag : Z;
  Mode : Z
}.

(** What one call of [tr.Next] yields before the end of the archive: a nil
    header, or a header and, behind it, the bytes of the entry. *)
Inductive item :=
  | NilHeader
  | Entry (header : Header) (data : string).

Inductive failure :=
  | OpenFailed (e : errno)
  | PeekFailed
  | GzipFailed
  | TarFailed
  | IllegalExtractionPath (target : string)
  | SysFailed (e : errno).

(** The state of the file system after the extraction, and the error it
    returned, if any. *)
Inductive extraction :=
  | Extracted (m : gmap (list string) node)
  | Aborted (m : gmap (list string) node) (err : failure).

Definition fs_after (x : extraction) : gmap (list string) node :=
  match x with Extracted m | Aborted m _ => m end.

Section WithProc.
Variable P : proc.

(** [os.Open]: the bytes of a regular file that the caller may read. *)
Definition open_read (m : gmap (list string) node) (path : string) : errno + string :=
  match resolve P m true path with
  | Found _ (Reg mode uid data) =>
      if permitted P mode uid 4 then inr data else inl EACCES
  | Found _ (Dir _ _) => inl EISDIR
  | Found _ (Lnk _) => inl ELOOP
  | Absent _ _ => inl ENOENT
  | Fail e => inl e
  end.

(** The zip-slip test: the target must start with the cleaned destination
    and a separator. *)
Definition legal_target (dst target : string) : bool :=
  HasPrefix target (Clean dst +:+ "/").

(** The loop over the entries.  [at_eof] tells whether the reader ends with
    [io.EOF] after the last entry, or with another error. *)
Fixpoint extractEntries (dst : string) (items : list item) (at_eof : bool)
    (m : gmap (list string) node) : extraction :=
  match items with
  | [] => if at_eof then Extracted m else Aborted m TarFailed
  | NilHeader :: rest => extractEntries dst rest at_eof m
  | Entry header data :: rest =>
      let target := Join [dst; Name header] in
      if negb (legal_target dst target) then Aborted m (IllegalExtractionPath target)
      else if Typeflag header =? TypeDir then
        match stat P m target with
        | inl _ =>
            match MkdirAll P target (octal "755") m with
            | Failed m' e => Aborted m' (SysFailed e)
            | Done m' => extractEntries dst rest at_eof m'
            end
        | inr _ => extractEntries dst rest at_eof m
        end
      else if Typeflag header =? TypeReg then
        match open_write P m target true false true (syscallMode (Mode header)) with
        | inl e => Aborted m (SysFailed e)
        | inr (m', f) => extractEntries dst rest at_eof (write_start m' f data)
        end
      else extractEntries dst rest at_eof m
  end.

(** The codecs of the Go library are parameters: what the tar reader yields
    from a byte stream, and what [gzip.NewReader] does with the bytes it is
    given: an error, or the bytes of the file it leaves unread. *)
Variable tarDecode : string -> list item * bool.
Variable gzipNewReader : string -> option string.

(** The size of the buffer of [bufio.NewReader]. *)
Definition bufio_size : nat := 4096.

(** [http.DetectContentType] names gzip for the data that start with the
    bytes 1F 8B 08, and for no other. *)
Definition gzip_signature : string := String (chr 31) (String (chr 139) (str1 (chr 8))).

Definition sniffed_gzip (header : string) : bool := HasPrefix header gzip_signature.

(** The start of [extractArchive], up to [tar.NewReader]: what the tar
    reader will yield.  The buffered reader [r] has read the first
    [bufio_size] bytes of the file when [Peek] returns.  In the gzip branch
    the new reader is bound to a variable of the inner block only, and it
    reads from the file, behind the buffer: the tar reader is built on the
    buffered reader in both branches. *)
Definition open_archive (src : string) (m : gmap (list string) node)
    : failure + list item * bool :=
  match open_read m src with
  | inl e => inl (OpenFailed e)
  | inr bytes =>
      if (String.length bytes <? 10)%nat then inl PeekFailed
      else
        let header := substring 0 10 bytes in
        let gzipped := sniffed_gzip header in
        let buffered := substring 0 bufio_size bytes in
        let behind := substring bufio_size (String.length bytes - bufio_size) bytes in
        let unread := if gzipped then gzipNewReader behind else Some behind in
        match unread with
        | None => inl GzipFailed
        | Some behind' => inr (tarDecode (buffered +:+ behind'))
        end
  end.

(** [extractArchive]: the start, then the loop over the entries. *)
Definition extractArchive (src dst : string) (m : gmap (list string) node) : extraction :=
  match open_archive src m with
  | inl err => Aborted m err
  | inr (items, at_eof) => extractEntries dst items at_eof m
  end.

End WithProc.

End Extract.

(** ** Predicates used in the statements *)

Module Pred.
Import GoStr Shell.

(** A byte is absent from a string. *)
Fixpoint lacks (sep : ascii) (s : string) : bool :=
  match s with
  | EmptyString => true
  | String c r => negb (Ascii.eqb c sep) && lacks sep r
  end.

(** Printable ASCII other than the double quote and the backslash. *)
Definition printable (c : ascii) : bool :=
  let b := code c in between 0x20 0x7E b && negb (b =? 34) && negb (b =? 92).

(** A value that needs no escaping and no quoting: printable ASCII without
    backslash, double quote, backquote, dollar. *)
Definition plain (s : string) : bool :=
  forallb (fun c => printable c && negb (special c)) (list_ascii_of_string s).

(** The line the specification gives for an entry of [Env]: the fallback
    form holds the bare value. *)
Definition specExportLine (element : string) : string :=
  match SplitN2 "=" element with
  | (k, None) =>
      "export " +:+ k +:+ "=" +:+ dq +:+ "${" +:+ k +:+ ":-}" +:+ dq +:+ nl
  | (k, Some v) =>
      if String.eqb k "PATH" then
        "export " +:+ k +:+ "=" +:+ dq +:+ v +:+ dq +:+ nl
      else
        "export " +:+ k +:+ "=" +:+ dq +:+ "${" +:+ k +:+ ":-" +:+ v
          +:+ "}" +:+ dq +:+ nl
  end.

End Pred.

Module RuntimeVarsPred.
Import Sh RuntimeVarsScript.

(** The three variables of the protocol. *)
Definition protocol_vars : list string := [PREPEND; APPEND; OVERRIDE].

(** A state in which the prepend variable alone is set, to [/z], and [PATH]
    is [/bin]. *)
Definition prepend_only : state :=
  {| vars := {[ PREPEND := "/z"; "PATH" := "/bin" ]}; exported := {[ "PATH" ]}; readonly := ∅ |}.

(** A state in which the override variable is set to the empty string. *)
Definition override_empty : state :=
  {| vars := {[ OVERRIDE := EmptyString ]}; exported := ∅; readonly := ∅ |}.

End RuntimeVarsPred.

Module ActionScriptPred.
Import Sh ActionScript.











End ActionScriptPred.

Module RunScriptPred.
Import GoStr Shell ShWords Pred.

(** No NUL byte: the text can be held by a shell variable and be an
    argument of a command. *)
Definition nonul (s : string) : bool := lacks (chr 0) s.

(** A positional parameter that is inert between double quotes: no NUL and
    none of backslash, double quote, backquote, dollar. *)
Definition inert (s : string) : bool :=
  nonul s && forallb (fun c => negb (special c)) (list_ascii_of_string s).

(** The command the OCI run precedence asks for. *)
Definition oci_command (cfg : ImageConfig) (args : list string) : list string :=
  (Entrypoint cfg ++ match args with [] => Cmd cfg | _ => args end)%list.

(** The command is a plain one: its first word is not read by [set] as an
    option. *)
Definition plain_command (l : list string) : bool :=
  match l with
  | [] => true
  | w :: _ => negb (is_option w)
  end.

(** The text of [CMDLINE_ARGS] after the loop over the positional
    parameters. *)
Fixpoint pieces (args : list string) : string :=
  match args with
  | [] => EmptyString
  | a :: r => (" " +:+ dq +:+ a +:+ dq) +:+ pieces r
  end.

Definition echo_hi : ImageConfig :=
  {| Entrypoint := ["/bin/echo"; "hi"]; Cmd := []; Env := [] |}.

Definition true_cmd : ImageConfig :=
  {| Entrypoint := []; Cmd := ["/bin/true"]; Env := [] |}.

(** One positional parameter that holds a, a double quote, a blank, a
    double quote and b. *)
Definition split_arg : string := "a" +:+ dq +:+ " " +:+ dq +:+ "b".

End RunScriptPred.

Module FSPred.
Import GoStr Path FS.

(** [m'] holds every node of [m]: directories and links as they are, a
    regular file as a regular file of the same owner (its mode and bytes may
    differ); [m'] may hold more nodes. *)
Definition keeps (n n' : node) : Prop :=
  match n with
  | Reg _ uid _ => exists mode' data', n' = Reg mode' uid data'
  | _ => n' = n
  end.

Definition extends (m m' : gmap (list string) node) : Prop :=
  forall q n, m !! q = Some n -> exists n', m' !! q = Some n' /\ keeps n n'.

(** Two nodes that a path walk cannot tell apart: directories of the same
    owner that the caller may search alike, regular files of the same owner,
    links to the same target. *)
Definition alike (P : proc) (n n' : node) : Prop :=
  match n, n' with
  | Dir mode uid, Dir mode' uid' =>
      uid' = uid /\ permitted P mode' uid' 1 = permitted P mode uid 1
  | Reg _ uid _, Reg _ uid' _ => uid' = uid
  | Lnk t, Lnk t' => t' = t
  | _, _ => False
  end.

(** Two file systems with the same paths and nodes alike. *)
Definition similar (P : proc) (m m' : gmap (list string) node) : Prop :=
  forall q,
    match m !! q, m' !! q with
    | Some n, Some n' => alike P n n'
    | None, None => True
    | _, _ => False
    end.

(** Two walks that end alike. *)
Definition same_end (P : proc) (w w' : walked) : Prop :=
  match w, w' with
  | Found q n, Found q' n' => q' = q /\ alike P n n'
  | Absent q parent, Absent q' parent' => q' = q /\ alike P parent parent'
  | Fail e, Fail e' => e' = e
  | _, _ => False
  end.

End FSPred.

Module ScaffoldPred.
Import GoStr Path FS Os Scaffold.

(** A path occupied by a symbolic link whose target cannot be reached. *)
Definition dangling (P : proc) (m : gmap (list string) node) (path : string) : Prop :=
  (exists q t, lstat P m path = inr (q, Lnk t)) /\ (exists e, stat P m path = inl e).

(** The state in which [makeSymlinks] examines the link that comes after
    the links [before]: [rootPath] has been made writable, the directories
    and the links [before] have been made, all without an error. *)
Definition state_before_link (P : proc) (rootPath : string)
    (m : gmap (list string) node) (before : list (string * string))
    : option (gmap (list string) node) :=
  match stat P m rootPath with
  | inl _ => None
  | inr (_, info) =>
      match ensure_writable P rootPath info m with
      | Failed _ _ => None
      | Done m1 =>
          match makeDirs P rootPath m1 with
          | Failed _ _ => None
          | Done m2 =>
              match each (makeSymlink P rootPath) before m2 with
              | Failed _ _ => None
              | Done m3 => Some m3
              end
          end
      end
  end.

(** [dangling], decided. *)
Definition danglingb (P : proc) (m : gmap (list string) node) (path : string) : bool :=
  match lstat P m path, stat P m path with
  | inr (_, Lnk _), inl _ => true
  | _, _ => false
  end.

(** The link [l] dangles at the moment [makeSymlinks] examines it. *)
Definition dangles_when_examined (P : proc) (rootPath : string)
    (m : gmap (list string) node) (before : list (string * string))
    (l : string * string) : bool :=
  match state_before_link P rootPath m before with
  | Some m' => danglingb P m' (Join [rootPath; snd l])
  | None => false
  end.

(** A file to make: its path, its mode and its text. *)
Definition file_tasks (rootPath : string) : list (string * Z * string) :=
  map (fun f => (Join (rootPath :: fst (fst f)), snd (fst f), snd f)) scaffold_files.

Definition make (P : proc) (t : string * Z * string)
    (m : gmap (list string) node) : outcome :=
  makeFile P (fst (fst t)) (snd (fst t)) (snd t) m.

(** The bytes of the regular file at a canonical path. *)
Definition data_at (m : gmap (list string) node) (q : list string) : option string :=
  match m !! q with
  | Some (Reg _ _ data) => Some data
  | _ => None
  end.

(** The text of the last of the files to make whose path names the node at
    [q]. *)
Fixpoint last_text (P : proc) (m : gmap (list string) node)
    (tasks : list (string * Z * string)) (q : list string) : option string :=
  match tasks with
  | [] => None
  | t :: r =>
      match last_text P m r q with
      | Some c => Some c
      | None =>
          match stat P m (fst (fst t)) with
          | inr (q', _) => if decide (q' = q) then Some (snd t) else None
          | inl _ => None
          end
      end
  end.

(** The permission bits of the regular file at a canonical path, and of the
    regular file a path names. *)
Definition mode_at (m : gmap (list string) node) (q : list string) : option Z :=
  match m !! q with
  | Some (Reg mode _ _) => Some mode
  | _ => None
  end.

Definition file_mode (P : proc) (m : gmap (list string) node) (path : string) : option Z :=
  match stat P m path with
  | inr (_, Reg mode _ _) => Some mode
  | _ => None
  end.

(** The mode asked for the last of the files to make whose path names the
    node at [q], and for the node that [path] names. *)
Fixpoint last_perm (P : proc) (m : gmap (list string) node)
    (tasks : list (string * Z * string)) (q : list string) : option Z :=
  match tasks with
  | [] => None
  | t :: r =>
      match last_perm P m r q with
      | Some c => Some c
      | None =>
          match stat P m (fst (fst t)) with
          | inr (q', _) => if decide (q' = q) then Some (snd (fst t)) else None
          | inl _ => None
          end
      end
  end.

Definition asked_perm (P : proc) (m : gmap (list string) node)
    (tasks : list (string * Z * string)) (path : string) : option Z :=
  match stat P m path with
  | inr (q, _) => last_perm P m tasks q
  | inl _ => None
  end.

(** The files to make all name regular files that the caller may chmod. *)
Definition files_ready (P : proc) (m : gmap (list string) node)
    (tasks : list (string * Z * string)) : Prop :=
  forall t, t ∈ tasks ->
    exists q mode uid data,
      stat P m (fst (fst t)) = inr (q, Reg mode uid data)
      /\ owns P (Reg mode uid data) = true.

(** Every scaffold link path can be followed to a node. *)
Definition links_followable (P : proc) (rootPath : string)
    (m : gmap (list string) node) : bool :=
  forallb (fun l => match stat P m (Join [rootPath; snd l]) with
                    | inr _ => true
                    | inl _ => false
                    end) scaffold_links.

(** An ordinary user with the usual file-creation mask, in the root
    directory. *)
Definition user : proc := {| euid := 1000; umask := octal "022"; cwd := [] |}.

(** The same user with a file-creation mask that leaves nothing to group
    and others. *)
Definition strict_user : proc := {| euid := 1000; umask := octal "077"; cwd := [] |}.

(** A file system with an empty bundle directory [/b] that its owner cannot
    write. *)
Definition bundle : gmap (list string) node :=
  {[ [] := Dir (octal "755") 0; ["b"] := Dir (octal "555") 1000 ]}.

(** The same, with [/b/apptainer] a link to [tmp], which does not exist. *)
Definition bundle_link_to_tmp : gmap (list string) node :=
  <[ ["b"; "apptainer"] := Lnk "tmp" ]> bundle.

(** The same, with [/b/.run] a link to a name that does not exist. *)
Definition bundle_link_to_nowhere : gmap (list string) node :=
  <[ ["b"; ".run"] := Lnk "nowhere" ]> bundle.

(** A chain of [n] links in [/b/.apptainer.d]: [name] points to [name]
    followed by an x, which points to [name] followed by two, and so on. *)
Fixpoint link_chain (n : nat) (name : string) (m : gmap (list string) node)
    : gmap (list string) node :=
  match n with
  | O => m
  | S k =>
      <[ ["b"; ".apptainer.d"; name] := Lnk (name +:+ "x") ]>
        (link_chain k (name +:+ "x") m)
  end.

(** The bundle in which [.apptainer.d/runscript] is the first of a chain of
    as many links as one path walk may follow. *)
Definition bundle_chained : gmap (list string) node :=
  link_chain MAXSYMLINKS "runscript"
    (<[ ["b"; ".apptainer.d"] := Dir (octal "755") 1000 ]> bundle).

(** The bundle directory owned by somebody else. *)
Definition bundle_of_other : gmap (list string) node :=
  {[ [] := Dir (octal "755") 0; ["b"] := Dir (octal "555") 0 ]}.

End ScaffoldPred.

Module ExtractPred.
Import GoStr Path FS Os Extract ScaffoldPred.

(** An empty destination directory [/d]. *)
Definition dest_empty : gmap (list string) node :=
  {[ [] := Dir (octal "755") 0; ["d"] := Dir (octal "755") 1000 ]}.

(** An archive that holds the regular file [f] twice: with six bytes, then
    with two. *)
Definition long_entry : item :=
  Entry {| Name := "f"; Typeflag := TypeReg; Mode := octal "644" |} "abcdef".

Definition short_entry : item :=
  Entry {| Name := "f"; Typeflag := TypeReg; Mode := octal "644" |} "xy".

(** A file of ten bytes that starts with the gzip signature, at [/a.tgz]. *)
Definition tiny_gzip : string := gzip_signature +:+ "0000000".

Definition with_tiny_gzip : gmap (list string) node :=
  <[ ["a.tgz"] := Reg (octal "644") 1000 tiny_gzip ]> dest_empty.

(** A gzip reader that fails on an exhausted file and a tar reader that
    finds an empty archive. *)
Definition gzip_needs_bytes (s : string) : option string :=
  match s with
  | EmptyString => None
  | _ => Some s
  end.

Definition tar_empty (s : string) : list item * bool := ([], true).

End ExtractPred.

Module ZipSlipPred.
Import GoStr Path FS Os Extract Pred.

(** A proper name: not empty, not a dot, not two dots, and without a
    slash. *)
Definition proper (c : string) : bool :=
  negb (String.eqb c EmptyString) && negb (String.eqb c ".")
  && negb (String.eqb c "..") && lacks "/" c.

(** The names a path is made of. *)
Definition components (path : string) : list string :=
  filter (fun c => c <> EmptyString) (splitc "/" path).

(** The place [q] lies strictly inside the directory [D]. *)
Definition strictly_inside (D q : list string) : Prop :=
  exists rest, rest <> [] /\ q = (D ++ rest)%list.

(** The recorded name, joined to the destination, gives a path that is not
    strictly inside the destination. *)
Definition escapes (dst name : string) : Prop :=
  ~ strictly_inside (components (Clean dst)) (components (Join [dst; name])).

(** The path is made of [..] elements only. *)
Definition only_dotdot (path : string) : bool :=
  forallb (String.eqb "..") (splitc "/" path).

(** No symbolic link lies at or below the directory [D]. *)
Definition no_link_below (m : gmap (list string) node) (D : list string) : Prop :=
  forall q t, m !! q = Some (Lnk t) -> ~ D `prefix_of` q.

(** Nothing has changed but strictly inside [D]. *)
Definition changed_inside (D : list string) (m m' : gmap (list string) node) : Prop :=
  forall q, m' !! q <> m !! q -> strictly_inside D q.

(** An archive whose second entry climbs out of the destination. *)
Definition slipping : list item :=
  [ Entry {| Name := "a"; Typeflag := TypeDir; Mode := octal "755" |} EmptyString;
    Entry {| Name := "../../etc/passwd"; Typeflag := TypeReg; Mode := octal "644" |} "x";
    Entry {| Name := "b"; Typeflag := TypeReg; Mode := octal "644" |} "y" ].

(** A tar reader that yields this archive, and a file system that holds a
    file of ten bytes at [/a.tar] beside the empty destination [/d]. *)
Definition tar_slipping (s : string) : list item * bool := (slipping, true).

Definition with_tar : gmap (list string) node :=
  <[ ["a.tar"] := Reg (octal "644") 1000 "0123456789" ]>
    (<[ ["d"] := Dir (octal "755") 1000 ]> (<[ [] := Dir (octal "755") 0 ]> ∅)).

(** A tar reader that yields the given entries. *)
Definition tar_of (items : list item) (s : string) : list item * bool := (items, true).

(** A user whose working directory is [/w/d/sub], in a tree where [/w] can
    be written by all, with an archive at [/a.tar]; an archive whose entry
    climbs by one directory. *)
Definition user_in_sub : proc :=
  {| euid := 1000; umask := octal "022"; cwd := ["w"; "d"; "sub"] |}.

Definition tree_w : gmap (list string) node :=
  <[ ["a.tar"] := Reg (octal "644") 1000 "0123456789" ]>
    (<[ ["w"; "d"; "sub"] := Dir (octal "755") 1000 ]>
       (<[ ["w"; "d"] := Dir (octal "755") 1000 ]>
          (<[ ["w"] := Dir (octal "777") 0 ]> (<[ [] := Dir (octal "755") 0 ]> ∅)))).

Definition climbing : list item :=
  [ Entry {| Name := "../x"; Typeflag := TypeReg; Mode := octal "644" |} "y" ].

(** A destination [/d] that holds a link to [/etc], which all can write,
    and an archive with an entry below that link. *)
Definition tree_link_out : gmap (list string) node :=
  <[ ["a.tar"] := Reg (octal "644") 1000 "0123456789" ]>
    (<[ ["d"; "k"] := Lnk "/etc" ]>
       (<[ ["d"] := Dir (octal "755") 1000 ]>
          (<[ ["etc"] := Dir (octal "777") 0 ]> (<[ [] := Dir (octal "755") 0 ]> ∅)))).

Definition through_link : list item :=
  [ Entry {| Name := "k/passwd"; Typeflag := TypeReg; Mode := octal "644" |} "z" ].

(** A tree without the destination [/n/d], whose root all can write, and an
    archive with a directory. *)
Definition tree_no_dest : gmap (list string) node :=
  <[ ["a.tar"] := Reg (octal "644") 1000 "0123456789" ]>
    (<[ [] := Dir (octal "777") 0 ]> ∅).

Definition one_dir : list item :=
  [ Entry {| Name := "a"; Typeflag := TypeDir; Mode := octal "755" |} EmptyString ].

End ZipSlipPred.

(** ** What an operation leaves in place *)

Module PreservePred.
Import GoStr Path FS.

(** [m'] holds no symbolic link that [m] does not hold. *)
Definition no_new_links (m m' : gmap (list string) node) : Prop :=
  forall q t, m' !! q = Some (Lnk t) -> m !! q = Some (Lnk t).

(** A node of the same kind and owner: a directory stays a directory, a
    regular file a regular file, a link the same link. *)
Definition same_kind (n n' : node) : Prop :=
  match n with
  | Dir _ uid => exists mode', n' = Dir mode' uid
  | Reg _ uid _ => exists mode' data', n' = Reg mode' uid data'
  | Lnk t => n' = Lnk t
  end.

End PreservePred.

(** ** Entries of an archive, for the extractor *)

Module EntryPred.
Import GoStr Path FS Os Extract.

(** [tar.TypeSymlink]. *)
Definition TypeSymlink : Z := 50.

(** An item the loop of [extractArchive] passes over: a nil header, or an
    entry with a legal target that is neither a directory nor a regular
    file. *)
Definition passed_over (dst : string) (it : item) : bool :=
  match it with
  | NilHeader => true
  | Entry h _ =>
      legal_target dst (Join [dst; Name h])
      && negb (Typeflag h =? TypeDir) && negb (Typeflag h =? TypeReg)
  end.


(** A symbolic-link entry, and a regular file [f] of three bytes. *)
Definition link_entry : item :=
  Entry {| Name := "l"; Typeflag := TypeSymlink; Mode := octal "777" |} EmptyString.

Definition file_entry : Header :=
  {| Name := "f"; Typeflag := TypeReg; Mode := octal "644" |}.


(** The destination [/d] with a file [f] of two bytes in it. *)
Definition dest_with_f : gmap (list string) node :=
  <[ ["d"; "f"] := Reg (octal "600") 1000 "ab" ]>
    (<[ ["d"] := Dir (octal "755") 1000 ]> (<[ [] := Dir (octal "755") 0 ]> ∅)).

(** A source file of three bytes at [/s], and one of twelve at [/t]. *)
Definition with_short_source : gmap (list string) node :=
  <[ ["s"] := Reg (octal "644") 1000 "abc" ]>
    (<[ ["d"] := Dir (octal "755") 1000 ]> (<[ [] := Dir (octal "755") 0 ]> ∅)).

Definition with_plain_source : gmap (list string) node :=
  <[ ["t"] := Reg (octal "644") 1000 "0123456789ab" ]>
    (<[ ["d"] := Dir (octal "755") 1000 ]> (<[ [] := Dir (octal "755") 0 ]> ∅)).

(** A tar reader that yields a symbolic-link entry and the file [f], and a
    file system with a link in the destination. *)
Definition tar_link_and_file (s : string) : list item * bool :=
  ([link_entry; Entry file_entry "xyz"], true).

Definition with_link : gmap (list string) node :=
  <[ ["d"; "k"] := Lnk "elsewhere" ]> with_plain_source.

End EntryPred.

(** ** The end of the action script: the prompt and the action

    The statements of [ActionScript] after [restore_env], as the state
    transformer and the decision they denote.  [executable] is [test -x]. *)

Module ActionTail.
Import GoStr Sh.

(** [PS1], [PROMPT_COMMAND] and [APPTAINER_ENVIRONMENT]. *)
Definition prompt_setup (st : state) : state :=
  let st :=
    if negb (nonempty (expand st "PS1")) then export_assign "PS1" "Apptainer> " st
    else st in
  let st :=
    if negb (nonempty (expand st "PROMPT_COMMAND")) then
      export_assign "PROMPT_COMMAND"
        ("PS1=" +:+ dq +:+ expand st "PS1" +:+ dq +:+ "; unset PROMPT_COMMAND") st
    else
      export_assign "PROMPT_COMMAND"
        (expand st "PROMPT_COMMAND" +:+ "; PROMPT_COMMAND=" +:+ dq
           +:+ "${PROMPT_COMMAND%%; PROMPT_COMMAND=*}" +:+ dq
           +:+ "; PS1=" +:+ dq +:+ expand st "PS1" +:+ dq) st in
  export_assign "APPTAINER_ENVIRONMENT"
    (if nonempty (expand st "APPTAINER_ENVIRONMENT") then expand st "APPTAINER_ENVIRONMENT"
     else "/.apptainer.d/env/91-environment.sh") st.

(** How the script ends: with [exec] of a command and its arguments, or
    with [exit]. *)
Inductive ending :=
  | Exec (argv : list string)
  | Exit (status : Z).

(** The [case] on the action [cmd], the value of [__apptainer_cmd__], with
    the positional parameters [args]. *)
Definition dispatch (executable : string -> bool) (st : state) (cmd : string)
    (args : list string) : state * ending :=
  let appname := expand st "APPTAINER_APPNAME" in
  if String.eqb cmd "exec" then (st, Exec args)
  else if String.eqb cmd "shell" then
    if nonempty (expand st "APPTAINER_SHELL") && executable (expand st "APPTAINER_SHELL")
    then (st, Exec (expand st "APPTAINER_SHELL" :: args))
    else if executable "/bin/bash" then
      (export_assign "SHELL" "/bin/bash" st, Exec ("/bin/bash" :: "--norc" :: args))
    else if executable "/bin/sh" then
      (export_assign "SHELL" "/bin/sh" st, Exec ("/bin/sh" :: args))
    else (st, Exit 1)
  else if String.eqb cmd "run" then
    if nonempty appname then
      if executable ("/scif/apps/" +:+ appname +:+ "/scif/runscript")
      then (st, Exec (("/scif/apps/" +:+ appname +:+ "/scif/runscript") :: args))
      else (st, Exit 1)
    else if executable "/.apptainer.d/runscript" then
      (st, Exec ("/.apptainer.d/runscript" :: args))
    else if executable "/apptainer" then (st, Exec ("/apptainer" :: args))
    else if executable "/bin/sh" then (st, Exec ("/bin/sh" :: args))
    else (st, Exit 1)
  else if String.eqb cmd "test" then
    if nonempty appname then
      if executable ("/scif/apps/" +:+ appname +:+ "/scif/test")
      then (st, Exec (("/scif/apps/" +:+ appname +:+ "/scif/test") :: args))
      else (st, Exit 1)
    else if executable "/.apptainer.d/test" then
      (st, Exec ("/.apptainer.d/test" :: args))
    else (st, Exit 0)
  else if String.eqb cmd "start" then
    if executable "/.apptainer.d/startscript" then
      (st, Exec ("/.apptainer.d/startscript" :: args))
    else (st, Exit 0)
  else (st, Exit 1).

(** A container in which only [/bin/sh] can be executed, and a shell state
    with an application name. *)
Definition only_sh (path : string) : bool := String.eqb path "/bin/sh".

Definition with_app : state :=
  {| vars := {[ "APPTAINER_APPNAME" := "foo" ]}; exported := ∅; readonly := ∅ |}.

Definition no_vars : state := {| vars := ∅; exported := ∅; readonly := ∅ |}.

End ActionTail.

(** ** [insertRunScript] and [insertEnv] on the file system

    Both functions create their file with [os.Create] (mode 0666 before the
    umask, truncated if it exists), write the text with a row of
    [WriteString] calls, and set the mode to 0755 with [os.Chmod]. *)

Module Packer.
Import GoStr Path FS Os.

Section WithProc.
Variable P : proc.

(** [os.Create], the writes (the file is empty when they start, so they
    leave the concatenated [text]), and [os.Chmod]. *)
Definition create_script (path text : string) (m : gmap (list string) node) : outcome :=
  match open_write P m path true true true (octal "666") with
  | inl e => Failed m e
  | inr (m1, f) => chmod P (write_start m1 f text) path (octal "755")
  end.

Definition insertRunScript (RootfsPath : string) (cfg : ImageConfig)
    (m : gmap (list string) node) : outcome :=
  create_script (RootfsPath +:+ "/.apptainer.d/runscript") (RunScript.insertRunScript cfg) m.

Variable isPrintHigh : Z -> bool.

Definition insertEnv (RootfsPath : string) (cfg : ImageConfig)
    (m : gmap (list string) node) : outcome :=
  create_script (RootfsPath +:+ "/.apptainer.d/env/10-docker2apptainer.sh")
    (EnvFile.insertEnv isPrintHigh cfg) m.

End WithProc.

End Packer.

Module PackerPred.
Import GoStr Path FS.

(** A root file system [/b] of the user 1000 after the scaffold: the
    directories [.apptainer.d] and [.apptainer.d/env], and a placeholder
    runscript. *)
Definition rootfs_ready : gmap (list string) node :=
  <[ ["b"; ".apptainer.d"; "runscript"] := Reg (octal "755") 1000 "#!/bin/sh placeholder, longer than nothing" ]>
    (<[ ["b"; ".apptainer.d"; "env"] := Dir (octal "755") 1000 ]>
       (<[ ["b"; ".apptainer.d"] := Dir (octal "755") 1000 ]>
          (<[ ["b"] := Dir (octal "755") 1000 ]> (<[ [] := Dir (octal "755") 0 ]> ∅)))).

(** An image configuration with an entry point and one variable. *)
Definition sample_config : ImageConfig :=
  {| Entrypoint := ["/bin/echo"; "hi"]; Cmd := []; Env := ["FOO=bar"] |}.

Definition all_printable (r : Z) : bool := true.

End PackerPred.

Module TextPred.

(** The number of occurrences of a byte in a string. *)
Fixpoint count (c : ascii) (s : string) : nat :=
  match s with
  | EmptyString => 0%nat
  | String d r => ((if Ascii.eqb d c then 1 else 0) + count c r)%nat
  end.

End TextPred.

(** * Properties *)

(** ** Go byte strings *)

Module GoStrFacts.
Import GoStr Pred.

Lemma append_assoc (a b c : string) : (a +:+ b) +:+ c = a +:+ (b +:+ c).
Proof. induction a as [|x a IH]; cbn; [reflexivity | f_equal; exact IH]. Qed.

Lemma append_nil_r (a : string) : a +:+ EmptyString = a.
Proof. induction a as [|x a IH]; cbn; [reflexivity | f_equal; exact IH]. Qed.

Lemma SplitN2_none sep s : lacks sep s = true -> SplitN2 sep s = (s, None).
Proof.
  induction s as [|c r IH]; simpl; [reflexivity |].
  intros [Hc Hr]%andb_prop. apply negb_true_iff in Hc. rewrite Hc, (IH Hr).
  reflexivity.
Qed.

Lemma SplitN2_first sep k v :
  lacks sep k = true -> SplitN2 sep (k +:+ String sep v) = (k, Some v).
Proof.
  induction k as [|c r IH]; simpl.
  - intros _. now rewrite Ascii.eqb_refl.
  - intros [Hc Hr]%andb_prop. apply negb_true_iff in Hc. rewrite Hc, (IH Hr).
    reflexivity.
Qed.

Lemma appendEscapedRune_printable isP c :
  printable c = true -> appendEscapedRune isP (code c) (str1 c) = str1 c.
Proof.
  unfold printable, appendEscapedRune, IsPrint, between. intros H.
  apply andb_prop in H as [[H1 H2]%andb_prop H3].
  apply negb_true_iff in H2, H3. rewrite H2, H3. simpl.
  apply andb_prop in H1 as [Hlo Hhi].
  replace (code c <? 128) with true by (symmetry; apply Z.ltb_lt; lia).
  now rewrite Hlo, Hhi.
Qed.

Lemma quoteBody_printable isP s :
  forallb printable (list_ascii_of_string s) = true -> quoteBody isP s = s.
Proof.
  induction s as [|c r IH]; [reflexivity |].
  cbn [list_ascii_of_string forallb]. intros [Hc Hr]%andb_prop.
  cbn [quoteBody]. cbv zeta.
  replace (code c <? 128) with true.
  - rewrite (appendEscapedRune_printable isP c Hc), (IH Hr). reflexivity.
  - symmetry. apply Z.ltb_lt. unfold printable, between in Hc.
    apply andb_prop in Hc as [[[_ Hhi]%andb_prop _]%andb_prop _]. lia.
Qed.

End GoStrFacts.

Module ShellFacts.
Import GoStr GoStrFacts Shell Pred.

Lemma Escape_plain s : plain s = true -> Escape s = s.
Proof.
  unfold plain. induction s as [|c r IH]; [reflexivity |].
  cbn [list_ascii_of_string forallb]. intros [[_ Hc]%andb_prop Hr]%andb_prop.
  apply negb_true_iff in Hc. cbn [Escape]. rewrite Hc, (IH Hr). reflexivity.
Qed.

Lemma plain_printable s :
  plain s = true -> forallb printable (list_ascii_of_string s) = true.
Proof.
  unfold plain. induction (list_ascii_of_string s) as [|c r IH]; [reflexivity |].
  cbn [forallb]. intros [[Hc _]%andb_prop Hr]%andb_prop.
  now rewrite Hc, (IH Hr).
Qed.

Lemma Quote_Escape_plain isP s :
  plain s = true -> Quote isP (Escape s) = dq +:+ s +:+ dq.
Proof.
  intros H. unfold Quote.
  now rewrite (Escape_plain s H), (quoteBody_printable isP s (plain_printable s H)).
Qed.

End ShellFacts.

(** ** The environment file *)

Module EnvFileFacts.
Import GoStr GoStrFacts Shell ShellFacts Pred EnvFile.

Lemma fold_left_append {A} (f : A -> string) (l : list A) (acc : string) :
  fold_left (fun s x => s +:+ f x) l acc = acc +:+ String.concat "" (map f l).
Proof.
  revert acc. induction l as [|x l IH]; intros acc; cbn [fold_left map].
  - cbn. now rewrite append_nil_r.
  - rewrite IH, append_assoc. f_equal.
    destruct l; cbn; [now rewrite append_nil_r | reflexivity].
Qed.

(** C3, as stated, fails: for the entry FOO=bar the file does not hold the
    line with the bare fallback value; [%q] puts the value between double
    quotes of its own. *)
Lemma insertEnv_bare_fallback_counterexample :
  insertEnv (fun _ => true)
    {| Entrypoint := []; Cmd := []; Env := ["FOO=bar"] |}
  <> "#!/bin/sh" +:+ nl +:+ specExportLine "FOO=bar".
Proof. vm_compute. discriminate. Qed.

(** C3, amended: [insertEnv] writes the interpreter line and then one export
    line per entry of [Env], in the original order.  An entry PATH=v with a
    plain value v gives the unconditional line export PATH="v"; any other
    entry K=v with a plain v gives export K="${K:-"v"}", the default between
    double quotes of its own; a bare entry K gives export K="${K:-}". *)
Theorem insertEnv_lines (isP : Z -> bool) (cfg : ImageConfig) :
  insertEnv isP cfg
    = "#!/bin/sh" +:+ nl +:+ String.concat "" (map (exportLine isP) (Env cfg))
  /\ (forall v, plain v = true ->
        exportLine isP ("PATH=" +:+ v)
          = "export PATH=" +:+ dq +:+ v +:+ dq +:+ nl)
  /\ (forall k v, lacks "=" k = true -> k <> "PATH" -> plain v = true ->
        exportLine isP (k +:+ "=" +:+ v)
          = "export " +:+ k +:+ "=" +:+ dq +:+ "${" +:+ k +:+ ":-"
              +:+ dq +:+ v +:+ dq +:+ "}" +:+ dq +:+ nl)
  /\ (forall k, lacks "=" k = true ->
        exportLine isP k
          = "export " +:+ k +:+ "=" +:+ dq +:+ "${" +:+ k +:+ ":-}" +:+ dq +:+ nl).
Proof.
  split; [| split; [| split]].
  - unfold insertEnv. rewrite fold_left_append. now rewrite append_assoc.
  - intros v Hv. unfold exportLine.
    change ("PATH=" +:+ v) with ("PATH" +:+ String "=" v).
    rewrite SplitN2_first by reflexivity. cbn [String.eqb Ascii.eqb].
    change (("PATH" =? "PATH")%string) with true. cbv iota.
    now rewrite (Quote_Escape_plain isP v Hv), !append_assoc.
  - intros k v Hk Hne Hv. unfold exportLine.
    change (k +:+ "=" +:+ v) with (k +:+ String "=" v).
    rewrite SplitN2_first by exact Hk.
    destruct (String.eqb_spec k "PATH") as [->|_]; [now elim Hne |].
    now rewrite (Quote_Escape_plain isP v Hv), !append_assoc.
  - intros k Hk. unfold exportLine. now rewrite (SplitN2_none _ _ Hk).
Qed.

(** The three entries named by the claim, in one list. *)
Example insertEnv_example :
  insertEnv (fun _ => true)
    {| Entrypoint := []; Cmd := []; Env := ["PATH=/a:/b"; "FOO=bar"; "BAZ"] |}
  = "#!/bin/sh" +:+ nl
    +:+ "export PATH=" +:+ dq +:+ "/a:/b" +:+ dq +:+ nl
    +:+ "export FOO=" +:+ dq +:+ "${FOO:-" +:+ dq +:+ "bar" +:+ dq +:+ "}" +:+ dq +:+ nl
    +:+ "export BAZ=" +:+ dq +:+ "${BAZ:-}" +:+ dq +:+ nl.
Proof. vm_compute. reflexivity. Qed.

End EnvFileFacts.

(** ** The runtime-variables protocol *)

Module RuntimeVarsFacts.
Import Sh RuntimeVarsScript.

Lemma names_distinct :
  PREPEND <> APPEND /\ PREPEND <> OVERRIDE /\ APPEND <> OVERRIDE
  /\ PREPEND <> "PATH" /\ APPEND <> "PATH" /\ OVERRIDE <> "PATH".
Proof. repeat split; discriminate. Qed.

Lemma expand_set st k v : vars st !! k = Some v -> expand st k = v.
Proof. unfold expand. now intros ->. Qed.

Lemma expand_unset st k : vars st !! k = None -> expand st k = EmptyString.
Proof. unfold expand. now intros ->. Qed.

Lemma vars_assign k v st k' :
  k ∉ readonly st ->
  vars (assign k v st) !! k' = if decide (k = k') then Some v else vars st !! k'.
Proof.
  intros H. unfold assign. destruct (decide (k ∈ readonly st)); [done |].
  cbn. apply lookup_insert.
Qed.

Lemma vars_unset k st k' :
  k ∉ readonly st ->
  vars (unset k st) !! k' = if decide (k = k') then None else vars st !! k'.
Proof.
  intros H. unfold unset. destruct (decide (k ∈ readonly st)); [done |].
  cbn. apply lookup_delete.
Qed.

Lemma readonly_assign k v st : readonly (assign k v st) = readonly st.
Proof. unfold assign. now destruct (decide (k ∈ readonly st)). Qed.

Lemma readonly_unset k st : readonly (unset k st) = readonly st.
Proof. unfold unset. now destruct (decide (k ∈ readonly st)). Qed.

Lemma nonempty_false s : nonempty s = false <-> s = EmptyString.
Proof. unfold nonempty. rewrite negb_false_iff. apply String.eqb_eq. Qed.

Lemma expand_assign k v st k' :
  k ∉ readonly st ->
  expand (assign k v st) k' = if decide (k = k') then v else expand st k'.
Proof. intros H. unfold expand. rewrite vars_assign by done. now case_decide. Qed.

Lemma expand_unset_var k st k' :
  k ∉ readonly st ->
  expand (unset k st) k' = if decide (k = k') then EmptyString else expand st k'.
Proof. intros H. unfold expand. rewrite vars_unset by done. now case_decide. Qed.

Ltac sh_ro :=
  repeat first [rewrite readonly_assign | rewrite readonly_unset]; assumption.

(** Push lookups and expansions through assignments and unsets. *)
Ltac sh_norm :=
  repeat first
    [ rewrite expand_assign by sh_ro
    | rewrite expand_unset_var by sh_ro
    | rewrite vars_assign by sh_ro
    | rewrite vars_unset by sh_ro
    | rewrite decide_True by reflexivity
    | rewrite decide_False by (first [assumption | apply not_eq_sym; assumption])
    | progress cbn [nonempty String.eqb negb vars export] ].

(** Split on the test of the next [if] of a script. *)
Ltac sh_case st :=
  match goal with
  | |- context [nonempty (expand st ?k)] =>
      let E := fresh "E" in destruct (nonempty (expand st k)) eqn:E
  | |- context [nonempty (?a +:+ ?b)] =>
      let E := fresh "E" in destruct (nonempty (a +:+ b)) eqn:E
  end.

Ltac sh_run st := repeat (sh_norm; try sh_case st).

Import RuntimeVarsPred.

(** C9, as stated, fails for [RuntimeVars]: a protocol variable that is set
    to the empty string is still set after the script has run. *)
Lemma RuntimeVars_keeps_empty_counterexample :
  ~ (forall k, In k protocol_vars -> vars (RuntimeVars override_empty) !! k = None).
Proof.
  intros H. specialize (H OVERRIDE ltac:(cbn; tauto)).
  vm_compute in H. discriminate.
Qed.

(** C9, amended: for every state in which PATH and the three protocol
    variables are writable, and for both texts of the script.  With only the
    prepend variable set, to a non-empty z, PATH becomes z, a colon and the
    old PATH, and the prepend variable is unset.  With none of the three set,
    PATH is unchanged.  After the scaffold's script all three are unset;
    after [RuntimeVars] each of the three is unset, or was set to the empty
    string and still is. *)
Theorem runtimevars_protocol (st : state) (z : string) :
  "PATH" ∉ readonly st -> PREPEND ∉ readonly st ->
  APPEND ∉ readonly st -> OVERRIDE ∉ readonly st ->
  (nonempty z = true -> vars st !! PREPEND = Some z ->
   vars st !! APPEND = None -> vars st !! OVERRIDE = None ->
     (vars (RuntimeVars st) !! "PATH" = Some (z +:+ ":" +:+ expand st "PATH")
      /\ vars (RuntimeVars st) !! PREPEND = None)
     /\ (vars (base99runtimevarsSh st) !! "PATH" = Some (z +:+ ":" +:+ expand st "PATH")
         /\ vars (base99runtimevarsSh st) !! PREPEND = None))
  /\ (vars st !! PREPEND = None -> vars st !! APPEND = None ->
      vars st !! OVERRIDE = None ->
        vars (RuntimeVars st) !! "PATH" = vars st !! "PATH"
        /\ vars (base99runtimevarsSh st) !! "PATH" = vars st !! "PATH")
  /\ (forall k, In k protocol_vars -> vars (base99runtimevarsSh st) !! k = None)
  /\ (forall k, In k protocol_vars ->
        vars (RuntimeVars st) !! k = None
        \/ (vars st !! k = Some EmptyString
            /\ vars (RuntimeVars st) !! k = Some EmptyString)).
Proof.
  intros HP H1 H2 H3.
  destruct names_distinct as (N1 & N2 & N3 & N4 & N5 & N6).
  split; [| split; [| split]].
  - intros Hz E1 E2 E3.
    unfold RuntimeVars, base99runtimevarsSh. cbv zeta.
    repeat split; sh_run st;
      rewrite ?(expand_set _ _ _ E1), ?(expand_unset _ _ E2),
        ?(expand_unset _ _ E3) in *;
      try discriminate; congruence.
  - intros E1 E2 E3.
    unfold RuntimeVars, base99runtimevarsSh. cbv zeta.
    split; sh_run st;
      rewrite ?(expand_unset _ _ E1), ?(expand_unset _ _ E2),
        ?(expand_unset _ _ E3) in *;
      try discriminate; congruence.
  - intros k Hk. unfold base99runtimevarsSh. cbv zeta.
    cbn in Hk. destruct Hk as [<- | [<- | [<- | []]]]; sh_run st; reflexivity.
  - intros k Hk. unfold RuntimeVars. cbv zeta.
    cbn in Hk.
    destruct Hk as [<- | [<- | [<- | []]]]; sh_run st;
      try (left; reflexivity);
      match goal with
      | E : nonempty (expand st ?k) = false |- _ =>
          apply nonempty_false in E; unfold expand in E;
          destruct (vars st !! k) as [v|] eqn:Ev; cbn in E;
          [subst v; right; split; reflexivity | left; reflexivity]
      end.
Qed.

(** The state with only the prepend variable set: PATH gets the prefix. *)
Lemma runtimevars_protocol_witness :
  vars (RuntimeVars prepend_only) !! "PATH" = Some "/z:/bin".
Proof.
  refine (proj1 (proj1 (proj1
    (runtimevars_protocol prepend_only "/z" _ _ _ _) _ _ _ _)));
    try (cbn; apply not_elem_of_empty); reflexivity.
Defined.

End RuntimeVarsFacts.

(** ** The sanitize and restore phases of the action script *)

Module ActionScriptFacts.
Import Sh ActionScript ActionScriptPred.













Lemma export_assign_writable k v st : k ∉ readonly st ->
  vars (export_assign k v st) !! k = Some v /\ k ∈ exported (export_assign k v st).
Proof.
  intros H. unfold export_assign, export, assign.
  rewrite !decide_False by done. cbn.
  rewrite lookup_insert_eq. split; [done | set_solver].
Qed.

Lemma export_assign_ro k v st : readonly (export_assign k v st) = readonly st.
Proof.
  unfold export_assign, export, assign. now destruct (decide (k ∈ readonly st)).
Qed.







Section SourcePhase.
Variable fixpath : state -> string.






End SourcePhase.





End ActionScriptFacts.

(** ** The generated runscript *)

Module RunScriptFacts.
Import GoStr GoStrFacts Shell ShellFacts Pred ShWords RunScript RunScriptPred.

Lemma push_some w c : push (Some w) c = Some (w +:+ str1 c).
Proof. reflexivity. Qed.

Lemma append_str1 w c s : (w +:+ str1 c) +:+ s = w +:+ String c s.
Proof. now rewrite append_assoc. Qed.

Lemma code_eqb_neq c n : code c <> n -> (code c =? n) = false.
Proof. apply Z.eqb_neq. Qed.

Lemma words_quote_in_single w X :
  words (("'" +:+ dq +:+ "'" +:+ dq +:+ "'") +:+ X) SingleQuoted (Some w)
  = words X SingleQuoted (Some (w +:+ "'")).
Proof. reflexivity. Qed.

Lemma words_single_quoted s w rest :
  nonul s = true ->
  words (EscapeSingleQuotes s +:+ String "'" rest) SingleQuoted (Some w)
  = words rest Unquoted (Some (w +:+ s)).
Proof.
  unfold nonul, EscapeSingleQuotes. revert w.
  induction s as [|c r IH]; intros w H.
  - cbn. now rewrite append_nil_r.
  - cbn [lacks] in H. apply andb_prop in H as [Hc Hr]. apply negb_true_iff in Hc.
    cbn [ReplaceAll]. destruct (Ascii.eqb_spec c (chr 39)) as [-> | Hne].
    + rewrite append_assoc, words_quote_in_single, IH by done.
      now rewrite append_assoc.
    + cbn [String.append str1 words].
      assert (H39 : (code c =? 39) = false).
      { apply Z.eqb_neq. intros E. apply Hne.
        rewrite <- (ascii_N_embedding c). unfold code in E.
        replace (N_of_ascii c) with 39%N by lia. reflexivity. }
      assert (H0 : (code c =? 0) = false).
      { apply Z.eqb_neq. intros E. apply Ascii.eqb_neq in Hc. apply Hc.
        rewrite <- (ascii_N_embedding c). unfold code in E.
        replace (N_of_ascii c) with 0%N by lia. reflexivity. }
      rewrite H39, H0, push_some, IH by done. now rewrite append_str1.
Qed.

Lemma code_inj c n : code c = Z.of_N n -> (n < 256)%N -> c = ascii_of_N n.
Proof.
  unfold code. intros E _. apply N2Z.inj in E. rewrite <- E.
  symmetry. apply ascii_N_embedding.
Qed.

Lemma special_cases c :
  special c = ((code c =? 92) || (code c =? 34) || (code c =? 96) || (code c =? 36)).
Proof. reflexivity. Qed.

Lemma words_double_quoted_escaped x w rest :
  nonul x = true ->
  words (Escape x +:+ String (chr 34) rest) DoubleQuoted (Some w)
  = words rest Unquoted (Some (w +:+ x)).
Proof.
  unfold nonul. revert w. induction x as [|c r IH]; intros w H.
  - cbn. now rewrite append_nil_r.
  - cbn [lacks] in H. apply andb_prop in H as [Hc Hr]. apply negb_true_iff in Hc.
    assert (H0 : (code c =? 0) = false).
    { apply Z.eqb_neq. intros E. apply Ascii.eqb_neq in Hc. apply Hc.
      now apply (code_inj c 0). }
    cbn [Escape]. destruct (special c) eqn:Hs.
    + rewrite !append_assoc. cbn [String.append str1 bsl].
      cbn [words]. change (code (chr 92) =? 34) with false.
      change (code (chr 92) =? 92) with true. cbv iota.
      assert (He : dq_escapable c = true).
      { unfold dq_escapable. rewrite special_cases in Hs.
        destruct (code c =? 92), (code c =? 34), (code c =? 96), (code c =? 36);
          cbn in *; congruence. }
      rewrite He, push_some, IH by done. now rewrite append_str1.
    + rewrite special_cases in Hs.
      apply orb_false_elim in Hs as [Hs H36].
      apply orb_false_elim in Hs as [Hs H96].
      apply orb_false_elim in Hs as [H92 H34].
      cbn [String.append str1 words].
      rewrite H34, H92, H36, H96, H0. cbn [orb].
      rewrite push_some, IH by done. now rewrite append_str1.
Qed.

Lemma lacks_append c a b : lacks c (a +:+ b) = lacks c a && lacks c b.
Proof. induction a as [|x a IH]; cbn; [reflexivity | now rewrite IH, andb_assoc]. Qed.

Lemma nonul_Escape x : nonul x = true -> nonul (Escape x) = true.
Proof.
  unfold nonul. induction x as [|c r IH]; [reflexivity |].
  cbn [lacks Escape]. intros [Hc Hr]%andb_prop.
  rewrite lacks_append, (IH Hr), andb_true_r.
  destruct (special c); cbn [String.append str1 bsl lacks]; now rewrite Hc.
Qed.

Lemma nonul_ArgsQuoted l : forallb nonul l = true -> nonul (ArgsQuoted l) = true.
Proof.
  induction l as [|x l IH]; [reflexivity |].
  cbn [forallb]. intros [Hx Hl]%andb_prop. specialize (IH Hl).
  apply nonul_Escape in Hx. unfold nonul in *.
  destruct l as [|y l]; cbn [ArgsQuoted] in *;
    rewrite !lacks_append, ?Hx, ?IH; reflexivity.
Qed.

Lemma assigned_list_literal l :
  forallb nonul l = true -> assigned_value (list_literal l) = Some (ArgsQuoted l).
Proof.
  intros H. unfold list_literal. destruct l as [|x l]; [reflexivity |].
  replace (0 <? Z.of_nat (length (x :: l))) with true
    by (symmetry; apply Z.ltb_lt; cbn [length]; lia).
  unfold assigned_value, command_words.
  change (words ("'" +:+ ?s) Unquoted None) with (words s SingleQuoted (Some EmptyString)).
  cbn [String.append words]. 
  change (code "'" =? 39) with true. change (is_blank "'") with false. cbv iota.
  change (start None) with (Some EmptyString).
  change (EscapeSingleQuotes (ArgsQuoted (x :: l)) +:+ "'")
    with (EscapeSingleQuotes (ArgsQuoted (x :: l)) +:+ String "'" EmptyString).
  rewrite words_single_quoted by now apply nonul_ArgsQuoted.
  reflexivity.
Qed.

Lemma words_open_dq s cur :
  words (dq +:+ s) Unquoted cur = words s DoubleQuoted (start cur).
Proof. reflexivity. Qed.

Lemma words_blank s w :
  words (String " " s) Unquoted (Some w) = cons w <$> words s Unquoted None.
Proof. reflexivity. Qed.

Lemma words_blank_none s : words (String " " s) Unquoted None = words s Unquoted None.
Proof. reflexivity. Qed.

Lemma words_ArgsQuoted l :
  forallb nonul l = true ->
  words (ArgsQuoted l) Unquoted None = Some l
  /\ forall rest, words (ArgsQuoted l +:+ String " " rest) Unquoted None
                  = app l <$> words rest Unquoted None.
Proof.
  induction l as [|x l IH]; intros H.
  - split; [reflexivity |]. intros rest. cbn [ArgsQuoted String.append].
    rewrite words_blank_none. now destruct (words rest Unquoted None).
  - cbn [forallb] in H. apply andb_prop in H as [Hx Hl]. specialize (IH Hl).
    destruct IH as [IHend IHblank].
    assert (Hone : forall rest,
      words (dq +:+ Escape x +:+ dq +:+ rest) Unquoted None
      = words rest Unquoted (Some x)).
    { intros rest. rewrite words_open_dq. change (start None) with (Some EmptyString).
      change (dq +:+ rest) with (String (chr 34) rest).
      now rewrite words_double_quoted_escaped. }
    destruct l as [|y l].
    + cbn [ArgsQuoted]. split.
      * specialize (Hone EmptyString). now rewrite append_nil_r in Hone.
      * intros rest. rewrite !append_assoc, Hone, words_blank.
        now destruct (words rest Unquoted None).
    + change (ArgsQuoted (x :: y :: l))
        with (dq +:+ Escape x +:+ dq +:+ " " +:+ ArgsQuoted (y :: l)).
      split.
      * rewrite Hone. change (" " +:+ ?s) with (String " " s).
        now rewrite words_blank, IHend.
      * intros rest. rewrite !append_assoc, Hone.
        change (" " +:+ ?s) with (String " " s).
        rewrite words_blank, IHblank.
        now destruct (words rest Unquoted None).
Qed.

Lemma fold_left_pieces args acc :
  fold_left (fun acc arg => acc +:+ " " +:+ dq +:+ arg +:+ dq) args acc
  = acc +:+ pieces args.
Proof.
  revert acc. induction args as [|a r IH]; intros acc; cbn [fold_left pieces].
  - now rewrite append_nil_r.
  - now rewrite IH, !append_assoc.
Qed.

Lemma Escape_inert a : inert a = true -> Escape a = a /\ nonul a = true.
Proof.
  unfold inert. intros [Hn Hs]%andb_prop. split; [| done]. clear Hn.
  induction a as [|c r IH]; [reflexivity |].
  cbn [list_ascii_of_string forallb] in Hs. apply andb_prop in Hs as [Hc Hr].
  apply negb_true_iff in Hc. cbn [Escape]. now rewrite Hc, (IH Hr).
Qed.

Lemma words_pieces args cur :
  forallb inert args = true ->
  words (pieces args) Unquoted cur
  = Some (match cur with Some w => [w] | None => [] end ++ args)%list.
Proof.
  revert cur. induction args as [|a r IH]; intros cur H.
  - cbn. now rewrite app_nil_r.
  - cbn [forallb] in H. apply andb_prop in H as [Ha Hr].
    destruct (Escape_inert a Ha) as [He Hn].
    assert (Hstep : words (pieces (a :: r)) Unquoted None = Some (a :: r)).
    { cbn [pieces]. rewrite !append_assoc.
      change (" " +:+ ?s) with (String " " s). rewrite words_blank_none.
      rewrite words_open_dq. change (start None) with (Some EmptyString).
      change (dq +:+ ?s) with (String (chr 34) s).
      rewrite <- He at 1. rewrite words_double_quoted_escaped by done.
      now rewrite (IH (Some (EmptyString +:+ a)) Hr). }
    destruct cur as [w|]; [| exact Hstep].
    change (pieces (a :: r)) with (String " " (dq +:+ (a +:+ dq) +:+ pieces r)).
    rewrite words_blank.
    change (pieces (a :: r)) with (String " " (dq +:+ (a +:+ dq) +:+ pieces r)) in Hstep.
    rewrite words_blank_none in Hstep. now rewrite Hstep.
Qed.

Lemma words_set s : command_words ("set " +:+ s) = cons "set" <$> words s Unquoted None.
Proof. reflexivity. Qed.

Lemma run_script_oci (cfg : ImageConfig) (args : list string) :
  forallb nonul (Entrypoint cfg) = true -> forallb nonul (Cmd cfg) = true ->
  forallb inert args = true ->
  plain_command (oci_command cfg args) = true ->
  run_script cfg args = Some (oci_command cfg args).
Proof.
  intros He Hc Ha Hp. unfold run_script.
  rewrite (assigned_list_literal _ He), (assigned_list_literal _ Hc).
  unfold run_tail. cbv zeta. rewrite fold_left_pieces.
  change (EmptyString +:+ pieces args) with (pieces args).
  unfold eval_set_exec, oci_command in *.
  destruct (words_ArgsQuoted _ He) as [_ HE].
  destruct (words_ArgsQuoted _ Hc) as [HC _].
  destruct args as [|a r].
  - change (0 <? Z.of_nat (length [])) with false. cbv iota.
    rewrite words_set. change (" " +:+ ?s) with (String " " s).
    rewrite HE, HC. cbn [fmap option_fmap option_map].
    destruct (Entrypoint cfg ++ Cmd cfg)%list as [|w ws] eqn:E; [reflexivity |].
    cbn [plain_command] in Hp. apply negb_true_iff in Hp. now rewrite Hp.
  - replace (0 <? Z.of_nat (length (a :: r))) with true
      by (symmetry; apply Z.ltb_lt; cbn [length]; lia).
    cbv iota. rewrite words_set. change (" " +:+ ?s) with (String " " s).
    rewrite HE, (words_pieces (a :: r) None Ha).
    cbn [fmap option_fmap option_map app].
    destruct (Entrypoint cfg ++ a :: r)%list as [|w ws] eqn:E.
    + now destruct (Entrypoint cfg).
    + cbn [plain_command] in Hp. apply negb_true_iff in Hp. now rewrite Hp.
Qed.


(** C2, as stated, fails: a positional parameter that holds double quotes is
    read again by [eval]; here one parameter reaches the command as two. *)
Lemma run_script_requoted_counterexample :
  run_script echo_hi [split_arg] = Some ["/bin/echo"; "hi"; "a"; "b"]
  /\ run_script echo_hi [split_arg] <> Some (oci_command echo_hi [split_arg]).
Proof. split; [vm_compute; reflexivity | vm_compute; discriminate]. Qed.

(** C2, amended: for every Image Config without NUL bytes and all
    positional parameters that are inert between double quotes (no NUL,
    backslash, double quote, backquote or dollar), when the first word of
    the resulting command does not start with a dash or a plus, the
    generated runscript executes: Entrypoint followed by the parameters when
    Cmd is empty and Entrypoint is not; the parameters if there are any,
    otherwise Cmd, when Entrypoint is empty and Cmd is not; Entrypoint
    followed by the parameters if there are any, otherwise by Cmd, when
    neither is empty.  For the Entrypoint /bin/echo hi and an empty Cmd it
    executes /bin/echo hi without parameters and /bin/echo hi x with the
    parameter x. *)
Theorem runscript_precedence (cfg : ImageConfig) (args : list string) :
  forallb nonul (Entrypoint cfg) = true -> forallb nonul (Cmd cfg) = true ->
  forallb inert args = true ->
  plain_command (oci_command cfg args) = true ->
  (Cmd cfg = [] -> Entrypoint cfg <> [] ->
     run_script cfg args = Some (Entrypoint cfg ++ args)%list)
  /\ (Cmd cfg <> [] -> Entrypoint cfg = [] ->
        run_script cfg args = Some (match args with [] => Cmd cfg | _ => args end))
  /\ (Cmd cfg <> [] -> Entrypoint cfg <> [] ->
        run_script cfg args
        = Some (Entrypoint cfg ++ match args with [] => Cmd cfg | _ => args end)%list)
  /\ run_script echo_hi [] = Some ["/bin/echo"; "hi"]
  /\ run_script echo_hi ["x"] = Some ["/bin/echo"; "hi"; "x"].
Proof.
  intros He Hc Ha Hp.
  pose proof (run_script_oci cfg args He Hc Ha Hp) as H.
  unfold oci_command in H.
  split; [| split; [| split; [| split]]].
  - intros HC _. rewrite H, HC. destruct args; [now rewrite app_nil_r | reflexivity].
  - intros _ HE. now rewrite H, HE.
  - intros _ _. exact H.
  - now apply run_script_oci.
  - now apply run_script_oci.
Qed.

(** With the Cmd /bin/true alone, the parameter /bin/false replaces it. *)
Lemma runscript_precedence_witness :
  run_script true_cmd ["/bin/false"] = Some ["/bin/false"].
Proof.
  refine (proj1 (proj2
    (runscript_precedence true_cmd ["/bin/false"] _ _ _ _)) _ _);
    first [reflexivity | discriminate].
Defined.

End RunScriptFacts.

(** ** The file system *)

Module FSFacts.
Import GoStr Path FS FSPred Os Scaffold.

Section Facts.
Variable P : proc.

Lemma walk_eq links m follow cur comps :
  walk P links m follow cur comps =
    match comps with
    | [] =>
        match m !! cur with
        | Some n => Found cur n
        | None => Fail ENOENT
        end
    | c :: rest =>
        match m !! cur with
        | None => Fail ENOENT
        | Some (Dir mode uid) =>
            if negb (permitted P mode uid 1) then Fail EACCES
            else if String.eqb c EmptyString || String.eqb c "." then
              walk P links m follow cur rest
            else if String.eqb c ".." then walk P links m follow (removelast cur) rest
            else
              let q := (cur ++ [c])%list in
              match m !! q with
              | None =>
                  match rest with
                  | [] => Absent q (Dir mode uid)
                  | _ => Fail ENOENT
                  end
              | Some (Lnk t) =>
                  if match rest with [] => negb follow | _ => false end
                  then Found q (Lnk t)
                  else if String.eqb t EmptyString then Fail ENOENT
                  else
                    match links with
                    | O => Fail ELOOP
                    | S links' =>
                        walk P links' m follow (if rooted t then [] else cur)
                          (splitc "/" t ++ rest)%list
                    end
              | Some _ => walk P links m follow q rest
              end
        | Some _ => Fail ENOTDIR
        end
    end.
Proof. destruct links, comps; reflexivity. Qed.

Lemma keeps_refl n : keeps n n.
Proof. destruct n; cbn; eauto. Qed.

Lemma keeps_trans a b c : keeps a b -> keeps b c -> keeps a c.
Proof.
  destruct a; cbn; intros H1 H2; subst; auto.
  destruct H1 as (m1 & d1 & ->). exact H2.
Qed.

Lemma extends_refl m : extends m m.
Proof. intros q n H. exists n. split; [done | apply keeps_refl]. Qed.

Lemma extends_trans a b c : extends a b -> extends b c -> extends a c.
Proof.
  intros H1 H2 q n Hq. destruct (H1 q n Hq) as (n1 & Hq1 & K1).
  destruct (H2 q n1 Hq1) as (n2 & Hq2 & K2). exists n2. split; [done |].
  eapply keeps_trans; eauto.
Qed.

(** A walk that finds a node finds it again, at the same place, in a
    larger file system. *)
Lemma walk_extends links m m' follow :
  extends m m' ->
  forall comps cur q n,
    walk P links m follow cur comps = Found q n ->
    exists n', walk P links m' follow cur comps = Found q n' /\ keeps n n'.
Proof.
  intros Hext. induction links as [|links IHl];
    (induction comps as [|c rest IHc]; intros cur q n;
     [ rewrite (walk_eq _ m _ cur []), (walk_eq _ m' _ cur [])
     | rewrite (walk_eq _ m _ cur (c :: rest)), (walk_eq _ m' _ cur (c :: rest)) ];
     (destruct (m !! cur) as [nd|] eqn:E; [| discriminate])).
  1,3: intros [= <- <-]; destruct (Hext _ _ E) as (n' & -> & K); eauto.
  all: destruct nd as [mode uid| |]; try discriminate;
    destruct (Hext _ _ E) as (n' & -> & K); cbn in K; subst n';
    (destruct (negb (permitted P mode uid 1)); [discriminate |]);
    (destruct (_ || _); [apply IHc |]);
    (destruct (String.eqb c ".."); [apply IHc |]); cbv zeta;
    (destruct (m !! (cur ++ [c])%list) as [nd|] eqn:E2;
      [| destruct rest; discriminate]);
    destruct (Hext _ _ E2) as (n2 & -> & K2);
    (destruct nd as [mo ui|mo ui da|t]; cbn in K2;
      [ subst n2; apply IHc
      | destruct K2 as (mo' & da' & ->); apply IHc
      | subst n2 ]);
    (destruct (match rest with [] => negb follow | _ => false end);
      [ intros [= <- <-]; eexists; split; [reflexivity | apply keeps_refl] |]);
    (destruct (String.eqb t EmptyString); [discriminate |]).
  - discriminate.
  - apply IHl.
Qed.

(** Where the last component is missing, nothing is there. *)
Lemma walk_absent links m follow :
  forall comps cur q parent,
    walk P links m follow cur comps = Absent q parent -> m !! q = None.
Proof.
  induction links as [|links IHl];
    (induction comps as [|c rest IHc]; intros cur q parent;
     [ rewrite (walk_eq _ m _ cur [])
     | rewrite (walk_eq _ m _ cur (c :: rest)) ];
     (destruct (m !! cur) as [nd|] eqn:E; [| discriminate])).
  1,3: discriminate.
  all: destruct nd as [mode uid| |]; try discriminate;
    (destruct (negb (permitted P mode uid 1)); [discriminate |]);
    (destruct (_ || _); [apply IHc |]);
    (destruct (String.eqb c ".."); [apply IHc |]); cbv zeta;
    (destruct (m !! (cur ++ [c])%list) as [nd|] eqn:E2;
      [| destruct rest; [intros [= <- <-]; exact E2 | discriminate]]);
    (destruct nd as [mo ui|mo ui da|t]; [apply IHc | apply IHc |]);
    (destruct (match rest with [] => negb follow | _ => false end);
      [discriminate |]);
    (destruct (String.eqb t EmptyString); [discriminate |]).
  - discriminate.
  - apply IHl.
Qed.
Lemma extends_insert_new m q n : m !! q = None -> extends m (<[q := n]> m).
Proof.
  intros H q' n' Hq'. exists n'. split; [| apply keeps_refl].
  rewrite lookup_insert_ne; [done | congruence].
Qed.

Lemma extends_insert_reg m q mode uid data mode' data' :
  m !! q = Some (Reg mode uid data) -> extends m (<[q := Reg mode' uid data']> m).
Proof.
  intros H q' n' Hq'. destruct (decide (q = q')) as [<- | Hne].
  - rewrite lookup_insert_eq. eexists; split; [reflexivity |].
    rewrite H in Hq'. injection Hq' as <-. cbn. eauto.
  - rewrite lookup_insert_ne by done. exists n'. split; [done | apply keeps_refl].
Qed.

Lemma resolve_extends m m' follow path q n :
  extends m m' -> resolve P m follow path = Found q n ->
  exists n', resolve P m' follow path = Found q n' /\ keeps n n'.
Proof.
  intros Hext. unfold resolve. destruct (String.eqb path EmptyString); [discriminate |].
  now apply walk_extends.
Qed.

Lemma walk_found links m follow :
  forall comps cur q n,
    walk P links m follow cur comps = Found q n -> m !! q = Some n.
Proof.
  induction links as [|links IHl];
    (induction comps as [|c rest IHc]; intros cur q n;
     [ rewrite (walk_eq _ m _ cur [])
     | rewrite (walk_eq _ m _ cur (c :: rest)) ];
     (destruct (m !! cur) as [nd|] eqn:E; [| discriminate])).
  1,3: now intros [= <- <-].
  all: destruct nd as [mode uid| |]; try discriminate;
    (destruct (negb (permitted P mode uid 1)); [discriminate |]);
    (destruct (_ || _); [apply IHc |]);
    (destruct (String.eqb c ".."); [apply IHc |]); cbv zeta;
    (destruct (m !! (cur ++ [c])%list) as [nd|] eqn:E2;
      [| destruct rest; discriminate]);
    (destruct nd as [mo ui|mo ui da|t]; [apply IHc | apply IHc |]);
    (destruct (match rest with [] => negb follow | _ => false end);
      [now intros [= <- <-] |]);
    (destruct (String.eqb t EmptyString); [discriminate |]).
  - discriminate.
  - apply IHl.
Qed.

Lemma resolve_found m follow path q n :
  resolve P m follow path = Found q n -> m !! q = Some n.
Proof.
  unfold resolve. destruct (String.eqb path EmptyString); [discriminate |].
  apply walk_found.
Qed.

Lemma stat_extends m m' path q n :
  extends m m' -> stat P m path = inr (q, n) ->
  exists n', stat P m' path = inr (q, n') /\ keeps n n'.
Proof.
  intros Hext. unfold stat.
  destruct (resolve P m true path) as [q0 n0| |] eqn:E; try discriminate.
  intros [= <- <-]. destruct (resolve_extends _ _ _ _ _ _ Hext E) as (n' & -> & K).
  eauto.
Qed.

Lemma lstat_extends m m' path q n :
  extends m m' -> lstat P m path = inr (q, n) ->
  exists n', lstat P m' path = inr (q, n') /\ keeps n n'.
Proof.
  intros Hext. unfold lstat.
  destruct (resolve P m false path) as [q0 n0| |] eqn:E; try discriminate.
  intros [= <- <-]. destruct (resolve_extends _ _ _ _ _ _ Hext E) as (n' & -> & K).
  eauto.
Qed.

Lemma resolve_absent m follow path q parent :
  resolve P m follow path = Absent q parent -> m !! q = None.
Proof.
  unfold resolve. destruct (String.eqb path EmptyString); [discriminate |].
  apply walk_absent.
Qed.

Lemma create_extends m path n : extends m (state_of (create P m path n)).
Proof.
  unfold create. destruct (resolve P m false path) as [q0 n0|q0 parent|e] eqn:E; cbn;
    try apply extends_refl.
  destruct (may P 2 parent); cbn; [| apply extends_refl].
  apply extends_insert_new. eapply resolve_absent; eauto.
Qed.

Lemma chmod_regular_extends m path mode q n :
  stat P m path = inr (q, n) -> is_regular n = true ->
  extends m (state_of (chmod P m path mode)).
Proof.
  unfold stat, chmod. destruct (resolve P m true path) as [q0 n0| |] eqn:E; try discriminate.
  intros [= <- <-] Hreg. destruct n0 as [| mo ui da |]; try discriminate.
  destruct (owns P _); cbn; [| apply extends_refl].
  eapply extends_insert_reg. eapply resolve_found; eauto.
Qed.

Lemma open_write_extends m path c t r perm m' fd :
  open_write P m path c t r perm = inr (m', fd) ->
  extends m m' /\ exists mode uid data, m' !! fd = Some (Reg mode uid data).
Proof.
  unfold open_write. destruct (resolve P m true path) as [q0 n0|q0 parent|e] eqn:E;
    try discriminate.
  - destruct n0 as [| mo ui da |]; try discriminate.
    destruct (_ && _); [| discriminate]. intros [= <- <-].
    pose proof (resolve_found _ _ _ _ _ E) as Hq.
    destruct t.
    + split; [eapply extends_insert_reg; eauto |].
      rewrite lookup_insert_eq. eauto.
    + split; [apply extends_refl | eauto].
  - destruct c; [| discriminate]. destruct (may P 2 parent); [| discriminate].
    intros [= <- <-]. split.
    + apply extends_insert_new. eapply resolve_absent; eauto.
    + rewrite lookup_insert_eq. eauto.
Qed.

Lemma write_start_extends m fd data : extends m (write_start m fd data).
Proof.
  unfold write_start. destruct (m !! fd) as [[| mo ui old |]|] eqn:E;
    try apply extends_refl.
  eapply extends_insert_reg; eauto.
Qed.

Lemma MkdirAllN_extends n : forall path perm m,
  extends m (state_of (MkdirAllN P n path perm m)).
Proof.
  induction n as [|n IH]; intros path perm m; cbn [MkdirAllN].
  - destruct (stat P m path) as [e|[q nd]]; [apply extends_refl |].
    destruct (is_dir nd); apply extends_refl.
  - destruct (stat P m path) as [e|[q nd]];
      [| destruct (is_dir nd); apply extends_refl].
    assert (Hup : exists up, (match parent_of path with
                              | Some parent => MkdirAllN P n parent perm m
                              | None => Done m end) = up
                             /\ extends m (state_of up)).
    { eexists; split; [reflexivity |].
      destruct (parent_of path); [apply IH | apply extends_refl]. }
    destruct Hup as (up & -> & Hup).
    destruct up as [m1 | m1 e1]; [| exact Hup]. cbn in Hup.
    pose proof (create_extends m1 path
                  (Dir (Z.ldiff (Z.land perm (octal "7777")) (umask P)) (euid P))) as Hc.
    fold (mkdir P m1 path perm) in Hc.
    destruct (mkdir P m1 path perm) as [m2 | m2 e2]; cbn in Hc.
    + eapply extends_trans; eauto.
    + assert (extends m m2) by (eapply extends_trans; eauto).
      destruct (lstat P m2 path) as [e3|[q nd]]; [done |].
      now destruct (is_dir nd).
Qed.
Lemma alike_refl n : alike P n n.
Proof. destruct n; cbn; auto. Qed.

Lemma similar_refl m : similar P m m.
Proof. intros q. destruct (m !! q); [apply alike_refl | exact I]. Qed.

Lemma alike_trans a b c : alike P a b -> alike P b c -> alike P a c.
Proof.
  destruct a, b, c; cbn; try tauto; try congruence.
  intros [-> E1] [-> E2]. split; congruence.
Qed.

Lemma similar_trans a b c : similar P a b -> similar P b c -> similar P a c.
Proof.
  intros H1 H2 q. specialize (H1 q). specialize (H2 q).
  destruct (a !! q), (b !! q), (c !! q); try tauto.
  eapply alike_trans; eauto.
Qed.

(** A walk ends alike in two similar file systems. *)
Lemma walk_similar links m m' follow :
  similar P m m' ->
  forall comps cur,
    same_end P (walk P links m follow cur comps) (walk P links m' follow cur comps).
Proof.
  intros Hsim. induction links as [|links IHl];
    (induction comps as [|c rest IHc]; intros cur;
     [ rewrite (walk_eq _ m _ cur []), (walk_eq _ m' _ cur [])
     | rewrite (walk_eq _ m _ cur (c :: rest)), (walk_eq _ m' _ cur (c :: rest)) ];
     (pose proof (Hsim cur) as Hc;
      destruct (m !! cur) as [nd|], (m' !! cur) as [nd'|]; try tauto;
      [| reflexivity])).
  1,3: split; [reflexivity | exact Hc].
  all: destruct nd as [mode uid| |], nd' as [mode' uid'| |]; cbn in Hc; try tauto;
    try reflexivity;
    destruct Hc as [-> Hx]; rewrite Hx;
    (destruct (negb (permitted P mode uid 1)); [reflexivity |]);
    (destruct (_ || _); [apply IHc |]);
    (destruct (String.eqb c ".."); [apply IHc |]); cbv zeta;
    pose proof (Hsim (cur ++ [c])%list) as Hq;
    (destruct (m !! (cur ++ [c])%list) as [nd|], (m' !! (cur ++ [c])%list) as [nd'|];
       try tauto;
       [| destruct rest; [split; [reflexivity | cbn; auto] | reflexivity]]);
    (destruct nd as [mo ui|mo ui da|t], nd' as [mo' ui'|mo' ui' da'|t']; cbn in Hq;
       try tauto; try apply IHc);
    subst t';
    (destruct (match rest with [] => negb follow | _ => false end);
      [split; [reflexivity | reflexivity] |]);
    (destruct (String.eqb t EmptyString); [reflexivity |]).
  - reflexivity.
  - apply IHl.
Qed.

Lemma resolve_similar m m' follow path :
  similar P m m' -> same_end P (resolve P m follow path) (resolve P m' follow path).
Proof.
  intros H. unfold resolve. destruct (String.eqb path EmptyString); [reflexivity |].
  now apply walk_similar.
Qed.

(** The node put where a walk found the last component missing is what the
    same walk finds afterwards. *)
Lemma walk_absent_insert links m follow n :
  (forall t, n <> Lnk t) ->
  forall comps cur q parent,
    walk P links m follow cur comps = Absent q parent ->
    walk P links (<[q := n]> m) follow cur comps = Found q n.
Proof.
  intros Hn. induction links as [|links IHl];
    (induction comps as [|c rest IHc]; intros cur q parent Hw;
     pose proof (walk_absent _ _ _ _ _ _ _ Hw) as Hq; revert Hw;
     [ rewrite (walk_eq _ m _ cur [])
     | rewrite (walk_eq _ m _ cur (c :: rest)),
               (walk_eq _ (<[q := n]> m) _ cur (c :: rest)) ];
     (destruct (m !! cur) as [nd|] eqn:E; [| discriminate])).
  1,3: discriminate.
  all: destruct nd as [mode uid| |]; try discriminate;
    assert (Hcur : <[q := n]> m !! cur = Some (Dir mode uid)) by
      (rewrite lookup_insert_ne; [exact E | congruence]);
    rewrite Hcur;
    (destruct (negb (permitted P mode uid 1)); [discriminate |]);
    (destruct (_ || _); [apply IHc |]);
    (destruct (String.eqb c ".."); [apply IHc |]); cbv zeta;
    (destruct (m !! (cur ++ [c])%list) as [nd|] eqn:E2).
  all: try (destruct rest; [| discriminate]; intros [= <- <-];
            rewrite lookup_insert_eq;
            destruct n as [mo ui|mo ui da|t]; [| | now elim (Hn t)];
            now rewrite (walk_eq _ _ _ _ []), lookup_insert_eq).
  all: assert (Hq2 : <[q := n]> m !! (cur ++ [c])%list = Some nd) by
         (rewrite lookup_insert_ne; [exact E2 | congruence]);
       rewrite Hq2;
       (destruct nd as [mo ui|mo ui da|t]; [apply IHc | apply IHc |]);
       (destruct (match rest with [] => negb follow | _ => false end);
         [discriminate |]);
       (destruct (String.eqb t EmptyString); [discriminate |]).
  - discriminate.
  - apply IHl.
Qed.

(** A walk that ends on a node that is no link does not depend on whether
    a last link would be followed. *)
Lemma walk_follow_irrelevant links m :
  forall comps cur q n,
    (forall t, n <> Lnk t) ->
    walk P links m false cur comps = Found q n ->
    walk P links m true cur comps = Found q n.
Proof.
  induction links as [|links IHl];
    (induction comps as [|c rest IHc]; intros cur q n Hn;
     [ rewrite (walk_eq _ m false cur []), (walk_eq _ m true cur [])
     | rewrite (walk_eq _ m false cur (c :: rest)), (walk_eq _ m true cur (c :: rest)) ];
     (destruct (m !! cur) as [nd|] eqn:E; [| discriminate])).
  1,3: done.
  all: destruct nd as [mode uid| |]; try discriminate;
    (destruct (negb (permitted P mode uid 1)); [discriminate |]);
    (destruct (_ || _); [now apply IHc |]);
    (destruct (String.eqb c ".."); [now apply IHc |]); cbv zeta;
    (destruct (m !! (cur ++ [c])%list) as [nd|] eqn:E2;
      [| destruct rest; discriminate]);
    (destruct nd as [mo ui|mo ui da|t]; [now apply IHc | now apply IHc |]);
    (destruct rest as [|c' rest'];
      [ cbn [negb]; intros [= <- <-]; now elim (Hn t) |]);
    (destruct (String.eqb t EmptyString); [discriminate |]).
  - discriminate.
  - now apply IHl.
Qed.

Lemma similar_insert_reg m q mode uid data mode' data' :
  m !! q = Some (Reg mode uid data) -> similar P m (<[q := Reg mode' uid data']> m).
Proof.
  intros H q'. destruct (decide (q = q')) as [<- | Hne].
  - rewrite H, lookup_insert_eq. reflexivity.
  - rewrite lookup_insert_ne by done. destruct (m !! q'); [apply alike_refl | exact I].
Qed.

(** What a path names in a similar file system. *)
Lemma resolve_found_similar m m' follow path q n :
  similar P m m' -> resolve P m follow path = Found q n ->
  exists n', resolve P m' follow path = Found q n' /\ m' !! q = Some n' /\ alike P n n'.
Proof.
  intros Hsim Hr. pose proof (resolve_similar m m' follow path Hsim) as Hs.
  rewrite Hr in Hs. destruct (resolve P m' follow path) as [q' n'| |] eqn:E; try done.
  destruct Hs as [-> Ha]. exists n'. split; [done |]. split; [| done].
  eapply resolve_found; eauto.
Qed.

Lemma stat_found m path q n : stat P m path = inr (q, n) -> resolve P m true path = Found q n.
Proof. unfold stat. destruct (resolve P m true path); congruence. Qed.

Lemma stat_of_resolve m path q n : resolve P m true path = Found q n -> stat P m path = inr (q, n).
Proof. unfold stat. now intros ->. Qed.

Lemma resolve_absent_insert m follow path q parent n :
  (forall t, n <> Lnk t) ->
  resolve P m follow path = Absent q parent ->
  resolve P (<[q := n]> m) true path = Found q n.
Proof.
  intros Hn. unfold resolve. destruct (String.eqb path EmptyString); [discriminate |].
  intros Hw. apply (walk_absent_insert _ _ _ n Hn) in Hw.
  destruct follow; [exact Hw |]. now apply walk_follow_irrelevant.
Qed.

Lemma resolve_follow_irrelevant m path q n :
  (forall t, n <> Lnk t) ->
  resolve P m false path = Found q n -> resolve P m true path = Found q n.
Proof.
  intros Hn. unfold resolve. destruct (String.eqb path EmptyString); [discriminate |].
  now apply walk_follow_irrelevant.
Qed.

(** [MkdirAll] leaves a directory at its path when it succeeds. *)
Lemma MkdirAllN_post n : forall path perm m m',
  MkdirAllN P n path perm m = Done m' ->
  exists q mode uid, stat P m' path = inr (q, Dir mode uid).
Proof.
  induction n as [|n IH]; intros path perm m m'; cbn [MkdirAllN].
  - destruct (stat P m path) as [e|[q nd]] eqn:E; [discriminate |].
    destruct nd; cbn; try discriminate. intros [= <-]. eauto.
  - destruct (stat P m path) as [e|[q nd]] eqn:E.
    2:{ destruct nd; cbn; try discriminate. intros [= <-]. eauto. }
    destruct (match parent_of path with
              | Some parent => MkdirAllN P n parent perm m
              | None => Done m end) as [m1 | m1 e1]; [| discriminate].
    unfold mkdir, create.
    destruct (resolve P m1 false path) as [q0 n0|q0 parent|e0] eqn:R.
    + cbn. unfold lstat. rewrite R. destruct n0; cbn; try discriminate.
      intros [= <-]. eexists _, _, _. apply stat_of_resolve.
      apply resolve_follow_irrelevant; [discriminate | exact R].
    + destruct (may P 2 parent).
      * intros [= <-]. eexists _, _, _. apply stat_of_resolve.
        eapply resolve_absent_insert; [discriminate | exact R].
      * unfold lstat. rewrite R. discriminate.
    + unfold lstat. rewrite R. discriminate.
Qed.

Lemma write_start_fresh m q mode uid s :
  write_start (<[q := Reg mode uid EmptyString]> m) q s = <[q := Reg mode uid s]> m.
Proof.
  unfold write_start. rewrite lookup_insert_eq, insert_insert_eq.
  cbn [list_ascii_of_string]. rewrite drop_nil. cbn [string_of_list_ascii].
  f_equal. f_equal. induction s as [|c s IH]; cbn; [done | now rewrite IH].
Qed.

Lemma owns_alike n n' : alike P n n' -> owns P n' = owns P n.
Proof. destruct n, n'; cbn; try tauto; [intros [-> _] | intros ->]; reflexivity. Qed.

(** What [makeFile] leaves when it succeeds: the path names a regular file
    that holds the text and that the caller may chmod; no other node has
    changed. *)
Lemma makeFile_post name perm s m m' :
  makeFile P name perm s m = Done m' ->
  exists q mode uid,
    stat P m' name = inr (q, Reg mode uid s)
    /\ owns P (Reg mode uid s) = true
    /\ forall q', q' <> q -> m' !! q' = m !! q'.
Proof.
  unfold makeFile, IsFile.
  destruct (stat P m name) as [e|[q n]] eqn:Hst.
  - (* no such file: it is created *)
    unfold open_write.
    destruct (resolve P m true name) as [q0 n0|q0 parent|e0] eqn:R.
    + apply stat_of_resolve in R. congruence.
    + destruct (may P 2 parent); [| discriminate].
      intros [= <-]. rewrite write_start_fresh.
      set (pm := Z.ldiff _ _).
      assert (R2 : resolve P (<[q0 := Reg pm (euid P) EmptyString]> m) true name
                   = Found q0 (Reg pm (euid P) EmptyString))
        by (eapply resolve_absent_insert; [discriminate | exact R]).
      assert (Hsim : similar P (<[q0 := Reg pm (euid P) EmptyString]> m)
                       (<[q0 := Reg pm (euid P) s]> (<[q0 := Reg pm (euid P) EmptyString]> m)))
        by (eapply similar_insert_reg; apply lookup_insert_eq).
      rewrite insert_insert_eq in Hsim.
      destruct (resolve_found_similar _ _ _ _ _ _ Hsim R2) as (n' & R3 & L3 & _).
      rewrite lookup_insert_eq in L3. injection L3 as <-.
      exists q0, pm, (euid P). split; [now apply stat_of_resolve |].
      split; [cbn; now rewrite Nat.eqb_refl, orb_true_r |].
      intros q' Hne. now rewrite lookup_insert_ne.
    + discriminate.
  - destruct (is_regular n) eqn:Hreg.
    + (* the file exists: chmod, truncate, write *)
      destruct n as [|mo ui da|]; try discriminate.
      pose proof (stat_found _ _ _ _ Hst) as R.
      pose proof (resolve_found _ _ _ _ _ R) as L.
      unfold chmod. rewrite R. destruct (owns P (Reg mo ui da)) eqn:Hown; [| discriminate].
      cbn [with_mode]. set (pm := Z.land perm _). set (m1 := <[q := Reg pm ui da]> m).
      assert (S1 : similar P m m1) by (eapply similar_insert_reg; exact L).
      destruct (resolve_found_similar _ _ _ _ _ _ S1 R) as (n1 & R1 & L1 & _).
      subst m1. rewrite lookup_insert_eq in L1. injection L1 as <-.
      unfold open_write. rewrite R1.
      destruct (_ && _); [| discriminate]. intros [= <-].
      rewrite write_start_fresh, insert_insert_eq.
      assert (S2 : similar P m (<[q := Reg pm ui s]> m))
        by (eapply similar_insert_reg; exact L).
      destruct (resolve_found_similar _ _ _ _ _ _ S2 R) as (n2 & R2 & L2 & _).
      rewrite lookup_insert_eq in L2. injection L2 as <-.
      exists q, pm, ui. split; [now apply stat_of_resolve |].
      split; [exact Hown |]. intros q' Hne. now rewrite lookup_insert_ne.
    + (* something else is there *)
      unfold open_write. pose proof (stat_found _ _ _ _ Hst) as R. rewrite R.
      destruct n; discriminate.
Qed.

(** [makeFile] on a regular file that the caller may chmod, with a mode
    that lets the owner write: the file gets the mode and the text. *)
Lemma makeFile_again name perm s m q mode uid data :
  stat P m name = inr (q, Reg mode uid data) ->
  owns P (Reg mode uid data) = true ->
  Z.testbit (Z.land perm (octal "7777")) 7 = true ->
  makeFile P name perm s m = Done (<[q := Reg (Z.land perm (octal "7777")) uid s]> m).
Proof.
  intros Hst Hown Hbit. unfold makeFile, IsFile. rewrite Hst. cbn [is_regular].
  pose proof (stat_found _ _ _ _ Hst) as R.
  pose proof (resolve_found _ _ _ _ _ R) as L.
  unfold chmod. rewrite R, Hown. cbn [with_mode].
  set (pm := Z.land perm _) in *. set (m1 := <[q := Reg pm uid data]> m).
  assert (S1 : similar P m m1) by (eapply similar_insert_reg; exact L).
  destruct (resolve_found_similar _ _ _ _ _ _ S1 R) as (n1 & R1 & L1 & _).
  subst m1. rewrite lookup_insert_eq in L1. injection L1 as <-.
  unfold open_write. rewrite R1.
  assert (Hw : permitted P pm uid 2 = true).
  { unfold permitted, class_bits. cbn in Hown.
    destruct (euid P =? 0)%nat; [reflexivity |]. cbn in Hown. rewrite Hown. cbn.
    apply negb_true_iff, Z.eqb_neq. intros Hz.
    assert (Hb : Z.testbit (Z.land (Z.land (Z.shiftr pm 6) 7) 2) 1 = true).
    { rewrite !Z.land_spec, Z.shiftr_spec by lia. change (1 + 6) with 7.
      rewrite Hbit. reflexivity. }
    rewrite Hz in Hb. discriminate. }
  rewrite Hw. cbn [negb orb andb].
  now rewrite write_start_fresh, insert_insert_eq.
Qed.

Lemma each_extends {A} (f : A -> gmap (list string) node -> outcome) l :
  (forall a m, extends m (state_of (f a m))) ->
  forall m, extends m (state_of (each f l m)).
Proof.
  intros Hf. induction l as [|a l IH]; intros m; cbn [each].
  - apply extends_refl.
  - specialize (Hf a m). destruct (f a m) as [m' | m' e]; [| exact Hf].
    eapply extends_trans; [exact Hf | apply IH].
Qed.

Lemma each_app {A} (f : A -> gmap (list string) node -> outcome) l1 l2 m :
  each f (l1 ++ l2) m =
    match each f l1 m with
    | Done m' => each f l2 m'
    | Failed m' e => Failed m' e
    end.
Proof.
  revert m. induction l1 as [|a l1 IH]; intros m; cbn [each app]; [reflexivity |].
  destruct (f a m); [apply IH | reflexivity].
Qed.

Lemma makeDirs_extends rootPath m : extends m (state_of (makeDirs P rootPath m)).
Proof. apply each_extends. intros a m'. apply MkdirAllN_extends. Qed.

Lemma makeSymlink_extends rootPath l m :
  extends m (state_of (makeSymlink P rootPath l m)).
Proof.
  unfold makeSymlink. destruct (stat P m _); [apply create_extends | apply extends_refl].
Qed.

Lemma makeSymlinks_extends rootPath m :
  extends m (state_of (makeSymlinks P rootPath m)).
Proof. apply each_extends. intros a m'. apply makeSymlink_extends. Qed.

Lemma makeFile_extends name perm s m :
  extends m (state_of (makeFile P name perm s m)).
Proof.
  unfold makeFile.
  assert (Hfix : extends m (state_of (if IsFile P m name then chmod P m name perm
                                      else Done m))).
  { unfold IsFile. destruct (stat P m name) as [e|[q n]] eqn:E; [apply extends_refl |].
    destruct (is_regular n) eqn:R; [| apply extends_refl].
    eapply chmod_regular_extends; eauto. }
  destruct (if IsFile P m name then _ else _) as [m1 | m1 e]; [| exact Hfix].
  cbn in Hfix.
  destruct (open_write P m1 name true true false perm) as [e|[m2 f]] eqn:E; [exact Hfix |].
  apply open_write_extends in E as [E _]. cbn.
  eapply extends_trans; [exact Hfix |].
  eapply extends_trans; [exact E | apply write_start_extends].
Qed.

Lemma makeFiles_extends rootPath m : extends m (state_of (makeFiles P rootPath m)).
Proof. apply each_extends. intros a m'. apply makeFile_extends. Qed.

End Facts.

End FSFacts.

(** ** The base environment *)

Module ScaffoldFacts.
Import GoStr Path FS FSPred Os Scaffold FSFacts ScaffoldPred.

(** A link whose target cannot be reached makes [makeSymlink] fail: the
    check follows the link, the creation finds the path occupied. *)
Lemma makeSymlink_dangling P rootPath l m :
  dangling P m (Join [rootPath; snd l]) ->
  makeSymlink P rootPath l m = Failed m EEXIST.
Proof.
  intros [(q & t & Hl) (e & Hs)]. unfold makeSymlink. rewrite Hs.
  unfold symlink, create. unfold lstat in Hl.
  destruct (resolve P m false (Join [rootPath; snd l])); try discriminate.
  reflexivity.
Qed.

(** C10, as stated, fails: [/b/apptainer] is a link to [tmp], which does not
    exist before [makeBaseEnv] runs; [makeDirs] creates [/b/tmp], the check
    of [makeSymlinks] then succeeds, [makeBaseEnv] returns no error and the
    link is left as it was. *)
Lemma makeBaseEnv_link_to_tmp_counterexample :
  dangling user bundle_link_to_tmp (Join ["/b"; "apptainer"])
  /\ succeeded (makeBaseEnv user "/b" bundle_link_to_tmp) = true
  /\ final (makeBaseEnv user "/b" bundle_link_to_tmp) !! ["b"; "apptainer"]
     = Some (Lnk "tmp").
Proof.
  split; [split |].
  - exists ["b"; "apptainer"], "tmp". vm_compute. reflexivity.
  - exists ENOENT. vm_compute. reflexivity.
  - split; vm_compute; reflexivity.
Qed.

Lemma danglingb_spec P m path : danglingb P m path = true -> dangling P m path.
Proof.
  unfold danglingb, dangling.
  destruct (lstat P m path) as [e|[q [| |t]]]; try discriminate.
  destruct (stat P m path) as [e|]; [| discriminate]. eauto.
Qed.

(** C10, amended: if one of the six scaffold link paths is occupied by a
    symbolic link whose target does not exist at the moment [makeSymlinks]
    examines that path (after the directories and the links before it have
    been made), [makeBaseEnv] returns an error, that of the link creation
    which finds the path occupied, and the file system stays as it was at
    that moment, the link included. *)
Theorem makeBaseEnv_dangling_link (P : proc) (rootPath : string)
    (m : gmap (list string) node) (before after : list (string * string))
    (l : string * string) :
  scaffold_links = (before ++ l :: after)%list ->
  dangles_when_examined P rootPath m before l = true ->
  exists m',
    state_before_link P rootPath m before = Some m'
    /\ makeBaseEnv P rootPath m
       = Error m' "build: failed to make environment symlinks" EEXIST.
Proof.
  intros Hl Hd. unfold dangles_when_examined in Hd.
  destruct (state_before_link P rootPath m before) as [m'|] eqn:Hst; [| discriminate].
  apply danglingb_spec in Hd. exists m'. split; [reflexivity |].
  unfold state_before_link in Hst. unfold makeBaseEnv.
  destruct (stat P m rootPath) as [e|[q info]]; [discriminate |].
  destruct (ensure_writable P rootPath info m) as [m1|]; [| discriminate].
  destruct (makeDirs P rootPath m1) as [m2|]; [| discriminate].
  unfold makeSymlinks. rewrite Hl, each_app.
  destruct (each (makeSymlink P rootPath) before m2) as [m3|]; [| discriminate].
  injection Hst as ->. cbn [each].
  now rewrite (makeSymlink_dangling P rootPath l m' Hd).
Qed.

(** [/b/.run] is a link to a name that does not exist: no scaffold at all. *)
Lemma makeBaseEnv_dangling_link_witness :
  succeeded (makeBaseEnv user "/b" bundle_link_to_nowhere) = false.
Proof.
  destruct (makeBaseEnv_dangling_link user "/b" bundle_link_to_nowhere
              [(".apptainer.d/runscript", "apptainer")]
              [(".apptainer.d/actions/exec", ".exec");
               (".apptainer.d/actions/test", ".test");
               (".apptainer.d/actions/shell", ".shell");
               (".apptainer.d/env/90-environment.sh", "environment")]
              (".apptainer.d/actions/run", ".run")
              eq_refl ltac:(vm_compute; reflexivity)) as (m' & _ & ->).
  reflexivity.
Defined.

(** A directory is the same in every larger file system. *)
Lemma extends_dir m m' q mode uid :
  extends m m' -> m !! q = Some (Dir mode uid) -> m' !! q = Some (Dir mode uid).
Proof. intros H E. destruct (H _ _ E) as (n' & -> & K). cbn in K. now subst. Qed.

Lemma lor_owner_write_bits mode i :
  i <> 7 -> Z.testbit (Z.lor mode (octal "200")) i = Z.testbit mode i.
Proof.
  intros Hi. rewrite Z.lor_spec. change (octal "200") with (2 ^ 7).
  destruct (Z.ltb_spec i 0) as [Hneg | Hpos].
  - now rewrite !Z.testbit_neg_r by lia.
  - rewrite Z.pow2_bits_false by lia. apply orb_false_r.
Qed.

Lemma land_mode_bits mode :
  0 <= mode < 4096 -> Z.land (Z.lor mode (octal "200")) (octal "7777") = Z.lor mode (octal "200").
Proof.
  intros H. change (octal "7777") with (Z.ones 12). rewrite Z.land_ones by lia.
  apply Z.mod_small. split.
  - apply Z.lor_nonneg. split; [lia | now vm_compute].
  - change 4096 with (2 ^ 12) in *.
    destruct (Z.eq_dec (Z.lor mode (octal "200")) 0) as [-> | Hnz]; [reflexivity |].
    apply Z.log2_lt_pow2.
    + assert (0 <= Z.lor mode (octal "200"))
        by (apply Z.lor_nonneg; split; [lia | now vm_compute]). lia.
    + rewrite Z.log2_lor by (try lia; now vm_compute).
      apply Z.max_lub_lt; [| now vm_compute].
      destruct (Z.eq_dec mode 0) as [-> | Hm]; [now vm_compute |].
      apply Z.log2_lt_pow2; lia.
Qed.

(** What [makeBaseEnv] does once [rootPath] is writable keeps every
    directory as it is. *)
Lemma after_writable_extends P rootPath m1 :
  extends m1
    (final
       match makeDirs P rootPath m1 with
       | Failed m2 e => Error m2 "build: failed to make environment dirs" e
       | Done m2 =>
           match makeSymlinks P rootPath m2 with
           | Failed m3 e => Error m3 "build: failed to make environment symlinks" e
           | Done m3 =>
               match makeFiles P rootPath m3 with
               | Failed m4 e => Error m4 "build: failed to make environment files" e
               | Done m4 => Ok m4
               end
           end
       end).
Proof.
  pose proof (makeDirs_extends P rootPath m1) as E2.
  destruct (makeDirs P rootPath m1) as [m2 | m2 e2]; cbn in E2; [| exact E2].
  pose proof (makeSymlinks_extends P rootPath m2) as E3.
  destruct (makeSymlinks P rootPath m2) as [m3 | m3 e3]; cbn in E3;
    [| cbn; eapply extends_trans; eauto].
  pose proof (makeFiles_extends P rootPath m3) as E4.
  destruct (makeFiles P rootPath m3) as [m4 | m4 e4]; cbn in E4; cbn;
    (eapply extends_trans; [exact E2 |]);
    (eapply extends_trans; [exact E3 | exact E4]).
Qed.

(** C8: [rootPath] is a directory whose mode lacks the owner-write bit.
    When the caller may not change the mode, [makeBaseEnv] returns the error
    of the permission change.  When the caller may, the step does not
    fail: the directory gets the mode with the owner-write bit added, and
    whatever [makeBaseEnv] does afterwards, that is the mode of [rootPath] in
    the end; it differs from the old mode in the owner-write bit only. *)
Theorem makeBaseEnv_owner_write (P : proc) (rootPath : string)
    (m : gmap (list string) node) (q : list string) (mode : Z) (uid : nat) :
  stat P m rootPath = inr (q, Dir mode uid) ->
  0 <= mode < 4096 ->
  Z.land mode (octal "200") = 0 ->
  (owns P (Dir mode uid) = false ->
     makeBaseEnv P rootPath m = Error m "build: failed to make rootPath writable" EPERM)
  /\ (owns P (Dir mode uid) = true ->
        ensure_writable P rootPath (Dir mode uid) m
        = Done (<[q := Dir (Z.lor mode (octal "200")) uid]> m)
        /\ final (makeBaseEnv P rootPath m) !! q
           = Some (Dir (Z.lor mode (octal "200")) uid)
        /\ forall i, i <> 7 ->
             Z.testbit (Z.lor mode (octal "200")) i = Z.testbit mode i).
Proof.
  intros Hstat Hmode Hbit.
  assert (Hres : resolve P m true rootPath = Found q (Dir mode uid)).
  { unfold stat in Hstat. destruct (resolve P m true rootPath); congruence. }
  assert (Hens : ensure_writable P rootPath (Dir mode uid) m
                 = if owns P (Dir mode uid)
                   then Done (<[q := Dir (Z.lor mode (octal "200")) uid]> m)
                   else Failed m EPERM).
  { unfold ensure_writable. cbn [perm_of]. rewrite Hbit. cbn [Z.eqb].
    unfold chmod. rewrite Hres. cbn [with_mode].
    now rewrite (land_mode_bits mode Hmode). }
  split.
  - intros Hown. unfold makeBaseEnv. rewrite Hstat, Hens, Hown. reflexivity.
  - intros Hown. rewrite Hown in Hens. split; [exact Hens |].
    split; [| intros i; apply lor_owner_write_bits].
    unfold makeBaseEnv. rewrite Hstat, Hens.
    set (m1 := <[q := Dir (Z.lor mode (octal "200")) uid]> m).
    assert (H1 : m1 !! q = Some (Dir (Z.lor mode (octal "200")) uid))
      by (subst m1; apply lookup_insert_eq).
    eapply extends_dir; [apply after_writable_extends | exact H1].
Qed.

(** The bundle directory [/b] has mode 0555: its owner gets mode 0755 and a
    scaffold; somebody else gets the error. *)
Lemma makeBaseEnv_owner_write_witness :
  final (makeBaseEnv user "/b" bundle) !! ["b"] = Some (Dir (octal "755") 1000)
  /\ succeeded (makeBaseEnv user "/b" bundle_of_other) = false.
Proof.
  split.
  - refine (proj1 (proj2 (proj2
      (makeBaseEnv_owner_write user "/b" bundle ["b"] (octal "555") 1000 _ _ _) _)));
      first [reflexivity | now vm_compute].
  - rewrite (proj1 (makeBaseEnv_owner_write user "/b" bundle_of_other ["b"]
                      (octal "555") 0 ltac:(reflexivity) ltac:(now vm_compute)
                      ltac:(reflexivity)) ltac:(reflexivity)).
    reflexivity.
Defined.

(** *** Running [makeBaseEnv] again *)

Section Again.
Variable P : proc.

Lemma makeFiles_tasks rootPath m :
  makeFiles P rootPath m = each (make P) (file_tasks rootPath) m.
Proof.
  unfold makeFiles, file_tasks. generalize scaffold_files. intros l. revert m.
  induction l as [|f l IH]; intros m; cbn [each map]; [reflexivity |].
  unfold make at 1. cbn [fst snd].
  destruct (makeFile P _ _ _ m); [apply IH | reflexivity].
Qed.

(** What holds after each element's own call, and goes on holding in a
    larger file system, holds for every element at the end. *)
Lemma each_post {A} (f : A -> gmap (list string) node -> outcome)
    (Q : A -> gmap (list string) node -> Prop) :
  (forall a m m', f a m = Done m' -> Q a m') ->
  (forall a m m', extends m m' -> Q a m -> Q a m') ->
  (forall a m, extends m (state_of (f a m))) ->
  forall l m m', each f l m = Done m' -> forall a, a ∈ l -> Q a m'.
Proof.
  intros Hpost Hmono Hext. induction l as [|a0 l IH]; intros m m' Hrun a Hin.
  - now apply elem_of_nil in Hin.
  - cbn [each] in Hrun. destruct (f a0 m) as [ma | ma e] eqn:E; [| discriminate].
    apply elem_of_cons in Hin as [-> | Hin]; [| eapply IH; eauto].
    eapply Hmono; [| eapply Hpost; exact E].
    pose proof (each_extends f l Hext ma) as Hx. now rewrite Hrun in Hx.
Qed.

Lemma each_noop {A} (f : A -> gmap (list string) node -> outcome) l m :
  (forall a, a ∈ l -> f a m = Done m) -> each f l m = Done m.
Proof.
  induction l as [|a l IH]; intros H; cbn [each]; [reflexivity |].
  rewrite (H a) by left. apply IH. intros b Hb. apply H. now right.
Qed.

Lemma MkdirAll_noop path perm m q mode uid :
  stat P m path = inr (q, Dir mode uid) -> MkdirAll P path perm m = Done m.
Proof. intros H. unfold MkdirAll. cbn [MkdirAllN]. now rewrite H. Qed.

Lemma files_ready_similar m m' tasks :
  similar P m m' -> files_ready P m tasks -> files_ready P m' tasks.
Proof.
  intros Hsim H t Ht. destruct (H t Ht) as (q & mo & ui & da & Hst & Hown).
  apply stat_found in Hst.
  destruct (resolve_found_similar P _ _ _ _ _ _ Hsim Hst) as (n' & R & _ & Ha).
  destruct n' as [|mo' ui' da'|]; cbn in Ha; try tauto. subst ui'.
  exists q, mo', ui, da'. split; [now apply stat_of_resolve | exact Hown].
Qed.

(** Making files that are ready succeeds and changes regular files only. *)
Lemma each_make_again tasks :
  Forall (fun t => Z.testbit (Z.land (snd (fst t)) (octal "7777")) 7 = true) tasks ->
  forall m, files_ready P m tasks ->
    exists m', each (make P) tasks m = Done m' /\ similar P m m'.
Proof.
  induction 1 as [|t r Hbit _ IH]; intros m Hready; cbn [each].
  - exists m. split; [reflexivity | apply similar_refl].
  - destruct (Hready t ltac:(left)) as (q & mo & ui & da & Hst & Hown).
    unfold make at 1. rewrite (makeFile_again P _ _ _ _ _ _ _ _ Hst Hown Hbit).
    assert (Hsim : similar P m (<[q := Reg (Z.land (snd (fst t)) (octal "7777")) ui (snd t)]> m)).
    { eapply similar_insert_reg. eapply resolve_found, stat_found, Hst. }
    destruct (IH _ (files_ready_similar _ _ r Hsim
                      (fun t' Ht' => Hready t' ltac:(now right)))) as (m' & Hrun & Hs').
    exists m'. split; [exact Hrun | eapply similar_trans; eauto].
Qed.

Lemma make_extends t m : extends m (state_of (make P t m)).
Proof. apply makeFile_extends. Qed.

(** After the files have been made, each names a regular file that the
    caller may chmod, and every regular file holds the text of the last
    file made at its place, or what it held before. *)
Lemma each_make_texts tasks : forall m m',
  each (make P) tasks m = Done m' ->
  files_ready P m' tasks
  /\ forall q, data_at m' q
               = match last_text P m' tasks q with
                 | Some c => Some c
                 | None => data_at m q
                 end.
Proof.
  induction tasks as [|t r IH]; intros m m' Hrun.
  - cbn in Hrun. injection Hrun as <-. split; [| done].
    intros t Ht. now apply elem_of_nil in Ht.
  - cbn [each] in Hrun. destruct (make P t m) as [ma | ma e] eqn:E; [| discriminate].
    destruct (IH _ _ Hrun) as [Hready Htext].
    destruct (makeFile_post P _ _ _ _ _ E) as (q & mo & ui & Hst & Hown & Hframe).
    assert (Hx : extends ma m').
    { pose proof (each_extends (make P) r make_extends ma) as Hx.
      now rewrite Hrun in Hx. }
    destruct (stat_extends P _ _ _ _ _ Hx Hst) as (n' & Hst' & K).
    cbn in K. destruct K as (mo' & da' & ->).
    split.
    + intros t' [-> | Ht']%elem_of_cons; [| now apply Hready].
      exists q, mo', ui, da'. split; [exact Hst' | exact Hown].
    + intros q'. cbn [last_text]. rewrite Htext.
      destruct (last_text P m' r q'); [reflexivity |].
      rewrite Hst'. destruct (decide (q = q')) as [<- | Hne].
      * unfold data_at. now rewrite (resolve_found P _ _ _ _ _ (stat_found P _ _ _ _ Hst)).
      * unfold data_at. now rewrite (Hframe q' (not_eq_sym Hne)).
Qed.

Lemma stat_similar m m' path q n :
  similar P m m' -> stat P m path = inr (q, n) ->
  exists n', stat P m' path = inr (q, n') /\ m' !! q = Some n' /\ alike P n n'.
Proof.
  intros Hsim Hst. apply stat_found in Hst.
  destruct (resolve_found_similar P _ _ _ _ _ _ Hsim Hst) as (n' & R & L & Ha).
  exists n'. split; [now apply stat_of_resolve | done].
Qed.

Lemma similar_sym m m' : similar P m m' -> similar P m' m.
Proof.
  intros H q. specialize (H q). destruct (m !! q) as [n|], (m' !! q) as [n'|]; try tauto.
  destruct n, n'; cbn in *; try tauto; [destruct H as [-> ->]; auto | now subst | now subst].
Qed.

Lemma last_text_similar m m' tasks q :
  similar P m m' -> last_text P m' tasks q = last_text P m tasks q.
Proof.
  intros Hsim. induction tasks as [|t r IH]; cbn [last_text]; [reflexivity |].
  rewrite IH. destruct (last_text P m r q); [reflexivity |].
  destruct (stat P m (fst (fst t))) as [e|[q1 n1]] eqn:E.
  - destruct (stat P m' (fst (fst t))) as [e'|[q2 n2]] eqn:E'; [reflexivity |].
    destruct (stat_similar _ _ _ _ _ (similar_sym _ _ Hsim) E') as (n' & E2 & _).
    congruence.
  - destruct (stat_similar _ _ _ _ _ Hsim E) as (n' & -> & _). reflexivity.
Qed.

Lemma last_text_some m tasks t q n :
  t ∈ tasks -> stat P m (fst (fst t)) = inr (q, n) ->
  is_Some (last_text P m tasks q).
Proof.
  induction tasks as [|t0 r IH]; intros Hin Hst.
  - now apply elem_of_nil in Hin.
  - cbn [last_text]. apply elem_of_cons in Hin as [-> | Hin].
    + destruct (last_text P m r q); [eauto |]. rewrite Hst.
      rewrite decide_True by done. eauto.
    + destruct (IH Hin Hst) as [c ->]. eauto.
Qed.

Lemma last_perm_similar m m' tasks q :
  similar P m m' -> last_perm P m' tasks q = last_perm P m tasks q.
Proof.
  intros Hsim. induction tasks as [|t r IH]; cbn [last_perm]; [reflexivity |].
  rewrite IH. destruct (last_perm P m r q); [reflexivity |].
  destruct (stat P m (fst (fst t))) as [e|[q1 n1]] eqn:E.
  - destruct (stat P m' (fst (fst t))) as [e'|[q2 n2]] eqn:E'; [reflexivity |].
    destruct (stat_similar _ _ _ _ _ (similar_sym _ _ Hsim) E') as (n' & E2 & _).
    congruence.
  - destruct (stat_similar _ _ _ _ _ Hsim E) as (n' & -> & _). reflexivity.
Qed.

Lemma last_perm_some m tasks t q n :
  t ∈ tasks -> stat P m (fst (fst t)) = inr (q, n) ->
  is_Some (last_perm P m tasks q).
Proof.
  induction tasks as [|t0 r IH]; intros Hin Hst.
  - now apply elem_of_nil in Hin.
  - cbn [last_perm]. apply elem_of_cons in Hin as [-> | Hin].
    + destruct (last_perm P m r q); [eauto |]. rewrite Hst.
      rewrite decide_True by done. eauto.
    + destruct (IH Hin Hst) as [c ->]. eauto.
Qed.

(** When the files exist, making them again sets the mode of each to the
    one asked for. *)
Lemma each_make_again_modes tasks :
  Forall (fun t => Z.testbit (Z.land (snd (fst t)) (octal "7777")) 7 = true) tasks ->
  forall m m', files_ready P m tasks -> each (make P) tasks m = Done m' ->
    forall q, mode_at m' q
              = match last_perm P m tasks q with
                | Some p => Some (Z.land p (octal "7777"))
                | None => mode_at m q
                end.
Proof.
  induction 1 as [|t r Hbit _ IH]; intros m m' Hready Hrun; cbn [each] in Hrun.
  - injection Hrun as <-. reflexivity.
  - destruct (Hready t ltac:(left)) as (q & mo & ui & da & Hst & Hown).
    unfold make at 1 in Hrun.
    rewrite (makeFile_again P _ _ _ _ _ _ _ _ Hst Hown Hbit) in Hrun.
    assert (Hsim : similar P m (<[q := Reg (Z.land (snd (fst t)) (octal "7777")) ui (snd t)]> m)).
    { eapply similar_insert_reg. eapply resolve_found, stat_found, Hst. }
    pose proof (IH _ _ (files_ready_similar _ _ r Hsim
                          (fun t' Ht' => Hready t' ltac:(now right))) Hrun) as Hm.
    intros q'. rewrite Hm. cbn [last_perm].
    rewrite (last_perm_similar _ _ r q' Hsim).
    destruct (last_perm P m r q'); [reflexivity |].
    rewrite Hst. unfold mode_at. destruct (decide (q = q')) as [<- | Hne].
    + now rewrite lookup_insert_eq.
    + now rewrite lookup_insert_ne.
Qed.

Lemma testbit_one n : 0 <= n -> Z.testbit 1 n = (n =? 0).
Proof.
  intros Hn. destruct (Z.eqb_spec n 0) as [-> | Hne]; [reflexivity |].
  change 1 with (2 ^ 0). apply Z.pow2_bits_false. lia.
Qed.

(** Adding the owner-write bit leaves the search permission as it is. *)
Lemma permitted_search_chmod mode uid :
  permitted P (Z.land (Z.lor mode (octal "200")) (octal "7777")) uid 1
  = permitted P mode uid 1.
Proof.
  unfold permitted.
  replace (Z.land (class_bits P (Z.land (Z.lor mode (octal "200")) (octal "7777")) uid) 1)
    with (Z.land (class_bits P mode uid) 1); [reflexivity |].
  unfold class_bits.
  change (octal "200") with (2 ^ 7). change (octal "7777") with (Z.ones 12).
  destruct (uid =? euid P)%nat; apply Z.bits_inj'; intros n Hn;
    rewrite !Z.land_spec, ?Z.shiftr_spec, ?Z.land_spec, ?Z.lor_spec by lia;
    rewrite (testbit_one n Hn); destruct (Z.eqb_spec n 0) as [-> | Hne];
    rewrite ?andb_false_r; try reflexivity; cbn [Z.add];
    rewrite Z.pow2_bits_false by lia; rewrite Z.ones_spec_low by lia;
    now rewrite orb_false_r, ?andb_true_r.
Qed.

(** After [ensure_writable], the directory [rootPath] is found again, with
    the owner-write bit. *)
Lemma ensure_writable_post rootPath m q mode uid ma :
  stat P m rootPath = inr (q, Dir mode uid) ->
  ensure_writable P rootPath (Dir mode uid) m = Done ma ->
  exists mode',
    stat P ma rootPath = inr (q, Dir mode' uid)
    /\ (Z.land mode' (octal "200") =? 0) = false.
Proof.
  intros Hst. unfold ensure_writable. cbn [perm_of].
  destruct (Z.land mode (octal "200") =? 0) eqn:Hbit.
  - unfold chmod. rewrite (stat_found P _ _ _ _ Hst).
    destruct (owns P (Dir mode uid)); [| discriminate]. cbn [with_mode].
    intros [= <-]. set (mode' := Z.land _ _).
    assert (Hsim : similar P m (<[q := Dir mode' uid]> m)).
    { intros q'. destruct (decide (q = q')) as [<- | Hne].
      - rewrite (resolve_found P _ _ _ _ _ (stat_found P _ _ _ _ Hst)), lookup_insert_eq.
        split; [reflexivity | apply permitted_search_chmod].
      - rewrite lookup_insert_ne by done.
        destruct (m !! q'); [apply alike_refl | exact I]. }
    destruct (stat_similar _ _ _ _ _ Hsim Hst) as (n' & Hst' & L & _).
    rewrite lookup_insert_eq in L. injection L as <-.
    exists mode'. split; [exact Hst' |].
    apply Z.eqb_neq. intros Hz.
    assert (Hb : Z.testbit (Z.land mode' (octal "200")) 7 = true).
    { subst mode'. rewrite !Z.land_spec, Z.lor_spec.
      change (octal "200") with (2 ^ 7). change (octal "7777") with (Z.ones 12).
      rewrite Z.pow2_bits_true by lia. rewrite Z.ones_spec_low by lia.
      now rewrite orb_true_r. }
    rewrite Hz in Hb. discriminate.
  - intros [= <-]. exists mode. split; [exact Hst | exact Hbit].
Qed.

Lemma scaffold_modes rootPath :
  Forall (fun t => Z.testbit (Z.land (snd (fst t)) (octal "7777")) 7 = true)
    (file_tasks rootPath).
Proof.
  unfold file_tasks. apply Forall_forall. intros t Ht.
  apply list_elem_of_fmap in Ht as (f & -> & Hf). cbn [fst snd].
  apply list_elem_of_In in Hf. revert f Hf. apply forallb_forall.
  vm_compute. reflexivity.
Qed.

Lemma links_followable_spec rootPath m l :
  links_followable P rootPath m = true -> l ∈ scaffold_links ->
  makeSymlink P rootPath l m = Done m.
Proof.
  unfold links_followable. rewrite forallb_forall. intros H Hl.
  apply list_elem_of_In in Hl. specialize (H l Hl). unfold makeSymlink.
  now destruct (stat P m (Join [rootPath; snd l])).
Qed.

End Again.

(** C7, as stated, fails twice over.  In the chained bundle the runscript
    is reached through as many links as one path walk may follow: the first
    invocation succeeds and the second fails, since the link [apptainer] that
    the first one made cannot be followed.  And under the file-creation mask
    077 the two invocations succeed but do not leave the same permissions:
    the runscript that the first one creates has mode 0700, and the second
    one sets it to 0755. *)
Lemma makeBaseEnv_twice_counterexample :
  (succeeded (makeBaseEnv user "/b" bundle_chained) = true
   /\ succeeded (makeBaseEnv user "/b" (final (makeBaseEnv user "/b" bundle_chained)))
      = false)
  /\ (succeeded (makeBaseEnv strict_user "/b" bundle) = true
      /\ succeeded (makeBaseEnv strict_user "/b"
                      (final (makeBaseEnv strict_user "/b" bundle))) = true
      /\ file_mode strict_user (final (makeBaseEnv strict_user "/b" bundle))
           "/b/.apptainer.d/runscript" = Some (octal "700")
      /\ file_mode strict_user
           (final (makeBaseEnv strict_user "/b"
                     (final (makeBaseEnv strict_user "/b" bundle))))
           "/b/.apptainer.d/runscript" = Some (octal "755")).
Proof. repeat split; vm_compute; reflexivity. Qed.

(** C7, amended: [rootPath] names a directory and a first invocation of
    [makeBaseEnv] has succeeded.  If each of the six scaffold links can be
    followed afterwards, a second invocation succeeds too; it leaves every
    scaffold file with the bytes it had after the first, and with the
    permission bits the scaffold asks for (those of the last scaffold path
    that names the file), which need not be the bits the first invocation
    left on a file that it created. *)
Theorem makeBaseEnv_twice (P : proc) (rootPath : string)
    (m : gmap (list string) node) (q0 : list string) (mode0 : Z) (uid0 : nat) :
  stat P m rootPath = inr (q0, Dir mode0 uid0) ->
  succeeded (makeBaseEnv P rootPath m) = true ->
  links_followable P rootPath (final (makeBaseEnv P rootPath m)) = true ->
  succeeded (makeBaseEnv P rootPath (final (makeBaseEnv P rootPath m))) = true
  /\ forall f, f ∈ scaffold_files ->
       is_Some (read_file P (final (makeBaseEnv P rootPath m))
                  (Join (rootPath :: fst (fst f))))
       /\ read_file P (final (makeBaseEnv P rootPath (final (makeBaseEnv P rootPath m))))
            (Join (rootPath :: fst (fst f)))
          = read_file P (final (makeBaseEnv P rootPath m))
              (Join (rootPath :: fst (fst f)))
       /\ exists perm,
            asked_perm P (final (makeBaseEnv P rootPath m)) (file_tasks rootPath)
              (Join (rootPath :: fst (fst f))) = Some perm
            /\ file_mode P
                 (final (makeBaseEnv P rootPath (final (makeBaseEnv P rootPath m))))
                 (Join (rootPath :: fst (fst f)))
               = Some (Z.land perm (octal "7777")).
Proof.
  intros Hst Hok Hlinks.
  destruct (makeBaseEnv P rootPath m) as [m1 | m1 msg e] eqn:Hrun; [| discriminate].
  cbn [final] in *. clear Hok.
  (* the four steps of the first invocation *)
  unfold makeBaseEnv in Hrun. rewrite Hst in Hrun.
  destruct (ensure_writable P rootPath (Dir mode0 uid0) m) as [ma|] eqn:Ea;
    [| discriminate].
  pose proof (after_writable_extends P rootPath ma) as Hx.
  destruct (makeDirs P rootPath ma) as [mb|] eqn:Eb; [| discriminate].
  destruct (makeSymlinks P rootPath mb) as [mc|] eqn:Ec; [| discriminate].
  destruct (makeFiles P rootPath mc) as [md|] eqn:Ed; [| discriminate].
  injection Hrun as ->. cbn [final] in Hx.
  assert (Hbm : extends mb m1).
  { pose proof (makeSymlinks_extends P rootPath mb) as H3. rewrite Ec in H3.
    pose proof (makeFiles_extends P rootPath mc) as H4. rewrite Ed in H4.
    eapply extends_trans; eauto. }
  (* the second invocation *)
  rewrite makeFiles_tasks in Ed.
  destruct (each_make_texts P _ _ _ Ed) as [Hready Htext1].
  destruct (each_make_again P _ (scaffold_modes rootPath) m1 Hready)
    as (m2 & Hrun2 & Hsim).
  assert (Hagain : makeBaseEnv P rootPath m1 = Ok m2).
  { (* the directory is writable *)
    destruct (ensure_writable_post P _ _ _ _ _ _ Hst Ea) as (mode' & Hsta & Hbit).
    destruct (stat_extends P _ _ _ _ _ Hx Hsta) as (n1 & Hst1 & K1).
    cbn in K1. subst n1.
    unfold makeBaseEnv. rewrite Hst1. unfold ensure_writable. cbn [perm_of].
    rewrite Hbit.
    (* the directories exist *)
    assert (Hdirs : makeDirs P rootPath m1 = Done m1).
    { apply each_noop. intros d Hd.
      assert (Hq : exists q mode uid,
                 stat P m1 (Join (rootPath :: d)) = inr (q, Dir mode uid)).
      { assert (Hb : exists q mode uid,
                   stat P mb (Join (rootPath :: d)) = inr (q, Dir mode uid)).
        { refine (each_post
                    (fun elems m => MkdirAll P (Join (rootPath :: elems)) (octal "755") m)
                    (fun elems m => exists q mode uid,
                       stat P m (Join (rootPath :: elems)) = inr (q, Dir mode uid))
                    _ _ _ scaffold_dirs ma mb Eb d Hd).
          - intros a x x' Hr. eapply MkdirAllN_post; exact Hr.
          - intros a x x' Hxx (q & mo & ui & Hs).
            destruct (stat_extends P _ _ _ _ _ Hxx Hs) as (n' & Hs' & K).
            cbn in K. subst n'. eauto.
          - intros a x. apply MkdirAllN_extends. }
        destruct Hb as (q & mo & ui & Hs).
        destruct (stat_extends P _ _ _ _ _ Hbm Hs) as (n' & Hs' & K).
        cbn in K. subst n'. eauto. }
      destruct Hq as (q & mo & ui & Hs). eapply MkdirAll_noop; exact Hs. }
    rewrite Hdirs.
    (* the links are there *)
    assert (Hlk : makeSymlinks P rootPath m1 = Done m1).
    { apply each_noop. intros l Hl. now apply links_followable_spec. }
    rewrite Hlk.
    (* the files are made again *)
    now rewrite makeFiles_tasks, Hrun2. }
  rewrite Hagain. cbn [succeeded final]. split; [reflexivity |].
  destruct (each_make_texts P _ _ _ Hrun2) as [_ Htext2].
  intros f Hf.
  assert (Ht : (Join (rootPath :: fst (fst f)), snd (fst f), snd f)
               ∈ file_tasks rootPath).
  { unfold file_tasks. apply list_elem_of_fmap. exists f. split; [reflexivity | exact Hf]. }
  destruct (Hready _ Ht) as (q & mo & ui & da & Hs1 & _). cbn [fst snd] in Hs1.
  destruct (stat_similar P _ _ _ _ _ Hsim Hs1) as (n2 & Hs2 & L2 & Ha).
  destruct n2 as [|mo2 ui2 da2|]; cbn [alike] in Ha; try (exfalso; exact Ha).
  unfold read_file, asked_perm, file_mode. rewrite Hs1, Hs2. split; [eauto |].
  split.
  - destruct (last_text_some P m1 _ _ q _ Ht Hs1) as [c Hc].
    specialize (Htext1 q). specialize (Htext2 q).
    rewrite (last_text_similar P _ _ _ q Hsim), Hc in Htext2.
    rewrite Hc in Htext1. unfold data_at in Htext1, Htext2.
    rewrite (resolve_found P _ _ _ _ _ (stat_found P _ _ _ _ Hs1)) in Htext1.
    rewrite L2 in Htext2. congruence.
  - destruct (last_perm_some P m1 _ _ q _ Ht Hs1) as [p Hp].
    exists p. split; [exact Hp |].
    pose proof (each_make_again_modes P _ (scaffold_modes rootPath) m1 m2 Hready Hrun2 q)
      as Hmode.
    rewrite Hp in Hmode. unfold mode_at in Hmode. rewrite L2 in Hmode. exact Hmode.
Qed.

(** On the empty bundle directory [/b], also under the mask 077, the second
    invocation succeeds. *)
Lemma makeBaseEnv_twice_witness :
  succeeded (makeBaseEnv user "/b" (final (makeBaseEnv user "/b" bundle))) = true
  /\ succeeded (makeBaseEnv strict_user "/b"
                  (final (makeBaseEnv strict_user "/b" bundle))) = true.
Proof.
  split.
  - exact (proj1 (makeBaseEnv_twice user "/b" bundle ["b"] (octal "555") 1000
                    ltac:(vm_compute; reflexivity) ltac:(vm_compute; reflexivity)
                    ltac:(vm_compute; reflexivity))).
  - exact (proj1 (makeBaseEnv_twice strict_user "/b" bundle ["b"] (octal "555") 1000
                    ltac:(vm_compute; reflexivity) ltac:(vm_compute; reflexivity)
                    ltac:(vm_compute; reflexivity))).
Defined.

End ScaffoldFacts.

(** ** The archive extractor *)

Module ExtractFacts.
Import GoStr Path FS FSPred Os Extract FSFacts ScaffoldPred ExtractPred.

(** C6 on the code: the archive holds the file [f] twice, first with the
    six bytes abcdef, then with the two bytes xy.  The second entry opens
    the file that the first one created, without truncation: after the
    extraction the file holds xycdef, the bytes of the entry and the tail of
    what was there. *)
Theorem extract_over_longer_file :
  read_file user
    (fs_after (extractEntries user "/d" [long_entry; short_entry] true dest_empty))
    "/d/f"
  = Some "xycdef".
Proof. vm_compute. reflexivity. Qed.

(** A file that is absent holds exactly the bytes of the entry. *)
Example extract_absent_file :
  read_file user (fs_after (extractEntries user "/d" [short_entry] true dest_empty)) "/d/f"
  = Some "xy".
Proof. vm_compute. reflexivity. Qed.

Lemma substring_all n s : (String.length s <= n)%nat -> substring 0 n s = s.
Proof.
  revert n. induction s as [|c s IH]; intros n H; destruct n; cbn in *;
    try reflexivity; try lia.
  f_equal. apply IH. lia.
Qed.

Lemma substring_past n k s : (String.length s <= n)%nat -> substring n k s = EmptyString.
Proof.
  revert n k. induction s as [|c s IH]; intros n k H; destruct n; cbn in *.
  - now destruct k.
  - now destruct k.
  - lia.
  - apply IH. lia.
Qed.

(** C5 on the code: a file of at most [bufio_size] bytes that starts with
    the gzip signature is in the buffer of [r] as a whole when
    [gzip.NewReader] is called on the file; the reader finds the file
    exhausted and fails, [extractArchive] returns its error and nothing is
    extracted. *)
Theorem extractArchive_gzip_fails (P : proc) (tarDecode : string -> list item * bool)
    (gzipNewReader : string -> option string) (src dst bytes : string)
    (m : gmap (list string) node) :
  open_read P m src = inr bytes ->
  (10 <= String.length bytes <= bufio_size)%nat ->
  sniffed_gzip (substring 0 10 bytes) = true ->
  gzipNewReader EmptyString = None ->
  extractArchive P tarDecode gzipNewReader src dst m = Aborted m GzipFailed.
Proof.
  intros Hopen [Hlo Hhi] Hsniff Hgz. unfold extractArchive, open_archive. rewrite Hopen.
  replace (String.length bytes <? 10)%nat with false
    by (symmetry; apply Nat.ltb_ge; exact Hlo).
  cbv zeta. rewrite Hsniff, (substring_past bufio_size _ bytes Hhi), Hgz.
  reflexivity.
Qed.

Lemma extractArchive_gzip_fails_witness :
  extractArchive user tar_empty gzip_needs_bytes "/a.tgz" "/d" with_tiny_gzip
  = Aborted with_tiny_gzip GzipFailed.
Proof.
  apply (extractArchive_gzip_fails user tar_empty gzip_needs_bytes "/a.tgz" "/d" tiny_gzip).
  - vm_compute. reflexivity.
  - vm_compute. split; apply Nat.leb_le; reflexivity.
  - vm_compute. reflexivity.
  - reflexivity.
Defined.

End ExtractFacts.

(** ** Paths *)

Module PathFacts.
Import GoStr GoStrFacts Path Pred ZipSlipPred.

Lemma splitc_nonempty sep s : splitc sep s <> [].
Proof.
  destruct s as [|c r]; cbn; [discriminate |].
  destruct (Ascii.eqb c sep); [discriminate |]. destruct (splitc sep r); discriminate.
Qed.

(** The pieces hold no separator. *)
Lemma splitc_lacks sep s : Forall (fun c => lacks sep c = true) (splitc sep s).
Proof.
  induction s as [|c r IH]; cbn.
  - repeat constructor.
  - destruct (Ascii.eqb c sep) eqn:E; [now constructor |].
    destruct (splitc sep r) as [|h t]; [repeat constructor; cbn; now rewrite E |].
    inversion IH as [|? ? Hh Ht]; subst. constructor; [cbn; now rewrite E, Hh | exact Ht].
Qed.

Lemma splitc_app_sep sep a b :
  splitc sep (a +:+ String sep b) = (splitc sep a ++ splitc sep b)%list.
Proof.
  induction a as [|c r IH]; cbn.
  - now rewrite Ascii.eqb_refl.
  - destruct (Ascii.eqb c sep); [now rewrite IH |].
    rewrite IH. destruct (splitc sep r) as [|h t] eqn:E; [| reflexivity].
    now elim (splitc_nonempty sep r).
Qed.

Lemma splitc_lacking sep s : lacks sep s = true -> splitc sep s = [s].
Proof.
  induction s as [|c r IH]; cbn; [reflexivity |].
  intros [Hc Hr]%andb_prop. apply negb_true_iff in Hc. rewrite Hc, (IH Hr). reflexivity.
Qed.

(** Joining pieces without a separator and splitting gives the pieces. *)
Lemma splitc_concat sep l :
  Forall (fun c => lacks sep c = true) l -> l <> [] ->
  splitc sep (String.concat (str1 sep) l) = l.
Proof.
  induction 1 as [|x l Hx Hl IH]; intros Hne; [done |].
  destruct l as [|y l].
  - cbn. now apply splitc_lacking.
  - change (String.concat (str1 sep) (x :: y :: l))
      with (x +:+ String sep (String.concat (str1 sep) (y :: l))).
    rewrite splitc_app_sep, (splitc_lacking _ _ Hx), IH by discriminate. reflexivity.
Qed.

Lemma prefix_split p s : String.prefix p s = true -> exists r, s = p +:+ r.
Proof.
  revert s. induction p as [|c p IH]; intros s.
  - intros _. now exists s.
  - destruct s as [|d s]; cbn; [discriminate |].
    destruct (ascii_dec c d) as [E | Hne]; [subst d | discriminate].
    intros H. destruct (IH s H) as (r & ->). now exists r.
Qed.

Lemma proper_spec c :
  proper c = true ->
  c <> EmptyString /\ String.eqb c EmptyString = false /\ String.eqb c "." = false
  /\ String.eqb c ".." = false /\ lacks "/" c = true.
Proof.
  unfold proper. intros [[[H1 H2]%andb_prop H3]%andb_prop H4]%andb_prop.
  apply negb_true_iff in H1, H2, H3. repeat split; try done.
  intros ->. discriminate.
Qed.

(** The stack of [Clean] for a rooted path holds proper names only. *)
Lemma clean_step_proper st c :
  lacks "/" c = true -> Forall (fun x => proper x = true) st ->
  Forall (fun x => proper x = true) (clean_step true st c).
Proof.
  intros Hc Hst. unfold clean_step.
  destruct (String.eqb c EmptyString) eqn:E1; [exact Hst |].
  destruct (String.eqb c ".") eqn:E2; [exact Hst |]. cbn [orb].
  destruct (String.eqb c "..") eqn:E3.
  - destruct st as [|top below]; [constructor |].
    inversion Hst as [|? ? Htop Hbelow]; subst.
    destruct (proper_spec _ Htop) as (_ & _ & _ & -> & _). exact Hbelow.
  - constructor; [| exact Hst]. unfold proper. now rewrite E1, E2, E3, Hc.
Qed.

Lemma clean_fold_proper comps : forall st,
  Forall (fun c => lacks "/" c = true) comps ->
  Forall (fun x => proper x = true) st ->
  Forall (fun x => proper x = true) (fold_left (clean_step true) comps st).
Proof.
  induction comps as [|c r IH]; intros st Hc Hst; cbn [fold_left]; [exact Hst |].
  inversion Hc as [|? ? H1 H2]; subst. apply IH; [exact H2 |].
  now apply clean_step_proper.
Qed.

(** A cleaned rooted path is a slash and proper names joined by slashes. *)
Lemma Clean_rooted p :
  rooted p = true ->
  exists L, Forall (fun x => proper x = true) L
            /\ Clean p = "/" +:+ String.concat "/" L.
Proof.
  intros Hr. unfold Clean. rewrite Hr.
  exists (rev (fold_left (clean_step true) (splitc "/" p) [])). split; [| reflexivity].
  apply Forall_rev, clean_fold_proper; [apply splitc_lacks | constructor].
Qed.

Lemma proper_lacks L :
  Forall (fun x => proper x = true) L -> Forall (fun c => lacks "/" c = true) L.
Proof.
  intros H. eapply Forall_impl; [exact H |].
  intros c Hc. now destruct (proper_spec c Hc) as (_&_&_&_&?).
Qed.

Lemma splitc_rooted L :
  Forall (fun x => proper x = true) L ->
  splitc "/" ("/" +:+ String.concat "/" L)
  = EmptyString :: match L with [] => [EmptyString] | _ => L end.
Proof.
  intros HL. change ("/" +:+ ?s) with (String "/" s). cbn [splitc].
  change (Ascii.eqb "/" "/") with true. cbv iota. f_equal.
  destruct L as [|x L]; [reflexivity |].
  apply (splitc_concat "/"); [now apply proper_lacks | discriminate].
Qed.

Lemma rooted_append a b : rooted a = true -> rooted (a +:+ b) = true.
Proof. destruct a; [discriminate | now cbn]. Qed.

Lemma Join_rooted dst name :
  rooted dst = true -> Join [dst; name] = Clean (dst +:+ "/" +:+ name).
Proof.
  intros Hr. cbn [Join]. destruct (String.eqb_spec dst EmptyString) as [-> | _];
    [discriminate | reflexivity].
Qed.

(** A target that passes the zip-slip test is the destination followed by
    proper names. *)
Lemma legal_target_names dst name :
  rooted dst = true ->
  Extract.legal_target dst (Join [dst; name]) = true ->
  exists LD names,
    Forall (fun x => proper x = true) LD
    /\ Forall (fun x => proper x = true) names
    /\ names <> []
    /\ splitc "/" (Clean dst) = EmptyString :: LD
    /\ splitc "/" (Join [dst; name]) = (EmptyString :: LD ++ names)%list.
Proof.
  intros Hr. rewrite (Join_rooted _ _ Hr). unfold Extract.legal_target, HasPrefix.
  destruct (Clean_rooted dst Hr) as (LD & HLD & ED).
  destruct (Clean_rooted (dst +:+ "/" +:+ name) (rooted_append _ _ Hr)) as (LT & HLT & ET).
  intros Hp. apply prefix_split in Hp as (R & HR).
  rewrite append_assoc in HR. change ("/" +:+ R) with (String "/" R) in HR.
  pose proof (f_equal (splitc "/") HR) as Hs. rewrite splitc_app_sep in Hs.
  rewrite ET, ED in Hs. rewrite (splitc_rooted _ HLT), (splitc_rooted _ HLD) in Hs.
  rewrite ET, ED, (splitc_rooted _ HLT), (splitc_rooted _ HLD).
  pose proof (splitc_nonempty "/" R) as HRn.
  destruct LD as [|d LD].
  - (* the destination is the root: no clean path starts with two slashes *)
    exfalso. cbn in Hs. injection Hs as Hs.
    destruct LT as [|t LT].
    + destruct (splitc "/" R); [done | discriminate].
    + injection Hs as -> _. inversion HLT as [|? ? Ht _]; subst. discriminate.
  - cbn [app] in Hs. injection Hs as Hs.
    destruct LT as [|t LT].
    + exfalso. destruct LD; cbn in Hs.
      * injection Hs as <- _. inversion HLD as [|? ? Hd _]; subst. discriminate.
      * injection Hs as <- Hs. inversion HLD as [|? ? Hd _]; subst. discriminate.
    + exists (d :: LD), (splitc "/" R). split; [exact HLD |].
      split.
      * rewrite Hs in HLT. change (d :: LD ++ splitc "/" R)%list
          with ((d :: LD) ++ splitc "/" R)%list in HLT.
        apply Forall_app in HLT as [_ H2]. exact H2.
      * split; [exact HRn |]. split; [reflexivity |]. now rewrite Hs.
Qed.

Lemma components_proper L :
  Forall (fun x => proper x = true) L -> filter (fun c => c <> EmptyString) L = L.
Proof.
  induction 1 as [|x L Hx _ IH]; [reflexivity |].
  rewrite filter_cons_True by now destruct (proper_spec x Hx).
  now rewrite IH.
Qed.

(** *** Cleaned relative paths *)

Lemma dotdot_lacks L :
  Forall (fun x => x = "..") L -> Forall (fun c => lacks "/" c = true) L.
Proof. intros H. eapply Forall_impl; [exact H |]. now intros c ->. Qed.

(** The stack of [Clean] for a relative path: proper names above [..]
    elements. *)
Lemma clean_step_shape st c :
  lacks "/" c = true ->
  (exists Lr dots, st = (Lr ++ dots)%list /\ Forall (fun x => proper x = true) Lr
                   /\ Forall (fun x => x = "..") dots) ->
  exists Lr dots, clean_step false st c = (Lr ++ dots)%list
                  /\ Forall (fun x => proper x = true) Lr
                  /\ Forall (fun x => x = "..") dots.
Proof.
  intros Hc (Lr & dots & -> & HL & HD). unfold clean_step.
  destruct (String.eqb c EmptyString) eqn:E1; [eauto |].
  destruct (String.eqb c ".") eqn:E2; [eauto |]. cbn [orb].
  destruct (String.eqb_spec c "..") as [-> | E3].
  - destruct Lr as [|top Lr'].
    + cbn [app]. destruct dots as [|d dots'].
      * exists [], [".."]. repeat split; repeat constructor.
      * inversion HD as [|? ? Hd HD']; subst.
        exists [], (".." :: ".." :: dots'). repeat split; repeat constructor; exact HD'.
    + cbn [app]. inversion HL as [|? ? Ht HL']; subst.
      destruct (proper_spec _ Ht) as (_ & _ & _ & -> & _). eauto.
  - exists (c :: Lr), dots. repeat split; [| exact HD].
    constructor; [| exact HL]. unfold proper. rewrite E1, E2, Hc.
    destruct (String.eqb_spec c ".."); [contradiction | reflexivity].
Qed.

Lemma clean_fold_shape comps : forall st,
  Forall (fun c => lacks "/" c = true) comps ->
  (exists Lr dots, st = (Lr ++ dots)%list /\ Forall (fun x => proper x = true) Lr
                   /\ Forall (fun x => x = "..") dots) ->
  exists Lr dots, fold_left (clean_step false) comps st = (Lr ++ dots)%list
                  /\ Forall (fun x => proper x = true) Lr
                  /\ Forall (fun x => x = "..") dots.
Proof.
  induction comps as [|c r IH]; intros st Hc Hst; cbn [fold_left]; [exact Hst |].
  inversion Hc as [|? ? H1 H2]; subst. apply IH; [exact H2 |].
  now apply clean_step_shape.
Qed.

(** A cleaned relative path is a dot, or [..] elements and then proper
    names, joined by slashes. *)
Lemma Clean_relative p :
  rooted p = false ->
  Clean p = "."
  \/ exists dots L,
       Forall (fun x => x = "..") dots /\ Forall (fun x => proper x = true) L
       /\ (dots ++ L)%list <> []
       /\ Clean p = String.concat "/" (dots ++ L)
       /\ splitc "/" (Clean p) = (dots ++ L)%list.
Proof.
  intros Hr. unfold Clean. rewrite Hr.
  destruct (clean_fold_shape (splitc "/" p) [] (splitc_lacks "/" p))
    as (Lr & dots & E & HL & HD).
  { exists [], []. repeat split; constructor. }
  rewrite E, rev_app_distr.
  destruct (String.eqb_spec (String.concat "/" (rev dots ++ rev Lr)) EmptyString)
    as [_ | Hne]; [now left |].
  right. exists (rev dots), (rev Lr).
  split; [now apply Forall_rev |]. split; [now apply Forall_rev |].
  assert (Hn : (rev dots ++ rev Lr)%list <> []).
  { intros E0. apply Hne. now rewrite E0. }
  split; [exact Hn |]. split; [reflexivity |].
  apply (splitc_concat "/"); [| exact Hn].
  apply Forall_app. split; [apply dotdot_lacks | apply proper_lacks]; now apply Forall_rev.
Qed.

Lemma Clean_nonempty p : Clean p <> EmptyString.
Proof.
  unfold Clean. destruct (rooted p); [discriminate |].
  destruct (String.eqb_spec (String.concat "/"
              (rev (fold_left (clean_step false) (splitc "/" p) []))) EmptyString);
    [discriminate | assumption].
Qed.

Lemma rooted_prefix a b : a <> EmptyString -> rooted (a +:+ b) = rooted a.
Proof. destruct a; [congruence | reflexivity]. Qed.

(** What follows a proper name in a list of [..] elements and then proper
    names is made of proper names. *)
Lemma after_proper dots L : forall A x B,
  Forall (fun x => x = "..") dots -> Forall (fun x => proper x = true) L ->
  (dots ++ L)%list = (A ++ x :: B)%list -> proper x = true ->
  Forall (fun x => proper x = true) B.
Proof.
  induction dots as [|d dots IH]; intros A x B HD HL E Hx.
  - cbn in E. rewrite E in HL. apply Forall_app in HL as [_ HL].
    now inversion HL.
  - inversion HD as [|? ? Hd HD']; subst. destruct A as [|a A]; cbn in E.
    + injection E as <- _. discriminate.
    + injection E as _ E. exact (IH A x B HD' HL E Hx).
Qed.

Lemma head_shape dots L h t :
  Forall (fun x => x = "..") dots -> Forall (fun x => proper x = true) L ->
  (dots ++ L)%list = h :: t -> h = ".." \/ proper h = true.
Proof.
  intros HD HL E. destruct dots as [|d dots]; cbn in E.
  - rewrite E in HL. inversion HL; auto.
  - injection E as <- _. inversion HD; auto.
Qed.

Lemma only_dotdot_spec dots :
  Forall (fun x => x = "..") dots -> forallb (String.eqb "..") dots = true.
Proof. induction 1 as [|x l -> _ IH]; [reflexivity | exact IH]. Qed.

(** A target that passes the test of [extractArchive], for a destination
    that is not made of [..] elements only, is the cleaned destination
    followed by proper names. *)
Lemma legal_target_split dst name :
  only_dotdot (Clean dst) = false ->
  Extract.legal_target dst (Join [dst; name]) = true ->
  exists names,
    Forall (fun x => proper x = true) names /\ names <> []
    /\ splitc "/" (Join [dst; name]) = (splitc "/" (Clean dst) ++ names)%list
    /\ rooted (Join [dst; name]) = rooted (Clean dst).
Proof.
  intros Hod Hleg. pose proof Hleg as Hp.
  assert (HT : Join [dst; name] = EmptyString \/ exists x, Join [dst; name] = Clean x).
  { cbn [Join]. destruct (String.eqb dst EmptyString); [| right; eexists; reflexivity].
    destruct (String.eqb name EmptyString); [now left | right; eexists; reflexivity]. }
  assert (Hrooted : rooted dst = true ->
                    exists LD names,
                      Forall (fun x => proper x = true) names
                      /\ splitc "/" (Clean dst) = EmptyString :: LD
                      /\ splitc "/" (Join [dst; name]) = ((EmptyString :: LD) ++ names)%list).
  { intros Hr. destruct (legal_target_names dst name Hr Hleg)
      as (LD & names & HLD & Hn & Hne & E1 & E2). exists LD, names. auto. }
  unfold Extract.legal_target, HasPrefix in Hp.
  set (T := Join [dst; name]) in *. clearbody T.
  apply prefix_split in Hp as (R & HR). rewrite append_assoc in HR.
  change ("/" +:+ R) with (String "/" R) in HR.
  pose proof (f_equal (splitc "/") HR) as Hs. rewrite splitc_app_sep in Hs.
  exists (splitc "/" R).
  split; [| split; [apply splitc_nonempty | split; [exact Hs |]]].
  2: { rewrite HR. apply rooted_prefix, Clean_nonempty. }
  destruct (rooted dst) eqn:Hr.
  - destruct (Hrooted eq_refl) as (LD & names & Hn & E1 & E2).
    rewrite E1, E2 in Hs.
    apply app_inv_head in Hs. now rewrite <- Hs.
  - clear Hrooted.
    (* the cleaned destination *)
    destruct (Clean_relative dst Hr) as [Ed | (dots & L & HD & HL & Hn & Ed & Sd)].
    { (* a dot: no clean path starts with a dot and a slash *)
      exfalso. rewrite Ed in Hs. cbn in Hs.
      destruct HT as [E0 | (x & Ex)]; [rewrite E0 in Hs; discriminate |].
      rewrite Ex in Hs. destruct (rooted x) eqn:Hx.
      - destruct (Clean_rooted x Hx) as (LT & HLT & ET).
        rewrite ET, (splitc_rooted _ HLT) in Hs. discriminate.
      - destruct (Clean_relative x Hx) as [E1 | (dots' & L' & HD' & HL' & _ & _ & S')].
        + rewrite E1 in Hs. cbn in Hs. injection Hs as Hs.
          now apply (splitc_nonempty "/" R).
        + rewrite S' in Hs. destruct (head_shape _ _ _ _ HD' HL' Hs) as [H | H];
            discriminate. }
    rewrite Sd in Hs.
    (* the destination ends with a proper name *)
    assert (HL0 : exists L0 x, L = (L0 ++ [x])%list /\ proper x = true).
    { clear Hs Hn Ed. induction L as [|x L0 _] using rev_ind.
      - exfalso. rewrite app_nil_r in Sd. unfold only_dotdot in Hod.
        rewrite Sd, (only_dotdot_spec _ HD) in Hod. discriminate.
      - exists L0, x. split; [reflexivity |].
        apply Forall_app in HL as [_ HL]. now inversion HL. }
    destruct HL0 as (L0 & x & -> & Hx).
    assert (Hlong : forall T0 : string,
              [T0] <> ((dots ++ L0 ++ [x]) ++ splitc "/" R)%list).
    { intros T0 E. apply (f_equal (@List.length _)) in E.
      rewrite !length_app in E. cbn in E.
      pose proof (splitc_nonempty "/" R). destruct (splitc "/" R); [done | cbn in E; lia]. }
    destruct HT as [E0 | (y & Ey)];
      [exfalso; rewrite E0 in Hs; exact (Hlong _ Hs) |].
    rewrite Ey in Hs. destruct (rooted y) eqn:Hy.
    + exfalso. destruct (Clean_rooted y Hy) as (LT & HLT & ET).
      rewrite ET, (splitc_rooted _ HLT) in Hs.
      destruct (dots ++ L0 ++ [x])%list as [|h t] eqn:Eh;
        [destruct dots, L0; discriminate |].
      cbn in Hs. injection Hs as Hh _. subst h.
      destruct (head_shape dots (L0 ++ [x]) EmptyString t HD HL Eh); discriminate.
    + destruct (Clean_relative y Hy) as [E1 | (dots' & L' & HD' & HL' & _ & _ & S')].
      * exfalso. rewrite E1 in Hs. exact (Hlong _ Hs).
      * rewrite S' in Hs.
        assert (E : (dots' ++ L')%list = ((dots ++ L0) ++ x :: splitc "/" R)%list).
        { rewrite Hs, <- !app_assoc. reflexivity. }
        exact (after_proper dots' L' _ x _ HD' HL' E Hx).
Qed.

(** The zip-slip test rejects every name that escapes. *)
Lemma escapes_illegal dst name :
  only_dotdot (Clean dst) = false -> escapes dst name ->
  Extract.legal_target dst (Join [dst; name]) = false.
Proof.
  intros Hod Hesc. destruct (Extract.legal_target dst (Join [dst; name])) eqn:E;
    [| reflexivity].
  exfalso. apply Hesc.
  destruct (legal_target_split dst name Hod E) as (names & Hn & Hne & Hs & _).
  unfold components. rewrite Hs. exists names. split; [exact Hne |].
  now rewrite filter_app, (components_proper _ Hn).
Qed.

End PathFacts.


(** ** The zip-slip protection of the extractor *)

Module ZipSlipFacts.
Import GoStr GoStrFacts Path Pred FS FSPred Os Extract FSFacts ScaffoldPred ExtractPred ZipSlipPred PathFacts.

Lemma drop_seps_suffix l :
  exists s, l = (s ++ drop_seps l)%list /\ Forall (fun c => c = "/"%char) s.
Proof.
  induction l as [|c l IH]; [exists []; auto |]. cbn.
  destruct (Ascii.eqb_spec c "/") as [-> | Hne]; [| exists []; auto].
  destruct IH as (s & Hs & Hf). exists ("/"%char :: s). split; [cbn; now rewrite <- Hs |].
  now constructor.
Qed.

Lemma drop_element_suffix l :
  exists s, l = (s ++ drop_element l)%list
            /\ Forall (fun c => c <> "/"%char) s
            /\ (drop_element l = [] \/ exists t, drop_element l = "/"%char :: t).
Proof.
  induction l as [|c l IH]; [exists []; auto |]. cbn.
  destruct (Ascii.eqb_spec c "/") as [-> | Hne].
  - exists []. split; [reflexivity |]. split; [constructor | right; eauto].
  - destruct IH as (s & Hs & Hf & Hd). exists (c :: s).
    split; [cbn; now rewrite <- Hs |]. split; [now constructor | exact Hd].
Qed.

Lemma string_of_list_app a b :
  string_of_list_ascii (a ++ b) = string_of_list_ascii a +:+ string_of_list_ascii b.
Proof. induction a as [|c a IH]; cbn; [reflexivity | now rewrite IH]. Qed.

Lemma lacks_of_list s :
  Forall (fun c => c <> "/"%char) s -> lacks "/" (string_of_list_ascii s) = true.
Proof.
  induction 1 as [|c s Hc _ IH]; cbn; [reflexivity |].
  rewrite IH, andb_true_r. apply negb_true_iff.
  destruct (Ascii.eqb_spec c "/"); [contradiction | reflexivity].
Qed.

(** The parent [MkdirAll] recurses on is what stands before the last
    element of the path, and before the separator in front of it. *)
Lemma parent_of_split p p' :
  parent_of p = Some p' ->
  p' <> EmptyString
  /\ ((exists elem, p = p' +:+ String "/" elem /\ lacks "/" elem = true)
      \/ exists x, p = x +:+ "/").
Proof.
  unfold parent_of.
  destruct (drop_seps_suffix (rev (list_ascii_of_string p))) as (s1 & H1 & F1).
  destruct (drop_element_suffix (drop_seps (rev (list_ascii_of_string p))))
    as (s2 & H2 & F2 & Hd).
  destruct (drop_element (drop_seps (rev (list_ascii_of_string p)))) as [|c [|c2 before]];
    try discriminate.
  intros [= <-]. split.
  - intros E. apply (f_equal list_ascii_of_string) in E.
    rewrite list_ascii_of_string_of_list_ascii in E.
    cbn in E. destruct (rev before); discriminate E.
  - destruct Hd as [Hd | (t & Hd)]; [discriminate |]. injection Hd as -> _.
    rewrite H2 in H1. clear H2.
    apply (f_equal (@rev _)) in H1. rewrite rev_involutive in H1.
    destruct s1 as [|c1 s1].
    + left. exists (string_of_list_ascii (rev s2)).
      split; [| apply lacks_of_list; now apply Forall_rev].
      cbn [app] in H1. rewrite rev_app_distr in H1. cbn [rev] in H1.
      rewrite <- (string_of_list_ascii_of_string p), H1.
      change (String "/" (string_of_list_ascii (rev s2)))
        with (string_of_list_ascii ("/"%char :: rev s2)).
      rewrite <- string_of_list_app. f_equal. cbn [rev].
      rewrite <- !app_assoc. reflexivity.
    + right. inversion F1 as [|? ? Hc1 _]; subst.
      cbn [app rev] in H1.
      exists (string_of_list_ascii (rev (s1 ++ s2 ++ "/"%char :: c2 :: before))).
      rewrite <- (string_of_list_ascii_of_string p), H1.
      now rewrite string_of_list_app.
Qed.

Lemma splitc_head_empty p L :
  splitc "/" p = EmptyString :: L -> p <> EmptyString -> rooted p = true /\ L <> [].
Proof.
  destruct p as [|c r]; [congruence |]. cbn. intros H _.
  destruct (Ascii.eqb c "/").
  - split; [reflexivity |]. injection H as <-. apply splitc_nonempty.
  - destruct (splitc "/" r); discriminate.
Qed.

(** The path whose names are those of [p] without the last one. *)
Lemma parent_components p p' CD B :
  parent_of p = Some p' ->
  splitc "/" p = (CD ++ B)%list -> B <> [] -> Forall (fun x => proper x = true) B ->
  p' <> EmptyString /\ rooted p' = rooted p
  /\ splitc "/" p' = (CD ++ removelast B)%list.
Proof.
  intros Hpar Hs HB HP.
  destruct (parent_of_split p p' Hpar) as (Hne & [(elem & -> & Hl) | (x & ->)]).
  - split; [exact Hne |]. split; [symmetry; now apply rooted_prefix |].
    rewrite splitc_app_sep, (splitc_lacking _ _ Hl) in Hs.
    induction B as [|b B0 _] using rev_ind; [contradiction |].
    rewrite removelast_last. rewrite app_assoc in Hs.
    now apply app_inj_tail in Hs as [Hs _].
  - exfalso. change "/" with (String "/" EmptyString) in Hs.
    rewrite splitc_app_sep in Hs. cbn [splitc] in Hs.
    induction B as [|b B0 _] using rev_ind; [contradiction |].
    rewrite app_assoc in Hs. apply app_inj_tail in Hs as [_ Hs].
    apply Forall_app in HP as [_ HP]. inversion HP as [|? ? Hb _]; subst.
    discriminate.
Qed.

Section Walks.
Variable P : proc.

(** A walk along proper names that meets no symbolic link ends at the place
    the names spell. *)
Lemma walk_plain links m follow comps : forall cur,
  Forall (fun x => proper x = true) comps ->
  (forall k t, m !! (cur ++ take k comps)%list <> Some (Lnk t)) ->
  match walk P links m follow cur comps with
  | Found q n => q = (cur ++ comps)%list /\ m !! q = Some n
  | Absent q parent => q = (cur ++ comps)%list /\ m !! q = None /\ comps <> []
  | Fail _ => True
  end.
Proof.
  induction comps as [|c rest IH]; intros cur Hp Hl.
  - rewrite (walk_eq P _ m _ cur []), app_nil_r.
    destruct (m !! cur) eqn:E; auto.
  - rewrite (walk_eq P _ m _ cur (c :: rest)).
    apply Forall_cons_1 in Hp as [Hc Hp].
    destruct (proper_spec c Hc) as (_ & -> & -> & -> & _). cbn [orb].
    destruct (m !! cur) as [[mode uid| |]|]; try exact I.
    destruct (negb (permitted P mode uid 1)); [exact I |]. cbv zeta.
    pose proof (Hl 1%nat) as H1. cbn [take] in H1.
    specialize (IH (cur ++ [c])%list Hp).
    rewrite <- app_assoc in IH. cbn [app] in IH.
    assert (Hl' : forall k t,
      m !! ((cur ++ [c]) ++ take k rest)%list <> Some (Lnk t)).
    { intros k t. rewrite <- app_assoc. exact (Hl (S k) t). }
    destruct (m !! (cur ++ [c])%list) as [[mode' uid'| |t]|] eqn:E.
    + specialize (IH Hl'). destruct (walk P links m follow (cur ++ [c]) rest);
        intuition discriminate.
    + specialize (IH Hl'). destruct (walk P links m follow (cur ++ [c]) rest);
        intuition discriminate.
    + exfalso. rewrite take_0 in H1. exact (H1 t E).
    + destruct rest; [| exact I]. repeat split; [exact E | discriminate].
Qed.

(** A walk past a path that names a node goes on from that node. *)
Lemma walk_through m : forall links A cur q0 n0,
  walk P links m true cur A = Found q0 n0 ->
  forall B follow, B <> [] ->
    exists links', walk P links m follow cur (A ++ B)
                   = walk P links' m follow q0 B.
Proof.
  induction links as [|links IHl];
    (induction A as [|c rest IHc]; intros cur q0 n0;
     [ rewrite (walk_eq P _ m true cur [])
     | rewrite (walk_eq P _ m true cur (c :: rest)) ];
     (destruct (m !! cur) as [nd|] eqn:E; [| discriminate]);
     [ intros [= <- <-] B follow HB; eexists; reflexivity |];
     intros H B follow HB; cbn [app];
     rewrite (walk_eq P _ m follow cur (c :: rest ++ B)), E;
     (destruct nd as [mode uid| |]; [| discriminate | discriminate]);
     (destruct (negb (permitted P mode uid 1)); [discriminate |]);
     (destruct (String.eqb c EmptyString || String.eqb c ".");
      [exact (IHc _ _ _ H B follow HB) |]);
     (destruct (String.eqb c ".."); [exact (IHc _ _ _ H B follow HB) |]);
     cbv zeta in H |- *;
     (destruct (m !! (cur ++ [c])%list) as [[mode' uid'|mode' uid' data'|t]|] eqn:E2;
      [ exact (IHc _ _ _ H B follow HB)
      | exact (IHc _ _ _ H B follow HB)
      |
      | destruct rest; discriminate ]);
     (replace (match (rest ++ B)%list with [] => negb follow | _ :: _ => false end)
        with false by (destruct rest; [destruct B; [contradiction | reflexivity]
                                      | reflexivity]));
     (replace (match rest with [] => negb true | _ :: _ => false end)
        with false in H by (now destruct rest));
     (destruct (String.eqb t EmptyString); [discriminate |])).
  - discriminate.
  - rewrite app_assoc. exact (IHl _ _ _ _ H B follow HB).
Qed.

End Walks.

Lemma changed_refl D m : changed_inside D m m.
Proof. intros q H. now contradiction H. Qed.

Lemma changed_trans D m1 m2 m3 :
  changed_inside D m1 m2 -> changed_inside D m2 m3 -> changed_inside D m1 m3.
Proof.
  intros H12 H23 q H.
  destruct (decide (m2 !! q = m1 !! q)) as [E | E]; [| exact (H12 q E)].
  apply H23. now rewrite E.
Qed.

Lemma changed_insert D m q n : strictly_inside D q -> changed_inside D m (<[q := n]> m).
Proof.
  intros Hq q' H. destruct (decide (q = q')) as [<- | Hne]; [exact Hq |].
  rewrite lookup_insert_ne in H by exact Hne. now contradiction H.
Qed.

Section Inside.
Variables (P : proc) (cd : string) (q0 : list string) (mode0 : Z) (uid0 : nat).
Hypothesis cd_nonempty : cd <> EmptyString.

(** The destination is the directory at [q0], with no link at or below it. *)
Let dest (m : gmap (list string) node) : Prop :=
  resolve P m true cd = Found q0 (Dir mode0 uid0) /\ no_link_below m q0.

(** [path] is the destination followed by the proper names [B]. *)
Let below (path : string) (B : list string) : Prop :=
  path <> EmptyString /\ rooted path = rooted cd
  /\ splitc "/" path = (splitc "/" cd ++ B)%list
  /\ Forall (fun x => proper x = true) B.

Lemma resolve_at m path :
  dest m -> below path [] -> stat P m path = inr (q0, Dir mode0 uid0).
Proof.
  intros [Hr _] (Hne & Hro & Hs & _). rewrite app_nil_r in Hs.
  unfold stat. replace (resolve P m true path) with (resolve P m true cd);
    [now rewrite Hr |].
  unfold resolve. rewrite Hro, Hs.
  destruct (String.eqb_spec cd EmptyString); [contradiction |].
  destruct (String.eqb_spec path EmptyString); [contradiction | reflexivity].
Qed.

Lemma resolve_below m path B follow :
  dest m -> below path B -> B <> [] ->
  match resolve P m follow path with
  | Found q n => q = (q0 ++ B)%list /\ m !! q = Some n
  | Absent q parent => q = (q0 ++ B)%list /\ m !! q = None
  | Fail _ => True
  end.
Proof.
  intros [Hr Hl] (Hne & Hro & Hs & Hp) HB. unfold resolve in *.
  destruct (String.eqb_spec cd EmptyString); [contradiction |].
  destruct (String.eqb_spec path EmptyString); [contradiction |].
  rewrite Hro, Hs.
  destruct (walk_through P m _ _ _ _ _ Hr B follow HB) as (links' & ->).
  pose proof (walk_plain P links' m follow B q0 Hp) as Hw.
  assert (Hplain : forall k t, m !! (q0 ++ take k B)%list <> Some (Lnk t)).
  { intros k t E. apply (Hl _ _ E). now exists (take k B). }
  specialize (Hw Hplain).
  destruct (walk P links' m follow q0 B) as [q nd|q parent|e]; [exact Hw | | exact I].
  destruct Hw as (Hq & Hnone & _). now split.
Qed.

Lemma dest_insert m q n :
  dest m -> (forall t, n <> Lnk t) -> extends m (<[q := n]> m) ->
  dest (<[q := n]> m).
Proof.
  intros [Hr Hl] Hn Hx. split.
  - destruct (resolve_extends P _ _ _ _ _ _ Hx Hr) as (n' & Hr' & K).
    cbn in K. now subst n'.
  - intros q' t E. destruct (decide (q = q')) as [<- | Hne].
    + rewrite lookup_insert_eq in E. injection E as E. now apply Hn in E.
    + rewrite lookup_insert_ne in E by exact Hne. exact (Hl q' t E).
Qed.

Lemma inside_below B : B <> [] -> strictly_inside q0 (q0 ++ B).
Proof. intros HB. now exists B. Qed.

Lemma create_inside m path B n :
  dest m -> below path B -> B <> [] -> (forall t, n <> Lnk t) ->
  changed_inside q0 m (state_of (create P m path n))
  /\ dest (state_of (create P m path n)).
Proof.
  intros Hd Hb HB Hn. unfold create.
  pose proof (resolve_below m path B false Hd Hb HB) as Hr.
  destruct (resolve P m false path) as [q nd|q parent|e]; cbn [state_of];
    try (split; [apply changed_refl | exact Hd]).
  destruct Hr as (-> & Hq).
  destruct (may P 2 parent); cbn [state_of];
    try (split; [apply changed_refl | exact Hd]).
  split; [now apply changed_insert, inside_below |].
  apply dest_insert; [exact Hd | exact Hn | now apply extends_insert_new].
Qed.

Lemma below_parent path B parent :
  below path B -> B <> [] -> parent_of path = Some parent ->
  below parent (removelast B).
Proof.
  intros (Hne & Hro & Hs & Hp) HB Hpar.
  destruct (parent_components _ _ _ _ Hpar Hs HB Hp) as (Hne' & Hro' & Hs').
  split; [exact Hne' |]. split; [now rewrite Hro' |]. split; [exact Hs' |].
  induction B as [|b B0 _] using rev_ind; [contradiction |].
  rewrite removelast_last. now apply Forall_app in Hp as [Hp _].
Qed.

Lemma MkdirAllN_inside n perm : forall path B m,
  dest m -> below path B ->
  changed_inside q0 m (state_of (MkdirAllN P n path perm m))
  /\ dest (state_of (MkdirAllN P n path perm m)).
Proof.
  induction n as [|n IH]; intros path B m Hd Hb;
    (destruct B as [|b B'];
     [ cbn [MkdirAllN]; rewrite (resolve_at m path Hd Hb); cbn [is_dir state_of];
       split; [apply changed_refl | exact Hd] |]);
    cbn [MkdirAllN];
    (destruct (stat P m path) as [e | [q dir]];
     [| destruct (is_dir dir); cbn [state_of]; (split; [apply changed_refl | exact Hd])]).
  - cbn [state_of]. split; [apply changed_refl | exact Hd].
  - assert (Hup : exists up,
      match parent_of path with
      | Some parent => MkdirAllN P n parent perm m
      | None => Done m
      end = up
      /\ changed_inside q0 m (state_of up) /\ dest (state_of up)).
    { eexists. split; [reflexivity |]. destruct (parent_of path) as [parent|] eqn:Epar.
      - apply (IH parent (removelast (b :: B'))); [exact Hd |].
        now apply (below_parent path (b :: B')).
      - cbn [state_of]. split; [apply changed_refl | exact Hd]. }
    destruct Hup as (up & -> & Hc1 & Hd1).
    destruct up as [m1 | m1 e1]; cbn [state_of] in *; [| now split].
    destruct (create_inside m1 path (b :: B')
                (Dir (Z.ldiff (Z.land perm (octal "7777")) (umask P)) (euid P))
                Hd1 Hb ltac:(discriminate) ltac:(discriminate)) as [Hc2 Hd2].
    fold (mkdir P m1 path perm) in Hc2, Hd2.
    destruct (mkdir P m1 path perm) as [m2 | m2 e2]; cbn [state_of] in *.
    + split; [eapply changed_trans; eauto | exact Hd2].
    + assert (changed_inside q0 m m2) by (eapply changed_trans; eauto).
      destruct (lstat P m2 path) as [? | [? dir]]; [now split |].
      destruct (is_dir dir); now split.
Qed.

Lemma open_write_inside m path B perm m' f :
  dest m -> below path B -> B <> [] ->
  open_write P m path true false true perm = inr (m', f) ->
  changed_inside q0 m m' /\ dest m' /\ strictly_inside q0 f.
Proof.
  intros Hd Hb HB. unfold open_write.
  pose proof (resolve_below m path B true Hd Hb HB) as Hr.
  destruct (resolve P m true path) as [q [mode uid|mode uid data|t]|q parent|e];
    try discriminate.
  - destruct Hr as (-> & E).
    destruct (permitted P mode uid 2 && (negb true || permitted P mode uid 4));
      [| discriminate].
    intros [= <- <-]. split; [apply changed_refl |]. split; [exact Hd |].
    now apply inside_below.
  - destruct Hr as (-> & E). destruct (may P 2 parent); [| discriminate].
    intros [= <- <-]. split; [now apply changed_insert, inside_below |].
    split; [| now apply inside_below].
    apply dest_insert; [exact Hd | discriminate | now apply extends_insert_new].
Qed.

Lemma write_start_inside m f data :
  dest m -> strictly_inside q0 f ->
  changed_inside q0 m (write_start m f data) /\ dest (write_start m f data).
Proof.
  intros Hd Hin. unfold write_start.
  destruct (m !! f) as [[mode uid|mode uid old|t]|] eqn:E;
    try (split; [apply changed_refl | exact Hd]).
  split; [now apply changed_insert |].
  apply dest_insert; [exact Hd | discriminate | exact (extends_insert_reg _ _ _ _ _ _ _ E)].
Qed.

(** The loop over the entries changes nothing but strictly inside the
    directory the cleaned destination names. *)
Lemma extractEntries_inside dst items at_eof : forall m,
  cd = Clean dst -> only_dotdot cd = false -> dest m ->
  changed_inside q0 m (fs_after (extractEntries P dst items at_eof m)).
Proof.
  induction items as [|[|h data] rest IH]; intros m Hcd Hod Hd; cbn [extractEntries].
  - destruct at_eof; apply changed_refl.
  - now apply IH.
  - destruct (legal_target dst (Join [dst; Name h])) eqn:Hleg; cbn [negb fs_after];
      [| apply changed_refl].
    assert (Hod' : only_dotdot (Clean dst) = false) by now rewrite <- Hcd.
    destruct (legal_target_split dst (Name h) Hod' Hleg) as (names & Hpn & Hnn & HsT & Hro).
    rewrite <- Hcd in HsT, Hro.
    assert (Hb : below (Join [dst; Name h]) names).
    { split; [| now repeat split].
      intros E. rewrite E in HsT. cbn in HsT.
      destruct (splitc "/" cd) as [|c0 l0] eqn:Es; [now apply splitc_nonempty in Es |].
      cbn in HsT. injection HsT as _ HsT. destruct l0, names; try discriminate.
      now apply Hnn. }
    destruct (Typeflag h =? TypeDir); [| destruct (Typeflag h =? TypeReg)].
    + destruct (stat P m (Join [dst; Name h])); [| now apply IH].
      destruct (MkdirAllN_inside (S (String.length (Join [dst; Name h])))
                  (octal "755") _ _ m Hd Hb) as [Hc Hd'].
      fold (MkdirAll P (Join [dst; Name h]) (octal "755") m) in Hc, Hd'.
      destruct (MkdirAll P (Join [dst; Name h]) (octal "755") m) as [m1 | m1 e1];
        cbn [state_of fs_after] in *; [| exact Hc].
      eapply changed_trans; [exact Hc | now apply IH].
    + destruct (open_write P m (Join [dst; Name h]) true false true
                  (syscallMode (Mode h))) as [e1 | [m1 f]] eqn:Eo;
        cbn [fs_after]; [apply changed_refl |].
      destruct (open_write_inside _ _ _ _ _ _ Hd Hb Hnn Eo) as (Hc & Hd1 & Hin).
      destruct (write_start_inside m1 f data Hd1 Hin) as [Hc2 Hd2].
      eapply changed_trans; [exact Hc |].
      eapply changed_trans; [exact Hc2 | now apply IH].
    + now apply IH.
Qed.

End Inside.

Lemma extractEntries_app P dst before rest at_eof : forall m,
  extractEntries P dst (before ++ rest) at_eof m =
    match extractEntries P dst before true m with
    | Extracted m' => extractEntries P dst rest at_eof m'
    | Aborted m' err => Aborted m' err
    end.
Proof.
  induction before as [|[|h data] before IH]; intros m; cbn [app extractEntries].
  - reflexivity.
  - apply IH.
  - destruct (negb (legal_target dst (Join [dst; Name h]))); [reflexivity |].
    destruct (Typeflag h =? TypeDir); [| destruct (Typeflag h =? TypeReg)].
    + destruct (stat P m (Join [dst; Name h])); [| apply IH].
      destruct (MkdirAll P (Join [dst; Name h]) (octal "755") m); [apply IH | reflexivity].
    + destruct (open_write P m (Join [dst; Name h]) true false true
                  (syscallMode (Mode h))) as [e1 | [m1 f]]; [reflexivity | apply IH].
    + apply IH.
Qed.

(** C1, the cases the claim leaves out.  With the destination [..] and the
    working directory [/w/d/sub] the destination is [/w/d]; the test of the
    extractor accepts the entry [../x], and the file [/w/x] is created
    outside the destination.  With a symbolic link [k] to [/etc] inside the
    destination [/d], the entry [k/passwd] is strictly inside the
    destination by its name and passes the test, and the file [/etc/passwd]
    is created.  With a destination [/n/d] that does not exist, a directory
    entry makes [/n] and [/n/d] on the way.  In the three cases the
    extraction succeeds. *)
Lemma extractArchive_zip_slip_counterexample :
  (stat user_in_sub tree_w ".." = inr (["w"; "d"], Dir (octal "755") 1000)
   /\ ~ strictly_inside ["w"; "d"] ["w"; "x"]
   /\ exists m',
        extractArchive user_in_sub (tar_of climbing) gzip_needs_bytes "/a.tar" ".." tree_w
        = Extracted m'
        /\ tree_w !! ["w"; "x"] = None
        /\ m' !! ["w"; "x"] = Some (Reg (octal "644") 1000 "y"))
  /\ (stat user tree_link_out "/d" = inr (["d"], Dir (octal "755") 1000)
      /\ ~ escapes "/d" "k/passwd"
      /\ ~ strictly_inside ["d"] ["etc"; "passwd"]
      /\ exists m',
           extractArchive user (tar_of through_link) gzip_needs_bytes "/a.tar" "/d"
             tree_link_out
           = Extracted m'
           /\ tree_link_out !! ["etc"; "passwd"] = None
           /\ m' !! ["etc"; "passwd"] = Some (Reg (octal "644") 1000 "z"))
  /\ (stat user tree_no_dest "/n/d" = inl ENOENT
      /\ ~ escapes "/n/d" "a"
      /\ exists m',
           extractArchive user (tar_of one_dir) gzip_needs_bytes "/a.tar" "/n/d"
             tree_no_dest
           = Extracted m'
           /\ tree_no_dest !! ["n"] = None
           /\ m' !! ["n"] = Some (Dir (octal "755") 1000)).
Proof.
  split; [| split].
  - split; [vm_compute; reflexivity |]. split.
    + intros (r & Hr & E). discriminate E.
    + eexists. split; [vm_compute; reflexivity |]. split; vm_compute; reflexivity.
  - split; [vm_compute; reflexivity |]. split; [| split].
    + intros H. apply H. exists ["k"; "passwd"]. split; [discriminate | vm_compute; reflexivity].
    + intros (r & Hr & E). discriminate E.
    + eexists. split; [vm_compute; reflexivity |]. split; vm_compute; reflexivity.
  - split; [vm_compute; reflexivity |]. split.
    + intros H. apply H. exists ["a"]. split; [discriminate | vm_compute; reflexivity].
    + eexists. split; [vm_compute; reflexivity |]. split; vm_compute; reflexivity.
Qed.

(** C1: let the cleaned destination not be made of [..] elements only.
    When it names an existing directory, at or below which the file system
    holds no symbolic link, the whole extraction changes no entry of the file
    system but strictly inside that directory.  And for an entry of the
    archive whose recorded name, joined to the destination, is not strictly
    inside it, [extractArchive] never succeeds: it returns
    [IllegalExtractionPath] for that entry when the entries before it were
    extracted without error, and else the error of the entry that failed
    before it. *)
Theorem extractArchive_zip_slip (P : proc) (tarDecode : string -> list item * bool)
    (gzipNewReader : string -> option string) (src dst : string)
    (m : gmap (list string) node) :
  only_dotdot (Clean dst) = false ->
  (forall q0 mode0 uid0,
     stat P m (Clean dst) = inr (q0, Dir mode0 uid0) -> no_link_below m q0 ->
     changed_inside q0 m (fs_after (extractArchive P tarDecode gzipNewReader src dst m)))
  /\ (forall items at_eof before h data after,
        open_archive P tarDecode gzipNewReader src m = inr (items, at_eof) ->
        items = (before ++ Entry h data :: after)%list ->
        escapes dst (Name h) ->
        (forall m', extractArchive P tarDecode gzipNewReader src dst m <> Extracted m')
        /\ match extractEntries P dst before true m with
           | Extracted m' =>
               extractArchive P tarDecode gzipNewReader src dst m
               = Aborted m' (IllegalExtractionPath (Join [dst; Name h]))
           | Aborted m' err =>
               extractArchive P tarDecode gzipNewReader src dst m = Aborted m' err
           end).
Proof.
  intros Hod. split.
  - intros q0 mode0 uid0 Hst Hl. unfold extractArchive.
    destruct (open_archive P tarDecode gzipNewReader src m) as [err | [items at_eof]];
      [apply changed_refl |].
    apply (extractEntries_inside P (Clean dst) q0 mode0 uid0 (Clean_nonempty dst)
             dst items at_eof m eq_refl Hod).
    split; [now apply stat_found | exact Hl].
  - intros items at_eof before h data after Hopen -> Hesc.
    unfold extractArchive. rewrite Hopen, extractEntries_app.
    pose proof (escapes_illegal dst (Name h) Hod Hesc) as Hill.
    destruct (extractEntries P dst before true m) as [m1 | m1 err].
    + cbn [extractEntries]. rewrite Hill. cbn [negb]. split; [discriminate | reflexivity].
    + split; [discriminate | reflexivity].
Qed.

Lemma extractArchive_zip_slip_witness :
  only_dotdot (Clean "/d") = false
  /\ changed_inside ["d"] with_tar
       (fs_after (extractArchive user tar_slipping gzip_needs_bytes "/a.tar" "/d" with_tar))
  /\ extractArchive user tar_slipping gzip_needs_bytes "/a.tar" "/d" with_tar
     = Aborted (<[ ["d"; "a"] := Dir (octal "755") 1000 ]> with_tar)
         (IllegalExtractionPath "/etc/passwd").
Proof.
  split; [reflexivity |].
  destruct (extractArchive_zip_slip user tar_slipping gzip_needs_bytes "/a.tar" "/d"
              with_tar eq_refl) as [Hin Hesc].
  split.
  - apply (Hin ["d"] (octal "755") 1000%nat); [vm_compute; reflexivity |].
    intros q t E. exfalso. revert E. unfold with_tar.
    destruct (decide (q = ["a.tar"])) as [-> | N1];
      [rewrite lookup_insert_eq; discriminate | rewrite lookup_insert_ne by congruence].
    destruct (decide (q = ["d"])) as [-> | N2];
      [rewrite lookup_insert_eq; discriminate | rewrite lookup_insert_ne by congruence].
    destruct (decide (q = [])) as [-> | N3];
      [rewrite lookup_insert_eq; discriminate | rewrite lookup_insert_ne by congruence].
    rewrite lookup_empty. discriminate.
  - destruct (Hesc slipping true
                [Entry {| Name := "a"; Typeflag := TypeDir; Mode := octal "755" |} EmptyString]
                {| Name := "../../etc/passwd"; Typeflag := TypeReg; Mode := octal "644" |}
                "x"
                [Entry {| Name := "b"; Typeflag := TypeReg; Mode := octal "644" |} "y"])
      as [_ H].
    + vm_compute. reflexivity.
    + reflexivity.
    + intros (r & Hr & E). vm_compute in E. discriminate.
    + assert (Hb : extractEntries user "/d"
                     [Entry {| Name := "a"; Typeflag := TypeDir; Mode := octal "755" |}
                        EmptyString] true with_tar
                   = Extracted (<[ ["d"; "a"] := Dir (octal "755") 1000 ]> with_tar))
        by (vm_compute; reflexivity).
      rewrite Hb in H. exact H.
Defined.

End ZipSlipFacts.

(** ** More on the extractor *)

Module ExtractMore.
Import GoStr Path FS FSPred Os Extract FSFacts ScaffoldPred ExtractPred PreservePred EntryPred.

Section Keeps.
Variable P : proc.

Lemma extractEntries_extends dst items at_eof : forall m,
  extends m (fs_after (extractEntries P dst items at_eof m)).
Proof.
  induction items as [|[|h data] rest IH]; intros m; cbn [extractEntries].
  - destruct at_eof; apply extends_refl.
  - apply IH.
  - destruct (negb (legal_target dst (Join [dst; Name h]))); [apply extends_refl |].
    destruct (Typeflag h =? TypeDir); [| destruct (Typeflag h =? TypeReg)].
    + destruct (stat P m (Join [dst; Name h])); [| apply IH].
      pose proof (MkdirAllN_extends P (S (String.length (Join [dst; Name h])))
                    (Join [dst; Name h]) (octal "755") m) as He.
      fold (MkdirAll P (Join [dst; Name h]) (octal "755") m) in He.
      destruct (MkdirAll P (Join [dst; Name h]) (octal "755") m) as [m1 | m1 e1];
        cbn [state_of fs_after] in *; [| exact He].
      eapply extends_trans; [exact He | apply IH].
    + destruct (open_write P m (Join [dst; Name h]) true false true
                  (syscallMode (Mode h))) as [e1 | [m1 f]] eqn:Eo;
        cbn [fs_after]; [apply extends_refl |].
      destruct (open_write_extends P _ _ _ _ _ _ _ _ Eo) as [He _].
      eapply extends_trans; [exact He |].
      eapply extends_trans; [apply write_start_extends | apply IH].
    + apply IH.
Qed.

End Keeps.

(** X1: whatever the archive holds, [extractArchive] removes no entry of the
    file system and replaces none by an entry of another kind: a directory
    or a symbolic link that was there is there unchanged, and a regular file
    is still a regular file of the same owner. *)
Theorem extractArchive_keeps_entries (P : proc) (tarDecode : string -> list item * bool)
    (gzipNewReader : string -> option string) (src dst : string)
    (m : gmap (list string) node) :
  extends m (fs_after (extractArchive P tarDecode gzipNewReader src dst m)).
Proof.
  unfold extractArchive.
  destruct (open_archive P tarDecode gzipNewReader src m) as [err | [items at_eof]];
    [apply extends_refl | apply extractEntries_extends].
Qed.

Section Links.
Variable P : proc.

Lemma no_new_links_refl m : no_new_links m m.
Proof. intros q t H. exact H. Qed.

Lemma no_new_links_trans m1 m2 m3 :
  no_new_links m1 m2 -> no_new_links m2 m3 -> no_new_links m1 m3.
Proof. intros H12 H23 q t H. apply H12, H23, H. Qed.

Lemma no_new_links_insert m q n :
  (forall t, n <> Lnk t) -> no_new_links m (<[q := n]> m).
Proof.
  intros Hn q' t H. destruct (decide (q = q')) as [<- | Hne].
  - rewrite lookup_insert_eq in H. injection H as H. now apply Hn in H.
  - now rewrite lookup_insert_ne in H.
Qed.

Lemma create_no_new_links m path n :
  (forall t, n <> Lnk t) -> no_new_links m (state_of (create P m path n)).
Proof.
  intros Hn. unfold create.
  destruct (resolve P m false path) as [q nd|q parent|e]; cbn [state_of];
    try apply no_new_links_refl.
  destruct (may P 2 parent); cbn [state_of];
    [now apply no_new_links_insert | apply no_new_links_refl].
Qed.

Lemma MkdirAllN_no_new_links n perm : forall path m,
  no_new_links m (state_of (MkdirAllN P n path perm m)).
Proof.
  induction n as [|n IH]; intros path m; cbn [MkdirAllN];
    (destruct (stat P m path) as [e | [q dir]];
     [| destruct (is_dir dir); cbn [state_of]; apply no_new_links_refl]).
  - apply no_new_links_refl.
  - assert (Hup : exists up,
      match parent_of path with
      | Some parent => MkdirAllN P n parent perm m
      | None => Done m
      end = up /\ no_new_links m (state_of up)).
    { eexists. split; [reflexivity |]. destruct (parent_of path) as [parent|].
      - apply IH.
      - apply no_new_links_refl. }
    destruct Hup as (up & -> & H1).
    destruct up as [m1 | m1 e1]; cbn [state_of] in *; [| exact H1].
    pose proof (create_no_new_links m1 path
                  (Dir (Z.ldiff (Z.land perm (octal "7777")) (umask P)) (euid P))
                  ltac:(discriminate)) as H2.
    fold (mkdir P m1 path perm) in H2.
    destruct (mkdir P m1 path perm) as [m2 | m2 e2]; cbn [state_of] in *.
    + eapply no_new_links_trans; eauto.
    + assert (no_new_links m m2) by (eapply no_new_links_trans; eauto).
      destruct (lstat P m2 path) as [? | [? dir]]; [assumption |].
      destruct (is_dir dir); assumption.
Qed.

Lemma open_write_no_new_links m path c t r perm m' f :
  open_write P m path c t r perm = inr (m', f) -> no_new_links m m'.
Proof.
  unfold open_write.
  destruct (resolve P m true path) as [q [mode uid|mode uid data|tg]|q parent|e];
    try discriminate.
  - destruct (permitted P mode uid 2 && (negb r || permitted P mode uid 4));
      [| discriminate].
    intros [= <- _]. destruct t; [now apply no_new_links_insert | apply no_new_links_refl].
  - destruct c; [| discriminate]. destruct (may P 2 parent); [| discriminate].
    intros [= <- _]. now apply no_new_links_insert.
Qed.

Lemma write_start_no_new_links m f data : no_new_links m (write_start m f data).
Proof.
  unfold write_start. destruct (m !! f) as [[mode uid|mode uid old|t]|];
    try apply no_new_links_refl.
  now apply no_new_links_insert.
Qed.

Lemma extractEntries_no_new_links dst items at_eof : forall m,
  no_new_links m (fs_after (extractEntries P dst items at_eof m)).
Proof.
  induction items as [|[|h data] rest IH]; intros m; cbn [extractEntries].
  - destruct at_eof; apply no_new_links_refl.
  - apply IH.
  - destruct (negb (legal_target dst (Join [dst; Name h]))); [apply no_new_links_refl |].
    destruct (Typeflag h =? TypeDir); [| destruct (Typeflag h =? TypeReg)].
    + destruct (stat P m (Join [dst; Name h])); [| apply IH].
      pose proof (MkdirAllN_no_new_links (S (String.length (Join [dst; Name h])))
                    (octal "755") (Join [dst; Name h]) m) as He.
      fold (MkdirAll P (Join [dst; Name h]) (octal "755") m) in He.
      destruct (MkdirAll P (Join [dst; Name h]) (octal "755") m) as [m1 | m1 e1];
        cbn [state_of fs_after] in *; [| exact He].
      eapply no_new_links_trans; [exact He | apply IH].
    + destruct (open_write P m (Join [dst; Name h]) true false true
                  (syscallMode (Mode h))) as [e1 | [m1 f]] eqn:Eo;
        cbn [fs_after]; [apply no_new_links_refl |].
      eapply no_new_links_trans; [exact (open_write_no_new_links _ _ _ _ _ _ _ _ Eo) |].
      eapply no_new_links_trans; [apply write_start_no_new_links | apply IH].
    + apply IH.
Qed.

End Links.

(** X2: [extractArchive] creates no symbolic link, whatever the entries of
    the archive are (a link entry is passed over): every link of the file
    system after the extraction was there before, with the same target. *)
Theorem extractArchive_creates_no_link (P : proc) (tarDecode : string -> list item * bool)
    (gzipNewReader : string -> option string) (src dst : string)
    (m : gmap (list string) node) (q : list string) (t : string) :
  fs_after (extractArchive P tarDecode gzipNewReader src dst m) !! q = Some (Lnk t) ->
  m !! q = Some (Lnk t).
Proof.
  revert q t. change (no_new_links m (fs_after (extractArchive P tarDecode gzipNewReader src dst m))).
  unfold extractArchive.
  destruct (open_archive P tarDecode gzipNewReader src m) as [err | [items at_eof]];
    [apply no_new_links_refl | apply extractEntries_no_new_links].
Qed.

Lemma extractArchive_creates_no_link_witness :
  with_link !! ["d"; "k"] = Some (Lnk "elsewhere").
Proof.
  apply (extractArchive_creates_no_link user tar_link_and_file gzip_needs_bytes
           "/t" "/d" with_link).
  vm_compute. reflexivity.
Defined.

(** X3: a source file of fewer than ten bytes (an empty file, say) is
    refused before the tar reader sees it: [Peek(10)] fails, the error is
    returned and the file system is as it was. *)
Theorem extractArchive_short_source (P : proc) (tarDecode : string -> list item * bool)
    (gzipNewReader : string -> option string) (src dst bytes : string)
    (m : gmap (list string) node) :
  open_read P m src = inr bytes ->
  (String.length bytes < 10)%nat ->
  extractArchive P tarDecode gzipNewReader src dst m = Aborted m PeekFailed.
Proof.
  intros Hopen Hlen. unfold extractArchive, open_archive. rewrite Hopen.
  replace (String.length bytes <? 10)%nat with true
    by (symmetry; apply Nat.ltb_lt; exact Hlen).
  reflexivity.
Qed.

Lemma extractArchive_short_source_witness :
  extractArchive user tar_link_and_file gzip_needs_bytes "/s" "/d" with_short_source
  = Aborted with_short_source PeekFailed.
Proof.
  apply (extractArchive_short_source user tar_link_and_file gzip_needs_bytes
           "/s" "/d" "abc").
  - vm_compute. reflexivity.
  - vm_compute. apply Nat.leb_le. reflexivity.
Defined.

Lemma substring_split n s :
  substring 0 n s +:+ substring n (String.length s - n) s = s.
Proof.
  revert n. induction s as [|c s IH]; intros [|n]; cbn; try reflexivity.
  - f_equal. specialize (IH 0%nat). rewrite Nat.sub_0_r in IH.
    destruct s; [reflexivity | exact IH].
  - f_equal. apply IH.
Qed.

(** X4: for a source of at least ten bytes that does not start with the
    gzip signature, the buffered reader is transparent: the tar reader is
    given exactly the bytes of the file, and [extractArchive] is the loop
    over the entries it yields. *)
Theorem extractArchive_plain_tar (P : proc) (tarDecode : string -> list item * bool)
    (gzipNewReader : string -> option string) (src dst bytes : string)
    (m : gmap (list string) node) :
  open_read P m src = inr bytes ->
  (10 <= String.length bytes)%nat ->
  sniffed_gzip (substring 0 10 bytes) = false ->
  extractArchive P tarDecode gzipNewReader src dst m
  = extractEntries P dst (fst (tarDecode bytes)) (snd (tarDecode bytes)) m.
Proof.
  intros Hopen Hlen Hsniff. unfold extractArchive, open_archive. rewrite Hopen.
  replace (String.length bytes <? 10)%nat with false
    by (symmetry; apply Nat.ltb_ge; exact Hlen).
  cbv zeta. rewrite Hsniff, substring_split.
  now destruct (tarDecode bytes).
Qed.

Lemma extractArchive_plain_tar_witness :
  extractArchive user tar_link_and_file gzip_needs_bytes "/t" "/d" with_plain_source
  = extractEntries user "/d" [link_entry; Entry file_entry "xyz"] true with_plain_source.
Proof.
  apply (extractArchive_plain_tar user tar_link_and_file gzip_needs_bytes
           "/t" "/d" "0123456789ab").
  - vm_compute. reflexivity.
  - vm_compute. apply Nat.leb_le. reflexivity.
  - vm_compute. reflexivity.
Defined.

(** X5: entries that are neither directories nor regular files (symbolic
    links, hard links, devices) are passed over without an error: an
    archive made of such entries with legal names, and of nil headers, is
    extracted with success and changes nothing. *)
Theorem extractEntries_passes_over (P : proc) (dst : string) (items : list item)
    (m : gmap (list string) node) :
  forallb (passed_over dst) items = true ->
  extractEntries P dst items true m = Extracted m.
Proof.
  induction items as [|[|h data] rest IH]; cbn [forallb extractEntries passed_over];
    intros H.
  - reflexivity.
  - apply IH, H.
  - apply andb_true_iff in H as [H Hrest].
    apply andb_true_iff in H as [H Hreg]. apply andb_true_iff in H as [-> Hdir].
    apply negb_true_iff in Hdir, Hreg. rewrite Hdir, Hreg. cbn [negb].
    apply IH, Hrest.
Qed.

Lemma extractEntries_passes_over_witness :
  extractEntries user "/d" [NilHeader; link_entry] true dest_empty = Extracted dest_empty.
Proof.
  apply (extractEntries_passes_over user "/d" [NilHeader; link_entry] dest_empty).
  vm_compute. reflexivity.
Defined.






End ExtractMore.

(** ** More on the scaffold *)

Module ScaffoldMore.
Import GoStr Path FS FSPred Os Scaffold FSFacts ScaffoldPred ScaffoldFacts PreservePred EntryPred.

Lemma same_kind_refl n : same_kind n n.
Proof. destruct n; cbn; eauto. Qed.

Lemma same_kind_keeps a b c : same_kind a b -> keeps b c -> same_kind a c.
Proof.
  destruct a; cbn.
  - intros (mode' & ->). cbn. intros ->. eauto.
  - intros (mode' & data' & ->). cbn. intros (mode2 & data2 & ->). eauto.
  - intros ->. cbn. auto.
Qed.

Lemma same_kind_with_mode n mode : same_kind n (with_mode n mode).
Proof. destruct n; cbn; eauto. Qed.

(** X8: [makeBaseEnv] removes nothing and replaces no entry by one of
    another kind, whether it succeeds or fails: every directory is still a
    directory and every regular file a regular file, of the same owner, and
    every symbolic link is the same link. *)
Theorem makeBaseEnv_keeps_kinds (P : proc) (rootPath : string)
    (m : gmap (list string) node) (q : list string) (n : node) :
  m !! q = Some n ->
  exists n', final (makeBaseEnv P rootPath m) !! q = Some n' /\ same_kind n n'.
Proof.
  intros Hq. unfold makeBaseEnv.
  destruct (stat P m rootPath) as [e | [q0 info]] eqn:Hst; cbn [final].
  { exists n. split; [exact Hq | apply same_kind_refl]. }
  assert (Hrest : forall m1,
    (exists n1, m1 !! q = Some n1 /\ same_kind n n1) ->
    exists n',
      final
        match makeDirs P rootPath m1 with
        | Failed m2 e => Error m2 "build: failed to make environment dirs" e
        | Done m2 =>
            match makeSymlinks P rootPath m2 with
            | Failed m3 e => Error m3 "build: failed to make environment symlinks" e
            | Done m3 =>
                match makeFiles P rootPath m3 with
                | Failed m4 e => Error m4 "build: failed to make environment files" e
                | Done m4 => Ok m4
                end
            end
        end !! q = Some n' /\ same_kind n n').
  { intros m1 (n1 & E1 & K1).
    destruct (after_writable_extends P rootPath m1 q n1 E1) as (n' & E' & K').
    exists n'. split; [exact E' | eapply same_kind_keeps; eauto]. }
  unfold ensure_writable. destruct (Z.land (perm_of info) (octal "200") =? 0).
  - unfold chmod. rewrite (stat_found P _ _ _ _ Hst).
    pose proof (resolve_found P _ _ _ _ _ (stat_found P _ _ _ _ Hst)) as Hq0.
    destruct (owns P info).
    + apply Hrest. destruct (decide (q0 = q)) as [<- | Hne].
      * rewrite lookup_insert_eq. eexists. split; [reflexivity |].
        rewrite Hq0 in Hq. injection Hq as <-. apply same_kind_with_mode.
      * rewrite lookup_insert_ne by exact Hne.
        exists n. split; [exact Hq | apply same_kind_refl].
    + cbn [final]. exists n. split; [exact Hq | apply same_kind_refl].
  - apply Hrest. exists n. split; [exact Hq | apply same_kind_refl].
Qed.

Lemma makeBaseEnv_keeps_kinds_witness :
  exists n', final (makeBaseEnv user "/b" bundle_link_to_tmp) !! ["b"; "apptainer"] = Some n'
             /\ same_kind (Lnk "tmp") n'.
Proof.
  apply (makeBaseEnv_keeps_kinds user "/b" bundle_link_to_tmp ["b"; "apptainer"] (Lnk "tmp")).
  vm_compute. reflexivity.
Defined.

Section Made.
Variable P : proc.

Lemma makeBaseEnv_steps rootPath m :
  succeeded (makeBaseEnv P rootPath m) = true ->
  exists m1 m2 m3,
    makeDirs P rootPath m1 = Done m2
    /\ makeSymlinks P rootPath m2 = Done m3
    /\ makeFiles P rootPath m3 = Done (final (makeBaseEnv P rootPath m)).
Proof.
  unfold makeBaseEnv.
  destruct (stat P m rootPath) as [e | [q0 info]]; [discriminate |].
  destruct (ensure_writable P rootPath info m) as [m1 | m1 e1]; [| discriminate].
  destruct (makeDirs P rootPath m1) as [m2 | m2 e2] eqn:Hd; [| discriminate].
  destruct (makeSymlinks P rootPath m2) as [m3 | m3 e3] eqn:Hl; [| discriminate].
  destruct (makeFiles P rootPath m3) as [m4 | m4 e4] eqn:Hf; [| discriminate].
  intros _. exists m1, m2, m3. cbn [final]. auto.
Qed.

Lemma stat_dir_extends m m' path :
  extends m m' ->
  (exists q mode uid, stat P m path = inr (q, Dir mode uid)) ->
  exists q mode uid, stat P m' path = inr (q, Dir mode uid).
Proof.
  intros He (q & mode & uid & Hs).
  destruct (stat_extends P m m' path q _ He Hs) as (n' & Hs' & K). cbn in K. subst n'.
  eauto.
Qed.

End Made.

(** X9: after a successful [makeBaseEnv] each of the eleven directories of
    the skeleton ([.apptainer.d/libs], [.apptainer.d/actions],
    [.apptainer.d/env], [dev], [proc], [root], [var/tmp], [tmp], [etc],
    [sys], [home]) names a directory under [rootPath]. *)
Theorem makeBaseEnv_makes_dirs (P : proc) (rootPath : string)
    (m : gmap (list string) node) :
  succeeded (makeBaseEnv P rootPath m) = true ->
  forall elems, elems ∈ scaffold_dirs ->
    exists q mode uid,
      stat P (final (makeBaseEnv P rootPath m)) (Join (rootPath :: elems))
      = inr (q, Dir mode uid).
Proof.
  intros Hok elems Hin.
  destruct (makeBaseEnv_steps P rootPath m Hok) as (m1 & m2 & m3 & Hd & Hl & Hf).
  apply (stat_dir_extends P m3).
  { pose proof (makeFiles_extends P rootPath m3) as He. now rewrite Hf in He. }
  apply (stat_dir_extends P m2).
  { pose proof (makeSymlinks_extends P rootPath m2) as He. now rewrite Hl in He. }
  unfold makeDirs in Hd.
  refine (each_post
            (fun elems m => MkdirAll P (Join (rootPath :: elems)) (octal "755") m)
            (fun elems m => exists q mode uid,
               stat P m (Join (rootPath :: elems)) = inr (q, Dir mode uid))
            _ _ _ scaffold_dirs m1 m2 Hd elems Hin).
  - intros a ma mb H. exact (MkdirAllN_post P _ _ _ _ _ H).
  - intros a ma mb He H. exact (stat_dir_extends P ma mb _ He H).
  - intros a ma. apply MkdirAllN_extends.
Qed.

Lemma makeBaseEnv_makes_dirs_witness :
  exists q mode uid,
    stat user (final (makeBaseEnv user "/b" bundle)) (Join ["/b"; "var"; "tmp"])
    = inr (q, Dir mode uid).
Proof.
  refine (makeBaseEnv_makes_dirs user "/b" bundle _ ["var"; "tmp"] _).
  - vm_compute. reflexivity.
  - unfold scaffold_dirs. repeat constructor.
Defined.

(** X10: when [makeFile] succeeds the file holds exactly the text [s],
    whatever it held before (it is truncated), and no other entry of the
    file system has changed. *)
Theorem makeFile_content (P : proc) (name : string) (perm : Z) (s : string)
    (m m' : gmap (list string) node) :
  makeFile P name perm s m = Done m' ->
  read_file P m' name = Some s
  /\ exists q, forall q', q' <> q -> m' !! q' = m !! q'.
Proof.
  intros H. destruct (makeFile_post P name perm s m m' H) as (q & mode & uid & Hs & _ & Hq).
  split; [| now exists q]. unfold read_file. now rewrite Hs.
Qed.

Lemma makeFile_content_witness :
  read_file user (state_of (makeFile user "/d/f" (octal "644") "xyz" dest_with_f)) "/d/f"
  = Some "xyz".
Proof.
  apply (makeFile_content user "/d/f" (octal "644") "xyz" dest_with_f
           (state_of (makeFile user "/d/f" (octal "644") "xyz" dest_with_f))).
  vm_compute. reflexivity.
Defined.

(** X11: after a successful [makeBaseEnv] each of the fourteen scaffold
    files names a regular file that the caller owns (or the caller is the
    super-user), and the file holds the text of the last scaffold file that
    was written through to it: its own text, unless a later scaffold path
    names the same file. *)
Theorem makeBaseEnv_makes_files (P : proc) (rootPath : string)
    (m : gmap (list string) node) :
  succeeded (makeBaseEnv P rootPath m) = true ->
  forall f, f ∈ scaffold_files ->
    exists q mode uid data,
      stat P (final (makeBaseEnv P rootPath m)) (Join (rootPath :: fst (fst f)))
      = inr (q, Reg mode uid data)
      /\ owns P (Reg mode uid data) = true
      /\ last_text P (final (makeBaseEnv P rootPath m)) (file_tasks rootPath) q
         = Some data.
Proof.
  intros Hok f Hin.
  destruct (makeBaseEnv_steps P rootPath m Hok) as (m1 & m2 & m3 & _ & _ & Hf).
  rewrite makeFiles_tasks in Hf.
  destruct (each_make_texts P _ _ _ Hf) as [Hready Hdata].
  assert (Ht : (Join (rootPath :: fst (fst f)), snd (fst f), snd f) ∈ file_tasks rootPath).
  { unfold file_tasks. apply list_elem_of_fmap. now exists f. }
  destruct (Hready _ Ht) as (q & mode & uid & data & Hs & Ho). cbn [fst snd] in Hs.
  exists q, mode, uid, data. split; [exact Hs |]. split; [exact Ho |].
  destruct (last_text_some P _ _ _ q _ Ht Hs) as (c & Hc).
  specialize (Hdata q). rewrite Hc in Hdata.
  unfold data_at in Hdata.
  rewrite (resolve_found P _ _ _ _ _ (stat_found P _ _ _ _ Hs)) in Hdata.
  congruence.
Qed.

Lemma makeBaseEnv_makes_files_witness :
  exists q mode uid data,
    stat user (final (makeBaseEnv user "/b" bundle)) (Join ["/b"; "etc"; "resolv.conf"])
    = inr (q, Reg mode uid data)
    /\ owns user (Reg mode uid data) = true
    /\ last_text user (final (makeBaseEnv user "/b" bundle)) (file_tasks "/b") q
       = Some data.
Proof.
  refine (makeBaseEnv_makes_files user "/b" bundle _
            (["etc"; "resolv.conf"], octal "644", EmptyString) _).
  - vm_compute. reflexivity.
  - unfold scaffold_files. repeat constructor.
Defined.

End ScaffoldMore.

(** ** More on the action script *)

Module ActionScriptMore.
Import Sh ActionScript ActionScriptPred ActionScriptFacts.







End ActionScriptMore.

(** ** The end of the action script *)

Module ActionTailFacts.
Import GoStr Sh ActionTail ActionScriptFacts.

Ltac split_ifs :=
  repeat match goal with
         | |- context [if ?b then _ else _] => destruct b eqn:?
         end.

(** X14: but for the action [exec], whose command is the user's, the action
    script executes only a path that [test -x] has accepted, and it hands
    all the positional parameters over, in order, as the last arguments
    (after [--norc] for [/bin/bash]). *)
Theorem dispatch_execs_tested (executable : string -> bool) (st : state)
    (cmd : string) (args argv : list string) :
  cmd <> "exec" ->
  snd (dispatch executable st cmd args) = Exec argv ->
  exists p pre,
    argv = (p :: pre ++ args)%list /\ executable p = true
    /\ (pre = [] \/ pre = ["--norc"]).
Proof.
  intros Hcmd. unfold dispatch.
  destruct (String.eqb_spec cmd "exec") as [? | _]; [contradiction |].
  split_ifs; cbn [snd]; intros [= <-];
    try (apply andb_true_iff in Heqb0 as [_ ?]);
    (eexists _, []; split; [reflexivity | split; [eassumption | now left]])
    || (eexists _, ["--norc"]; split; [reflexivity | split; [eassumption | now right]]).
Qed.

Lemma dispatch_execs_tested_witness :
  exists p pre,
    ["/bin/sh"; "-c"; "true"] = (p :: pre ++ ["-c"; "true"])%list /\ only_sh p = true
    /\ (pre = [] \/ pre = ["--norc"]).
Proof.
  apply (dispatch_execs_tested only_sh no_vars "run" ["-c"; "true"]).
  - discriminate.
  - vm_compute. reflexivity.
Defined.

Lemma HasPrefix_append p r : HasPrefix (p +:+ r) p = true.
Proof.
  unfold HasPrefix. induction p as [|c p IH]; cbn.
  - now destruct r.
  - destruct (ascii_dec c c) as [_ | Hne]; [exact IH | now contradiction Hne].
Qed.

(** X15: with an application name set, the actions [run] and [test] never
    fall back to the runscript or the test script of the container, nor to
    [/bin/sh]: they execute the script of the application under
    [/scif/apps/<name>/scif/], which [test -x] has accepted, with the
    positional parameters, or they exit with status 1; the variables are
    left as they are. *)
Theorem dispatch_app_only (executable : string -> bool) (st : state)
    (cmd : string) (args : list string) :
  nonempty (expand st "APPTAINER_APPNAME") = true ->
  cmd = "run" \/ cmd = "test" ->
  fst (dispatch executable st cmd args) = st
  /\ match snd (dispatch executable st cmd args) with
     | Exec argv =>
         exists script,
           argv = script :: args
           /\ HasPrefix script ("/scif/apps/" +:+ expand st "APPTAINER_APPNAME" +:+ "/scif/")
              = true
           /\ executable script = true
     | Exit status => status = 1
     end.
Proof.
  intros Happ [-> | ->]; unfold dispatch; cbn [String.eqb Ascii.eqb Bool.eqb];
    rewrite Happ.
  - destruct (executable _) eqn:E; cbn [fst snd]; split; try reflexivity.
    eexists. split; [reflexivity |]. split; [| exact E].
    replace ("/scif/apps/" +:+ expand st "APPTAINER_APPNAME" +:+ "/scif/runscript")
      with (("/scif/apps/" +:+ expand st "APPTAINER_APPNAME" +:+ "/scif/") +:+ "runscript")
      by (now rewrite !GoStrFacts.append_assoc).
    apply HasPrefix_append.
  - destruct (executable _) eqn:E; cbn [fst snd]; split; try reflexivity.
    eexists. split; [reflexivity |]. split; [| exact E].
    replace ("/scif/apps/" +:+ expand st "APPTAINER_APPNAME" +:+ "/scif/test")
      with (("/scif/apps/" +:+ expand st "APPTAINER_APPNAME" +:+ "/scif/") +:+ "test")
      by (now rewrite !GoStrFacts.append_assoc).
    apply HasPrefix_append.
Qed.

Lemma dispatch_app_only_witness :
  fst (dispatch only_sh with_app "run" ["x"]) = with_app
  /\ match snd (dispatch only_sh with_app "run" ["x"]) with
     | Exec argv =>
         exists script,
           argv = script :: ["x"]
           /\ HasPrefix script ("/scif/apps/" +:+ expand with_app "APPTAINER_APPNAME" +:+ "/scif/")
              = true
           /\ only_sh script = true
     | Exit status => status = 1
     end.
Proof.
  apply (dispatch_app_only only_sh with_app "run" ["x"]).
  - vm_compute. reflexivity.
  - now left.
Defined.

Lemma expand_export_assign k v st k' :
  k ∉ readonly st ->
  expand (export_assign k v st) k' = if decide (k' = k) then v else expand st k'.
Proof.
  intros Hro. unfold export_assign, export, assign, expand.
  rewrite !decide_False by exact Hro. cbn.
  destruct (decide (k' = k)) as [-> | Hne].
  - now rewrite lookup_insert_eq.
  - rewrite lookup_insert_ne by congruence. reflexivity.
Qed.

Lemma exported_export_assign k v st :
  k ∉ readonly st -> k ∈ exported (export_assign k v st).
Proof. intros Hro. now apply export_assign_writable. Qed.

Lemma exported_export_assign_mono k v st k' :
  k' ∈ exported st -> k' ∈ exported (export_assign k v st).
Proof.
  intros H. unfold export_assign. destruct (decide (k ∈ readonly st)); [exact H |].
  unfold export, assign. destruct (decide (k ∈ readonly st)); cbn; set_solver.
Qed.

Lemma nonempty_append a b : nonempty a = true -> nonempty (a +:+ b) = true.
Proof. destruct a; [discriminate | reflexivity]. Qed.

(** X16: when [PS1], [PROMPT_COMMAND] and [APPTAINER_ENVIRONMENT] are not
    read-only, the script leaves all three set to non-empty values, the last
    two exported; a [PS1] that was not empty is kept, and a
    [PROMPT_COMMAND] that was empty becomes the assignment of that [PS1]
    followed by [unset PROMPT_COMMAND]. *)
Theorem prompt_setup_ready (st : state) :
  "PS1" ∉ readonly st -> "PROMPT_COMMAND" ∉ readonly st ->
  "APPTAINER_ENVIRONMENT" ∉ readonly st ->
  nonempty (expand (prompt_setup st) "PS1") = true
  /\ nonempty (expand (prompt_setup st) "PROMPT_COMMAND") = true
  /\ nonempty (expand (prompt_setup st) "APPTAINER_ENVIRONMENT") = true
  /\ "PROMPT_COMMAND" ∈ exported (prompt_setup st)
  /\ "APPTAINER_ENVIRONMENT" ∈ exported (prompt_setup st)
  /\ (nonempty (expand st "PS1") = true ->
        expand (prompt_setup st) "PS1" = expand st "PS1")
  /\ (nonempty (expand st "PROMPT_COMMAND") = false ->
        expand (prompt_setup st) "PROMPT_COMMAND"
        = "PS1=" +:+ dq +:+ expand (prompt_setup st) "PS1" +:+ dq
            +:+ "; unset PROMPT_COMMAND").
Proof.
  intros R1 R2 R3. unfold prompt_setup. cbv zeta.
  set (st1 := if negb (nonempty (expand st "PS1"))
              then export_assign "PS1" "Apptainer> " st else st).
  assert (Hro1 : readonly st1 = readonly st).
  { unfold st1. destruct (negb _); [apply export_assign_ro | reflexivity]. }
  assert (Hps1 : nonempty (expand st1 "PS1") = true).
  { unfold st1. destruct (nonempty (expand st "PS1")) eqn:E; cbn [negb]; [exact E |].
    rewrite expand_export_assign by exact R1. reflexivity. }
  assert (Hkeep : nonempty (expand st "PS1") = true -> expand st1 "PS1" = expand st "PS1").
  { intros E. unfold st1. now rewrite E. }
  assert (Hpc : expand st1 "PROMPT_COMMAND" = expand st "PROMPT_COMMAND").
  { unfold st1. destruct (negb _); [| reflexivity].
    rewrite expand_export_assign by exact R1. reflexivity. }
  set (st2 :=
    if negb (nonempty (expand st1 "PROMPT_COMMAND")) then
      export_assign "PROMPT_COMMAND"
        ("PS1=" +:+ dq +:+ expand st1 "PS1" +:+ dq +:+ "; unset PROMPT_COMMAND") st1
    else
      export_assign "PROMPT_COMMAND"
        (expand st1 "PROMPT_COMMAND" +:+ "; PROMPT_COMMAND=" +:+ dq
           +:+ "${PROMPT_COMMAND%%; PROMPT_COMMAND=*}" +:+ dq
           +:+ "; PS1=" +:+ dq +:+ expand st1 "PS1" +:+ dq) st1).
  assert (Hro2 : readonly st2 = readonly st).
  { unfold st2. destruct (negb (nonempty (expand st1 "PROMPT_COMMAND")));
      rewrite export_assign_ro; exact Hro1. }
  assert (H2ps1 : expand st2 "PS1" = expand st1 "PS1").
  { unfold st2. destruct (negb (nonempty (expand st1 "PROMPT_COMMAND")));
      (rewrite expand_export_assign by (rewrite Hro1; exact R2)); reflexivity. }
  assert (H2pc : nonempty (expand st2 "PROMPT_COMMAND") = true
                 /\ "PROMPT_COMMAND" ∈ exported st2
                 /\ (nonempty (expand st "PROMPT_COMMAND") = false ->
                       expand st2 "PROMPT_COMMAND"
                       = "PS1=" +:+ dq +:+ expand st1 "PS1" +:+ dq
                           +:+ "; unset PROMPT_COMMAND")).
  { unfold st2. rewrite Hpc.
    destruct (nonempty (expand st "PROMPT_COMMAND")) eqn:E; cbn [negb];
      (rewrite expand_export_assign by (rewrite Hro1; exact R2));
      (rewrite decide_True by reflexivity);
      (split; [| split; [apply exported_export_assign; rewrite Hro1; exact R2 |]]).
    - now apply nonempty_append.
    - discriminate.
    - reflexivity.
    - intros _. reflexivity. }
  destruct H2pc as (Hn & He & Hv).
  rewrite !expand_export_assign by (rewrite Hro2; exact R3).
  rewrite (decide_False (P := "PS1" = "APPTAINER_ENVIRONMENT")) by discriminate.
  rewrite (decide_False (P := "PROMPT_COMMAND" = "APPTAINER_ENVIRONMENT")) by discriminate.
  rewrite (decide_True (P := "APPTAINER_ENVIRONMENT" = "APPTAINER_ENVIRONMENT"))
    by reflexivity.
  split; [now rewrite H2ps1 |]. split; [exact Hn |].
  split.
  { destruct (nonempty (expand st2 "APPTAINER_ENVIRONMENT")) eqn:E; [exact E | reflexivity]. }
  split; [now apply exported_export_assign_mono |].
  split; [apply exported_export_assign; rewrite Hro2; exact R3 |].
  split.
  - intros E. rewrite H2ps1. now apply Hkeep.
  - intros E. rewrite H2ps1. now apply Hv.
Qed.

Lemma prompt_setup_ready_witness :
  nonempty (expand (prompt_setup no_vars) "PS1") = true
  /\ nonempty (expand (prompt_setup no_vars) "PROMPT_COMMAND") = true
  /\ nonempty (expand (prompt_setup no_vars) "APPTAINER_ENVIRONMENT") = true
  /\ "PROMPT_COMMAND" ∈ exported (prompt_setup no_vars)
  /\ "APPTAINER_ENVIRONMENT" ∈ exported (prompt_setup no_vars)
  /\ (nonempty (expand no_vars "PS1") = true ->
        expand (prompt_setup no_vars) "PS1" = expand no_vars "PS1")
  /\ (nonempty (expand no_vars "PROMPT_COMMAND") = false ->
        expand (prompt_setup no_vars) "PROMPT_COMMAND"
        = "PS1=" +:+ dq +:+ expand (prompt_setup no_vars) "PS1" +:+ dq
            +:+ "; unset PROMPT_COMMAND").
Proof.
  apply (prompt_setup_ready no_vars); cbn; set_solver.
Defined.

End ActionTailFacts.

(** ** The generated scripts on the file system *)

Module PackerFacts.
Import GoStr GoStrFacts Path FS FSPred Os FSFacts ScaffoldPred EntryPred PackerPred.

Section Created.
Variable P : proc.

(** After [os.Create] and the writes, the path names a regular file that
    holds the text. *)
Lemma created_holds_text m path text m1 f :
  open_write P m path true true true (octal "666") = inr (m1, f) ->
  exists mode uid,
    resolve P (write_start m1 f text) true path = Found f (Reg mode uid text)
    /\ write_start m1 f text !! f = Some (Reg mode uid text).
Proof.
  unfold open_write.
  destruct (resolve P m true path) as [q [mode uid|mode uid data|t]|q parent|e] eqn:Hr;
    try discriminate.
  - destruct (permitted P mode uid 2 && (negb true || permitted P mode uid 4));
      [| discriminate].
    intros [= <- <-]. rewrite write_start_fresh. exists mode, uid.
    pose proof (resolve_found P _ _ _ _ _ Hr) as Hq.
    destruct (resolve_found_similar P m (<[q := Reg mode uid text]> m) true path q _
                (similar_insert_reg P m q mode uid data mode text Hq) Hr)
      as (n' & Hr' & Hq' & _).
    rewrite lookup_insert_eq in Hq'. injection Hq' as <-.
    split; [exact Hr' | apply lookup_insert_eq].
  - destruct (may P 2 parent); [| discriminate].
    intros [= <- <-]. rewrite write_start_fresh. eexists _, _.
    split; [| apply lookup_insert_eq].
    apply (resolve_absent_insert P m true path q parent); [discriminate | exact Hr].
Qed.

Lemma create_script_post path text m m' :
  Packer.create_script P path text m = Done m' ->
  exists q uid, stat P m' path = inr (q, Reg (octal "755") uid text).
Proof.
  unfold Packer.create_script.
  destruct (open_write P m path true true true (octal "666")) as [e | [m1 f]] eqn:Eo;
    [discriminate |].
  destruct (created_holds_text m path text m1 f Eo) as (mode & uid & Hr & Hf).
  unfold chmod. rewrite Hr. destruct (owns P (Reg mode uid text)); [| discriminate].
  intros [= <-]. exists f, uid. cbn [with_mode].
  destruct (resolve_found_similar P _
              (<[f := Reg (Z.land (octal "755") (octal "7777")) uid text]>
                 (write_start m1 f text)) true path f _
              (similar_insert_reg P _ f mode uid text
                 (Z.land (octal "755") (octal "7777")) text Hf) Hr)
    as (n' & Hr' & Hq' & _).
  rewrite lookup_insert_eq in Hq'. injection Hq' as <-.
  unfold stat. rewrite Hr'. reflexivity.
Qed.

End Created.

(** X17: when [insertRunScript] succeeds, [.apptainer.d/runscript] under the
    root file system is a regular file of mode 0755 that holds exactly the
    generated script: what the file held before (the placeholder of the
    scaffold, say) is gone. *)
Theorem insertRunScript_file (P : proc) (RootfsPath : string) (cfg : ImageConfig)
    (m m' : gmap (list string) node) :
  Packer.insertRunScript P RootfsPath cfg m = Done m' ->
  exists q uid,
    stat P m' (RootfsPath +:+ "/.apptainer.d/runscript")
    = inr (q, Reg (octal "755") uid (RunScript.insertRunScript cfg)).
Proof. apply create_script_post. Qed.

Lemma insertRunScript_file_witness :
  exists q uid,
    stat user (state_of (Packer.insertRunScript user "/b" sample_config rootfs_ready))
      ("/b" +:+ "/.apptainer.d/runscript")
    = inr (q, Reg (octal "755") uid (RunScript.insertRunScript sample_config)).
Proof.
  apply (insertRunScript_file user "/b" sample_config rootfs_ready
           (state_of (Packer.insertRunScript user "/b" sample_config rootfs_ready))).
  vm_compute. reflexivity.
Defined.

(** X18: when [insertEnv] succeeds, the file
    [.apptainer.d/env/10-docker2apptainer.sh] holds the interpreter line
    followed by the export lines of the entries of [Env], in their order,
    and nothing else. *)
Theorem insertEnv_file (P : proc) (isPrintHigh : Z -> bool) (RootfsPath : string)
    (cfg : ImageConfig) (m m' : gmap (list string) node) :
  Packer.insertEnv P isPrintHigh RootfsPath cfg m = Done m' ->
  read_file P m' (RootfsPath +:+ "/.apptainer.d/env/10-docker2apptainer.sh")
  = Some ("#!/bin/sh" +:+ nl
            +:+ String.concat "" (map (EnvFile.exportLine isPrintHigh) (Env cfg))).
Proof.
  intros H. destruct (create_script_post P _ _ _ _ H) as (q & uid & Hs).
  unfold read_file. rewrite Hs. unfold EnvFile.insertEnv.
  now rewrite EnvFileFacts.fold_left_append.
Qed.

Lemma insertEnv_file_witness :
  read_file user
    (state_of (Packer.insertEnv user all_printable "/b" sample_config rootfs_ready))
    ("/b" +:+ "/.apptainer.d/env/10-docker2apptainer.sh")
  = Some ("#!/bin/sh" +:+ nl
            +:+ String.concat "" (map (EnvFile.exportLine all_printable) (Env sample_config))).
Proof.
  apply (insertEnv_file user all_printable "/b" sample_config rootfs_ready
           (state_of (Packer.insertEnv user all_printable "/b" sample_config rootfs_ready))).
  vm_compute. reflexivity.
Defined.

End PackerFacts.

(** ** The lines of the environment file *)

Module EnvFileMore.
Import GoStr GoStrFacts Shell Pred EnvFile TextPred.

Lemma lacks_concat c a b : lacks c (a +:+ b) = lacks c a && lacks c b.
Proof. induction a as [|x a IH]; cbn; [reflexivity | now rewrite IH, andb_assoc]. Qed.

Lemma count_append c a b : count c (a +:+ b) = (count c a + count c b)%nat.
Proof. induction a as [|x a IH]; cbn; [reflexivity | rewrite IH; lia]. Qed.

Lemma lacks_count c s : lacks c s = true -> count c s = 0%nat.
Proof.
  induction s as [|x s IH]; cbn; [reflexivity |].
  intros H. apply andb_true_iff in H as [Hx Hs]. apply negb_true_iff in Hx.
  now rewrite Hx, IH.
Qed.

Lemma byte_not_nl c : code c <> 10 -> Ascii.eqb c (chr 10) = false.
Proof.
  intros H. destruct (Ascii.eqb_spec c (chr 10)) as [-> | _]; [| reflexivity].
  now contradiction H.
Qed.

Lemma lowerhex_not_nl n : Ascii.eqb (lowerhex n) (chr 10) = false.
Proof.
  unfold lowerhex. generalize (Z.to_nat n). intros k.
  do 16 (destruct k as [|k]; [reflexivity |]). now destruct k.
Qed.

Lemma hexdigits_lacks k r : lacks (chr 10) (hexdigits k r) = true.
Proof.
  induction k as [|k IH]; cbn [hexdigits lacks]; [reflexivity |].
  now rewrite lowerhex_not_nl, IH.
Qed.

Section Quoted.
Variable isP : Z -> bool.

(** An escaped rune holds no raw newline when its text holds none, or when
    the rune is written as an escape sequence. *)
Lemma appendEscapedRune_lacks r raw :
  ((r =? 34) || (r =? 92) || IsPrint isP r = true -> lacks (chr 10) raw = true) ->
  lacks (chr 10) (appendEscapedRune isP r raw) = true.
Proof.
  intros H. unfold appendEscapedRune.
  destruct ((r =? 34) || (r =? 92)) eqn:E1.
  { rewrite lacks_concat, H by reflexivity. reflexivity. }
  destruct (IsPrint isP r) eqn:E2.
  { apply H. reflexivity. }
  repeat match goal with
         | |- context [if ?b then _ else _] => destruct b
         end;
    rewrite ?lacks_concat, ?hexdigits_lacks; reflexivity.
Qed.

Lemma escaped_ascii_lacks c :
  code c < 0x80 -> lacks (chr 10) (appendEscapedRune isP (code c) (str1 c)) = true.
Proof.
  intros Hlt. apply appendEscapedRune_lacks. intros H. cbn.
  rewrite byte_not_nl; [reflexivity |]. intros E. rewrite E in H.
  unfold IsPrint in H. cbn in H. discriminate.
Qed.

Lemma high_byte c : (code c <? 0x80) = false -> Ascii.eqb c (chr 10) = false.
Proof. intros H. apply byte_not_nl. apply Z.ltb_ge in H. lia. Qed.

Lemma continuation_byte lo hi c :
  0x80 <= lo -> negb (between lo hi (code c)) = false -> Ascii.eqb c (chr 10) = false.
Proof.
  intros Hlo H. apply byte_not_nl. apply negb_false_iff in H.
  unfold between in H. apply andb_true_iff in H as [H _]. apply Z.leb_le in H. lia.
Qed.

Lemma first_low b sz lo hi : first b = Some (sz, lo, hi) -> 0x80 <= lo.
Proof.
  unfold first.
  repeat match goal with
         | |- context [if ?c then _ else _] => destruct c
         end; intros [= <- <- <-] || discriminate; lia.
Qed.

Lemma quoteBody_lacks : forall n s,
  (String.length s <= n)%nat -> lacks (chr 10) (quoteBody isP s) = true.
Proof.
  induction n as [|n IHn]; intros s Hlen; destruct s as [|c0 r0]; try reflexivity;
    [cbn in Hlen; lia |].
  cbn [quoteBody]. cbv zeta.
  assert (IH0 : lacks (chr 10) (quoteBody isP r0) = true)
    by (apply IHn; cbn in Hlen; lia).
  assert (Hbad : lacks (chr 10)
                   (bsl +:+ "x" +:+ hexdigits 2 (code c0) +:+ quoteBody isP r0) = true)
    by (rewrite !lacks_concat, hexdigits_lacks, IH0; reflexivity).
  destruct (code c0 <? 0x80) eqn:E0.
  { rewrite lacks_concat, escaped_ascii_lacks, IH0;
      [reflexivity | apply Z.ltb_lt; exact E0]. }
  destruct (first (code c0)) as [[[sz lo] hi]|] eqn:Ef; [| exact Hbad].
  pose proof (first_low _ _ _ _ Ef) as Hlo.
  destruct r0 as [|c1 r1]; [exact Hbad |].
  destruct (negb (between lo hi (code c1))) eqn:E1; [exact Hbad |].
  assert (IH1 : lacks (chr 10) (quoteBody isP r1) = true)
    by (apply IHn; cbn in Hlen |- *; lia).
  pose proof (high_byte c0 E0) as N0.
  pose proof (continuation_byte lo hi c1 Hlo E1) as N1.
  destruct (sz =? 2)%nat.
  { rewrite lacks_concat, IH1, appendEscapedRune_lacks; [reflexivity |].
    intros _. cbn [lacks str1]. now rewrite N0, N1. }
  destruct r1 as [|c2 r2]; [exact Hbad |].
  destruct (negb (between 0x80 0xBF (code c2))) eqn:E2; [exact Hbad |].
  assert (IH2 : lacks (chr 10) (quoteBody isP r2) = true)
    by (apply IHn; cbn in Hlen |- *; lia).
  pose proof (continuation_byte 0x80 0xBF c2 ltac:(lia) E2) as N2.
  destruct (sz =? 3)%nat.
  { rewrite lacks_concat, IH2, appendEscapedRune_lacks; [reflexivity |].
    intros _. cbn [lacks str1]. now rewrite N0, N1, N2. }
  destruct r2 as [|c3 r3]; [exact Hbad |].
  destruct (negb (between 0x80 0xBF (code c3))) eqn:E3; [exact Hbad |].
  assert (IH3 : lacks (chr 10) (quoteBody isP r3) = true)
    by (apply IHn; cbn in Hlen |- *; lia).
  pose proof (continuation_byte 0x80 0xBF c3 ltac:(lia) E3) as N3.
  rewrite lacks_concat, IH3, appendEscapedRune_lacks; [reflexivity |].
  intros _. cbn [lacks str1]. now rewrite N0, N1, N2, N3.
Qed.

Lemma Quote_lacks s : lacks (chr 10) (Quote isP s) = true.
Proof.
  unfold Quote. rewrite !lacks_concat, (quoteBody_lacks (String.length s) s) by lia.
  reflexivity.
Qed.

Lemma exportLine_one_line element :
  lacks (chr 10) (fst (SplitN2 "=" element)) = true ->
  count (chr 10) (exportLine isP element) = 1%nat.
Proof.
  unfold exportLine. destruct (SplitN2 "=" element) as [k [v|]]; cbn [fst]; intros Hk.
  - destruct (String.eqb k "PATH");
      rewrite !count_append, ?(lacks_count _ k Hk), ?(lacks_count _ _ (Quote_lacks _));
      reflexivity.
  - rewrite !count_append, ?(lacks_count _ k Hk). reflexivity.
Qed.

End Quoted.

(** X19: whatever the values of the variables are, a value cannot open a
    line of its own in the environment file: when no variable name (the text
    of an entry before its first equal sign) holds a newline, the file has
    exactly one newline for the interpreter line and one for each entry of
    [Env].  A newline of a value is written by the verb q as a backslash
    and the letter n. *)
Theorem insertEnv_one_line_each (isPrintHigh : Z -> bool) (cfg : ImageConfig) :
  Forall (fun e => lacks (chr 10) (fst (SplitN2 "=" e)) = true) (Env cfg) ->
  count (chr 10) (insertEnv isPrintHigh cfg) = S (List.length (Env cfg)).
Proof.
  intros H. unfold insertEnv.
  assert (Hacc : forall acc,
    count (chr 10) (fold_left (fun f e => f +:+ exportLine isPrintHigh e) (Env cfg) acc)
    = (count (chr 10) acc + List.length (Env cfg))%nat).
  { induction H as [|e l He Hl IH]; intros acc; cbn [fold_left List.length].
    - lia.
    - rewrite IH, count_append, (exportLine_one_line isPrintHigh e He). lia. }
  rewrite Hacc. reflexivity.
Qed.

Lemma insertEnv_one_line_each_witness :
  count (chr 10)
    (insertEnv (fun _ => true)
       {| Entrypoint := []; Cmd := []; Env := ["A=x" +:+ nl +:+ "y"; "B"] |})
  = 3%nat.
Proof.
  apply (insertEnv_one_line_each (fun _ => true)
           {| Entrypoint := []; Cmd := []; Env := ["A=x" +:+ nl +:+ "y"; "B"] |}).
  repeat constructor.
Defined.

End EnvFileMore.

(** ** The runscript of an image without a command *)

Module RunScriptMore.
Import GoStr Shell ShWords RunScript RunScriptPred RunScriptFacts.

(** X20: for an image that defines neither an entry point nor a command,
    the generated runscript executes the user's arguments as the command
    (arguments without NUL, backslash, double quote, backquote or dollar,
    the first one not starting with a dash or a plus); without arguments
    it reaches [exec] with no command word. *)
Theorem runscript_no_command (cfg : ImageConfig) (args : list string) :
  Entrypoint cfg = [] -> Cmd cfg = [] ->
  forallb inert args = true -> plain_command args = true ->
  run_script cfg args = Some args.
Proof.
  intros He Hc Hin Hpl.
  rewrite (run_script_oci cfg args).
  - unfold oci_command. rewrite He, Hc. now destruct args.
  - now rewrite He.
  - now rewrite Hc.
  - exact Hin.
  - unfold oci_command. rewrite He, Hc. now destruct args.
Qed.

Lemma runscript_no_command_witness :
  run_script {| Entrypoint := []; Cmd := []; Env := [] |} ["ls"; "-l"] = Some ["ls"; "-l"]
  /\ run_script {| Entrypoint := []; Cmd := []; Env := [] |} [] = Some [].
Proof.
  split.
  - apply (runscript_no_command {| Entrypoint := []; Cmd := []; Env := [] |} ["ls"; "-l"]);
      reflexivity.
  - apply (runscript_no_command {| Entrypoint := []; Cmd := []; Env := [] |} []);
      reflexivity.
Defined.

End RunScriptMore.
